(** * NBA analytics backend (backend/server.js): query routes and populate
      routes over the Player, Team and Game collections.

    The Express handlers are embedded as functions from the request and the
    current store to a response envelope and the next store.  What the
    handlers read from their surroundings is made an explicit input:
    - the upstream provider, as a function from the requested path to what
      the HTTP client yields for it ([upstream]);
    - the clock ([toISOString], [now]);
    - the randomness behind [$sample] and the server's
      regular-expression engine, for the query routes;
    - the time value the runtime gives to a [Date], for the routes that
      sort games by date and for the insertion of games.

    Upstream payloads are untyped JSON, so they are kept as JavaScript
    values ([Js.value]) and every property read, [||], [?.] and spread is
    written with its JavaScript meaning, a read on [undefined] or [null]
    raising a [TypeError].  A collection is the list of its documents in
    natural order.  [insertMany] casts every document to its schema before
    anything is written: a value on a String path is stored as a string, a
    value on a Number path as a double, and a document with a value its
    path refuses, or with an Invalid Date, makes the whole call fail.
    Connection faults of the database are not modelled. *)

From Stdlib Require Import List String Ascii ZArith NArith Lia Bool Arith.
From Stdlib Require Import Numbers.DecimalString Sorting.Permutation.
From Stdlib Require Import Sorting.Sorted.
Import ListNotations.
Set Warnings "-register-all".
Open Scope string_scope.
Open Scope list_scope.

(** ** JavaScript values and the operators the handlers use *)

Module Js.

(** A parsed JSON value, or [undefined].  In [VObj] the first binding of a
    key is the one in effect. *)
Inductive value : Type :=
| VUndefined
| VNull
| VBool (b : bool)
| VNum (n : Z)
| VStr (s : string)
| VArr (elems : list value)
| VObj (fields : list (string * value)).

Inductive exn : Type :=
| Error (message : string)
| TypeError (message : string)
| CastError (message : string)
| ValidationError (message : string)
| MongoServerError (message : string).

Definition message (e : exn) : string :=
  match e with
  | Error m | TypeError m | CastError m | ValidationError m
  | MongoServerError m => m
  end.

(** Result of evaluating an expression or a block that may throw. *)
Inductive completion (A : Type) : Type :=
| Normal (a : A)
| Throw (e : exn).
Arguments Normal {A} a.
Arguments Throw {A} e.

Definition bind {A B} (c : completion A) (k : A -> completion B)
  : completion B :=
  match c with
  | Normal a => k a
  | Throw e => Throw e
  end.

Notation "x <- c ;; k" := (bind c (fun x => k))
  (at level 61, c at next level, right associativity).

Fixpoint mapM {A B} (f : A -> completion B) (l : list A)
  : completion (list B) :=
  match l with
  | [] => Normal []
  | a :: l' => b <- f a ;; bs <- mapM f l' ;; Normal (b :: bs)
  end.

(** ToBoolean. *)
Definition truthy (v : value) : bool :=
  match v with
  | VUndefined | VNull => false
  | VBool b => b
  | VNum n => negb (n =? 0)%Z
  | VStr s => negb (s =? "")
  | VArr _ | VObj _ => true
  end.

(** [a || b] *)
Definition or_else (a b : value) : value := if truthy a then a else b.

Fixpoint assoc (k : string) (fields : list (string * value)) : value :=
  match fields with
  | [] => VUndefined
  | (k', v) :: rest => if k =? k' then v else assoc k rest
  end.

Definition describe (v : value) : string :=
  match v with VNull => "null" | _ => "undefined" end.

(** [v.k] for the property names the handlers read.  Arrays and strings
    own [length]; no other name read by the handlers is defined on an
    array, a string, a number or a boolean. *)
Definition get (v : value) (k : string) : completion value :=
  match v with
  | VUndefined | VNull =>
      Throw (TypeError ("Cannot read properties of " ++ describe v
                        ++ " (reading '" ++ k ++ "')"))
  | VObj fields => Normal (assoc k fields)
  | VArr elems =>
      Normal (if k =? "length" then VNum (Z.of_nat (List.length elems))
              else VUndefined)
  | VStr s =>
      Normal (if k =? "length" then VNum (Z.of_nat (String.length s))
              else VUndefined)
  | VBool _ | VNum _ => Normal VUndefined
  end.

(** [v?.k] *)
Definition get_opt (v : value) (k : string) : completion value :=
  match v with
  | VUndefined | VNull => Normal VUndefined
  | _ => get v k
  end.

Definition string_of_nat (n : nat) : string :=
  NilZero.string_of_uint (Nat.to_uint n).

Fixpoint index_fields_from (i : nat) (l : list value)
  : list (string * value) :=
  match l with
  | [] => []
  | v :: l' => (string_of_nat i, v) :: index_fields_from (S i) l'
  end.

Fixpoint chars_of (s : string) : list value :=
  match s with
  | EmptyString => []
  | String c s' => VStr (String c EmptyString) :: chars_of s'
  end.

(** Own enumerable properties copied by [{...v}]. *)
Definition own_fields (v : value) : list (string * value) :=
  match v with
  | VObj fields => fields
  | VArr elems => index_fields_from 0 elems
  | VStr s => index_fields_from 0 (chars_of s)
  | VUndefined | VNull | VBool _ | VNum _ => []
  end.

(** [{...v, k1: v1, ..., kn: vn}]: the listed properties override the
    copied ones. *)
Definition spread_with (v : value) (extra : list (string * value)) : value :=
  VObj (extra ++ own_fields v).

(** [v.map(f)]: only an array has [map]. *)
Definition array_map {B} (path : string) (v : value)
    (f : value -> completion B) : completion (list B) :=
  match v with
  | VArr elems => mapM f elems
  | VUndefined | VNull =>
      Throw (TypeError ("Cannot read properties of " ++ describe v
                        ++ " (reading 'map')"))
  | _ => Throw (TypeError (path ++ ".map is not a function"))
  end.

(** *** Numbers: [String(n)] and [Number(s)] *)

(** [Double neg m e] is (-1)^neg * m * 2^e, with m odd, or m = 0 and e = 0. *)
Inductive number : Type :=
| Double (negative : bool) (m : N) (e : Z)
| Infinity (negative : bool).

Fixpoint odd_part (p : positive) (e : Z) : positive * Z :=
  match p with
  | xO p' => odd_part p' (e + 1)
  | _ => (p, e)
  end.

Definition canonical (neg : bool) (m : N) (e : Z) : number :=
  match m with
  | N0 => Double neg 0 0
  | Npos p => let '(p', e') := odd_part p e in Double neg (Npos p') e'
  end.

(** The double nearest to num/den, ties to even. *)
Definition nearest (neg : bool) (num den : N) : number :=
  if (num =? 0)%N then Double neg 0 0 else
  let scaled (e : Z) : N * N :=
    if (0 <=? e)%Z then (num, den * 2 ^ Z.to_N e)%N
    else (num * 2 ^ Z.to_N (- e), den)%N in
  let e1 := (Z.of_N (N.size num) - Z.of_N (N.size den) - 53)%Z in
  let e2 := let '(n1, d1) := scaled e1 in
            if (2 ^ 53 <=? n1 / d1)%N then (e1 + 1)%Z else e1 in
  let e := Z.max e2 (-1074) in
  let '(n, d) := scaled e in
  let q := (n / d)%N in
  let r := (n - q * d)%N in
  let q' := if ((d <? 2 * r) || ((2 * r =? d) && N.odd q))%N
            then (q + 1)%N else q in
  if (1025 <=? Z.of_N (N.size q') + e)%Z then Infinity neg
  else canonical neg q' e.

Definition number_of_Z (n : Z) : number :=
  nearest (n <? 0)%Z (Z.abs_N n) 1.

Definition digits_of (n : N) : string :=
  NilZero.string_of_uint (N.to_uint n).

Fixpoint strip_zeros_fuel (fuel : nat) (n : N) : N :=
  match fuel with
  | O => n
  | S f => if ((n mod 10 =? 0) && negb (n =? 0))%N
           then strip_zeros_fuel f (n / 10) else n
  end.

(** Shortest decimal that reads back as the integer double [x]: for
    [k] = 1, 2, ... significant digits, the nearest to [x] of the two
    neighbours with [k] digits that round to [x]. *)
Fixpoint shortest (fuel : nat) (k : nat) (nd : nat) (x : N)
    (within : N -> bool) : N :=
  match fuel with
  | O => x
  | S f =>
      if (nd <=? k)%nat then x else
      let p := (10 ^ N.of_nat (nd - k))%N in
      let lo := (x / p * p)%N in
      let hi := (lo + p)%N in
      let lo_ok := within lo in
      let hi_ok := within hi in
      let pick_lo :=
        if lo_ok && hi_ok then
          if (x - lo <? hi - x)%N then true
          else if (hi - x <? x - lo)%N then false
          else N.even (x / p)
        else lo_ok in
      if lo_ok || hi_ok then (if pick_lo then lo else hi)
      else shortest f (S k) nd x within
  end.

(** [String(x)] for a double [x] that is a non-negative integer. *)
Definition integer_text (x : N) : string :=
  let b := N.size x in
  if (b <=? 53)%N then digits_of x else
  let sh := (b - 53)%N in
  let q := N.shiftr x sh in
  (* distances are compared doubled twice, the gaps being 2^sh above and
     2^sh or 2^(sh-1) below *)
  let up := (2 * 2 ^ sh)%N in
  let down := if (q =? 2 ^ 52)%N then (2 ^ sh)%N else (2 * 2 ^ sh)%N in
  let closed := N.even q in
  let within (v : N) : bool :=
    if (x <=? v)%N
    then (if closed then (4 * (v - x) <=? up) else (4 * (v - x) <? up))%N
    else (if closed then (4 * (x - v) <=? down) else (4 * (x - v) <? down))%N in
  let nd := String.length (digits_of x) in
  let v := shortest 18 1 nd x within in
  let nv := String.length (digits_of v) in
  if (nv <=? 21)%nat then digits_of v else
  let ds := digits_of (strip_zeros_fuel nv v) in
  match ds with
  | EmptyString => ds
  | String c rest =>
      String c (if (rest =? "")%string then EmptyString else "." ++ rest)
      ++ "e+" ++ NilZero.string_of_uint (Nat.to_uint (nv - 1))
  end.

(** [String(n)], [n] being read as the double nearest to it. *)
Definition number_text (n : Z) : string :=
  match number_of_Z n with
  | Infinity neg => if neg then "-Infinity" else "Infinity"
  | Double neg m e =>
      (if neg && negb (m =? 0)%N then "-" else "")
      ++ integer_text (m * 2 ^ Z.to_N e)%N
  end.

(** [Number(s)] is read off the string as follows. *)

Definition byte (c : ascii) : N := N_of_ascii c.

(** Drops the white space and line terminators a string starts with. *)
Fixpoint skip_space (s : string) : string :=
  match s with
  | String a rest =>
      let one := existsb (N.eqb (byte a)) [9; 10; 11; 12; 13; 32]%N in
      if one then skip_space rest else
      match rest with
      | String b rest2 =>
          if ((byte a =? 194) && (byte b =? 160))%N then skip_space rest2
          else
          match rest2 with
          | String c rest3 =>
              let x := byte a in let y := byte b in let z := byte c in
              if (((x =? 225) && (y =? 154) && (z =? 128))
                  || ((x =? 226) && (y =? 128)
                      && (((128 <=? z) && (z <=? 138))
                          || (z =? 168) || (z =? 169) || (z =? 175)))
                  || ((x =? 226) && (y =? 129) && (z =? 159))
                  || ((x =? 227) && (y =? 128) && (z =? 128))
                  || ((x =? 239) && (y =? 187) && (z =? 191)))%N
              then skip_space rest3 else s
          | EmptyString => s
          end
      | EmptyString => s
      end
  | EmptyString => s
  end.

Definition digit_in (base : N) (c : ascii) : option N :=
  let n := byte c in
  let d := if ((48 <=? n) && (n <=? 57))%N then Some (n - 48)%N
           else if ((97 <=? n) && (n <=? 102))%N then Some (n - 87)%N
           else if ((65 <=? n) && (n <=? 70))%N then Some (n - 55)%N
           else None in
  match d with
  | Some v => if (v <? base)%N then Some v else None
  | None => None
  end.

(** Reads digits of [base]: their value, how many, and what follows. *)
Fixpoint read_digits (base : N) (acc : N) (count : nat) (s : string)
  : N * nat * string :=
  match s with
  | String c rest =>
      match digit_in base c with
      | Some d => read_digits base (base * acc + d) (S count) rest
      | None => (acc, count, s)
      end
  | EmptyString => (acc, count, s)
  end.

Definition starts_with (p s : string) : option string :=
  if String.prefix p s
  then Some (String.substring (String.length p)
                              (String.length s - String.length p) s)
  else None.

(** An exponent part, when [s] starts with one: its value and what
    follows. *)
Definition read_exponent (s : string) : option (Z * string) :=
  match s with
  | String c rest =>
      if ((byte c =? 101) || (byte c =? 69))%N then
        let '(neg, rest1) :=
          match rest with
          | String sg r => if (byte sg =? 45)%N then (true, r)
                           else if (byte sg =? 43)%N then (false, r)
                           else (false, rest)
          | EmptyString => (false, rest)
          end in
        let '(v, count, rest2) := read_digits 10 0 0 rest1 in
        match count with
        | O => None
        | S _ => Some (if neg then (- Z.of_N v)%Z else Z.of_N v, rest2)
        end
      else None
  | EmptyString => None
  end.

(** The literal [s] starts with, as a number, and what follows it. *)
Definition read_literal (s : string) : option (number * string) :=
  let radix (prefix1 prefix2 : string) (base : N) :=
    match starts_with prefix1 s, starts_with prefix2 s with
    | Some rest, _ | None, Some rest =>
        let '(v, count, rest') := read_digits base 0 0 rest in
        match count with
        | O => None
        | S _ => Some (nearest false v 1, rest')
        end
    | None, None => None
    end in
  match radix "0x" "0X" 16%N with
  | Some r => Some r
  | None =>
  match radix "0o" "0O" 8%N with
  | Some r => Some r
  | None =>
  match radix "0b" "0B" 2%N with
  | Some r => Some r
  | None =>
      let '(neg, s1) :=
        match s with
        | String sg r => if (byte sg =? 45)%N then (true, r)
                         else if (byte sg =? 43)%N then (false, r)
                         else (false, s)
        | EmptyString => (false, s)
        end in
      match starts_with "Infinity" s1 with
      | Some rest => Some (Infinity neg, rest)
      | None =>
          let '(whole, n1, s2) := read_digits 10 0 0 s1 in
          let '(mant, n2, s3) :=
            match s2 with
            | String dot r =>
                if (byte dot =? 46)%N then
                  let '(m, n, r') := read_digits 10 whole 0 r in (m, n, r')
                else (whole, O, s2)
            | EmptyString => (whole, O, s2)
            end in
          match (n1 + n2)%nat with
          | O => None
          | S _ =>
              let '(ex, s4) :=
                match read_exponent s3 with
                | Some (v, r) => (v, r)
                | None => (0%Z, s3)
                end in
              let e10 := (ex - Z.of_nat n2)%Z in
              let x := if (0 <=? e10)%Z
                       then nearest neg (mant * 10 ^ Z.to_N e10) 1
                       else nearest neg mant (10 ^ Z.to_N (- e10)) in
              Some (x, s4)
          end
      end
  end end end.

(** [Number(s)]; [None] is NaN. *)
Definition Number_of_string (s : string) : option number :=
  let s1 := skip_space s in
  if (s1 =? "")%string then Some (Double false 0 0) else
  match read_literal s1 with
  | Some (x, rest) =>
      if (skip_space rest =? "")%string then Some x else None
  | None => None
  end.

End Js.

(** ** The document store *)

Module Mongo.
Import Js.

(** An ObjectId is a 96-bit number; clients write it as 24 hexadecimal
    digits. *)
Definition ObjectId := N.

Record doc (F : Type) : Type := mkDoc {
  _id : ObjectId;
  lastUpdated : Z;          (* schema default: Date.now *)
  fields : F
}.
Arguments mkDoc {F} _ _ _.
Arguments _id {F} _.
Arguments lastUpdated {F} _.
Arguments fields {F} _.

Definition hex_digit (c : ascii) : option N :=
  let n := N_of_ascii c in
  if ((48 <=? n) && (n <=? 57))%N then Some (n - 48)%N
  else if ((97 <=? n) && (n <=? 102))%N then Some (n - 87)%N
  else if ((65 <=? n) && (n <=? 70))%N then Some (n - 55)%N
  else None.

Fixpoint parse_hex (acc : N) (s : string) : option N :=
  match s with
  | EmptyString => Some acc
  | String c s' =>
      match hex_digit c with
      | Some d => parse_hex (16 * acc + d)%N s'
      | None => None
      end
  end.

(** Cast of a request parameter to an ObjectId, as the current driver does
    it: a string of 24 hexadecimal digits, anything else is refused.
    (Older drivers also took a string of 12 bytes.) *)
Definition castObjectId (s : string) : option ObjectId :=
  if (String.length s =? 24)%nat then parse_hex 0%N s else None.

Definition hex_char (d : N) : ascii :=
  if (d <? 10)%N then ascii_of_N (48 + d) else ascii_of_N (87 + d).

Fixpoint hex_digits (n : nat) (o : N) (acc : string) : string :=
  match n with
  | O => acc
  | S n' => hex_digits n' (o / 16)%N (String (hex_char (o mod 16)%N) acc)
  end.

(** [id.toHexString()], the form in which [res.json] sends an [_id]: 24
    lower-case hexadecimal digits. *)
Definition toHexString (o : ObjectId) : string := hex_digits 24 o EmptyString.

Definition quoted (s : string) : string :=
  let q := String (ascii_of_nat 34) EmptyString in q ++ s ++ q.

(** *** Casts of the schema types *)

(** Cast to a String path; [None] when the value is refused.  Nothing
    stays nothing, a number or a boolean is stored as its text, an object
    stands for a document when it has a non-empty string [_id] and is
    refused otherwise, an array is refused. *)
Definition castString (v : value) : option value :=
  match v with
  | VUndefined | VNull | VStr _ => Some v
  | VBool b => Some (VStr (if b then "true" else "false"))
  | VNum n => Some (VStr (number_text n))
  | VArr _ => None
  | VObj fields =>
      match assoc "_id" fields with
      | VStr s => if s =? "" then None else Some (VStr s)
      | _ => None
      end
  end.

(** What a Number path holds: nothing, [null], or a double. *)
Inductive numeric : Type :=
| NoNumber
| NullNumber
| Num (x : number).

Definition castNumber_primitive (v : value) : option numeric :=
  match v with
  | VUndefined => Some NoNumber
  | VNull => Some NullNumber
  | VBool b => Some (Num (number_of_Z (if b then 1 else 0)))
  | VNum n => Some (Num (number_of_Z n))
  | VStr s =>
      if s =? "" then Some NullNumber
      else option_map Num (Number_of_string s)
  | VArr _ | VObj _ => None
  end.

(** Cast to a Number path; [None] when the value is refused.  A string
    is read as [Number] reads it and refused when that gives NaN, the
    empty string gives [null], an object is taken for its [_id] when it
    has one, any other object and any array is refused. *)
Definition castNumber (v : value) : option numeric :=
  match v with
  | VObj fields =>
      match assoc "_id" fields with
      | VUndefined => None
      | id => castNumber_primitive id
      end
  | _ => castNumber_primitive v
  end.

(** A path whose value is refused invalidates the document.  The message
    is given up to the name of the model: the mapper goes on with the
    paths and the values refused. *)
Definition cast_path {A} (model : string) (cast : option A) : completion A :=
  match cast with
  | Some a => Normal a
  | None => Throw (ValidationError (model ++ " validation failed"))
  end.

Section Collection.
Context {F : Type}.

(** [Model.deleteMany({})] *)
Definition deleteMany (coll : list (doc F)) : list (doc F) := [].

Fixpoint fresh_docs (now : Z) (next : ObjectId) (l : list F)
  : list (doc F) :=
  match l with
  | [] => []
  | f :: l' => mkDoc next now f :: fresh_docs now (N.succ next) l'
  end.

(** [Model.insertMany(l)]: the objects of [l] are cast to the schema
    first, and when a single one is refused the call throws and nothing is
    written; otherwise every document receives a fresh [_id] and the
    default [lastUpdated]. *)
Definition insertMany {L : Type} (schema : L -> completion F) (now : Z)
    (next : ObjectId) (l : list L) (coll : list (doc F))
  : completion (list (doc F) * ObjectId) :=
  docs <- mapM schema l ;;
  Normal (coll ++ fresh_docs now next docs,
          (next + N.of_nat (List.length docs))%N).

(** [Model.findById(id)] *)
Definition findById (model : string) (id : string) (coll : list (doc F))
  : completion (option (doc F)) :=
  match castObjectId id with
  | None =>
      Throw (CastError ("Cast to ObjectId failed for value " ++ quoted id
                        ++ " (type string) at path " ++ quoted "_id"
                        ++ " for model " ++ quoted model))
  | Some o => Normal (List.find (fun d => (_id d =? o)%N) coll)
  end.

Fixpoint insert_sorted (le : doc F -> doc F -> bool) (d : doc F)
    (l : list (doc F)) : list (doc F) :=
  match l with
  | [] => [d]
  | x :: l' => if le d x then d :: l else x :: insert_sorted le d l'
  end.

(** [.sort(...)], by the order [le] on documents. *)
Fixpoint sort (le : doc F -> doc F -> bool) (l : list (doc F))
  : list (doc F) :=
  match l with
  | [] => []
  | x :: l' => insert_sorted le x (sort le l')
  end.

(** [.limit(n)] *)
Definition limit (n : nat) (l : list (doc F)) : list (doc F) := firstn n l.

Fixpoint remove_at (i : nat) (l : list (doc F)) : list (doc F) :=
  match l, i with
  | [], _ => []
  | _ :: l', O => l'
  | x :: l', S i' => x :: remove_at i' l'
  end.

(** [{ $sample: { size } }]: [size] documents drawn without replacement,
    the draws being given by [rng]. *)
Fixpoint sample (rng : list nat) (size : nat) (pool : list (doc F))
  : list (doc F) :=
  match size, pool with
  | O, _ => []
  | _, [] => []
  | S size', d0 :: _ =>
      let i := (hd 0%nat rng) mod (List.length pool) in
      nth i pool d0 :: sample (tl rng) size' (remove_at i pool)
  end.

End Collection.

(** Sort order of field values: [undefined] and [null] first, then
    numbers, strings, objects, arrays, booleans.  Inside the object and
    the array bracket the order is not refined. *)
Definition bracket (v : value) : nat :=
  match v with
  | VUndefined | VNull => 1
  | VNum _ => 2
  | VStr _ => 3
  | VObj _ => 4
  | VArr _ => 5
  | VBool _ => 8
  end.

Definition bson_leb (a b : value) : bool :=
  match a, b with
  | VNum x, VNum y => (x <=? y)%Z
  | VStr x, VStr y =>
      match String.compare x y with Gt => false | _ => true end
  | VBool x, VBool y => implb x y
  | _, _ => (bracket a <=? bracket b)%nat
  end.

(** A compiled case-insensitive pattern tests a string; a pattern the
    server cannot compile has none. *)
Definition regex_engine := string -> option (string -> bool).

Definition regex_test (m : string -> bool) (v : value) : bool :=
  match v with
  | VStr s => m s
  | _ => false
  end.

End Mongo.

(** ** Schemas (playerSchema, teamSchema, gameSchema) and the store *)

Module Player.
Record t : Type := mk {
  apiPlayerId : Js.value;
  name : Js.value;
  displayName : Js.value;
  shortName : Js.value;
  team : Js.value;
  teamId : Js.value;
  position : Js.value;
  jersey : Js.value;
  image : Js.value;
  imageUrl : Js.value;
  points : Z;
  assists : Z;
  rebounds : Z
}.
End Player.

Module Team.
Record t : Type := mk {
  apiTeamId : Js.value;
  name : Js.value;
  shortName : Js.value;
  abbrev : Js.value;
  logo : Js.value;
  logoDark : Js.value;
  href : Js.value;
  conference : Js.value;
  division : Js.value;
  wins : Z;
  losses : Z
}.
End Team.

Module Game.
(** [new Date(v)], kept with its argument. *)
Inductive js_date : Type := NewDate (v : Js.value).

(** A team snapshot and a game, with the score as [S] has it: a value in
    the object handed to [insertMany], a number in the stored document. *)
Record side_of (S : Type) : Type := mkSide {
  id : Js.value;
  name : Js.value;
  abbrev : Js.value;
  logo : Js.value;
  score : S
}.
Arguments mkSide {S} _ _ _ _ _.
Arguments id {S} _.
Arguments name {S} _.
Arguments abbrev {S} _.
Arguments logo {S} _.
Arguments score {S} _.

Record t_of (S : Type) : Type := mk {
  apiGameId : Js.value;
  date : js_date;
  dateFormatted : Js.value;
  status : Js.value;
  homeTeam : side_of S;
  awayTeam : side_of S;
  venue : Js.value
}.
Arguments mk {S} _ _ _ _ _ _ _.
Arguments apiGameId {S} _.
Arguments date {S} _.
Arguments dateFormatted {S} _.
Arguments status {S} _.
Arguments homeTeam {S} _.
Arguments awayTeam {S} _.
Arguments venue {S} _.

Definition literal : Type := t_of Js.value.
Definition side : Type := side_of Mongo.numeric.
Definition t : Type := t_of Mongo.numeric.
End Game.

(** [playerSchema]: ten String paths and three Number paths, which the
    route always gives as 0. *)
Definition playerSchema (p : Player.t) : Js.completion Player.t :=
  let text v := Mongo.cast_path "Player" (Mongo.castString v) in
  Js.bind (text (Player.apiPlayerId p)) (fun apiPlayerId =>
  Js.bind (text (Player.name p)) (fun name =>
  Js.bind (text (Player.displayName p)) (fun displayName =>
  Js.bind (text (Player.shortName p)) (fun shortName =>
  Js.bind (text (Player.team p)) (fun team =>
  Js.bind (text (Player.teamId p)) (fun teamId =>
  Js.bind (text (Player.position p)) (fun position =>
  Js.bind (text (Player.jersey p)) (fun jersey =>
  Js.bind (text (Player.image p)) (fun image =>
  Js.bind (text (Player.imageUrl p)) (fun imageUrl =>
  Js.Normal (Player.mk apiPlayerId name displayName shortName team teamId
               position jersey image imageUrl (Player.points p)
               (Player.assists p) (Player.rebounds p)))))))))))).

(** [teamSchema]: nine String paths and two Number paths, which the
    route always gives as 0. *)
Definition teamSchema (t : Team.t) : Js.completion Team.t :=
  let text v := Mongo.cast_path "Team" (Mongo.castString v) in
  Js.bind (text (Team.apiTeamId t)) (fun apiTeamId =>
  Js.bind (text (Team.name t)) (fun name =>
  Js.bind (text (Team.shortName t)) (fun shortName =>
  Js.bind (text (Team.abbrev t)) (fun abbrev =>
  Js.bind (text (Team.logo t)) (fun logo =>
  Js.bind (text (Team.logoDark t)) (fun logoDark =>
  Js.bind (text (Team.href t)) (fun href =>
  Js.bind (text (Team.conference t)) (fun conference =>
  Js.bind (text (Team.division t)) (fun division =>
  Js.Normal (Team.mk apiTeamId name shortName abbrev logo logoDark href
               conference division (Team.wins t) (Team.losses t))))))))))).

Section GameSchema.

(** [new Date(v).getTime()] as the runtime computes it; [None] for an
    Invalid Date. *)
Variable time_value : Js.value -> option Z.

(** Cast to a Date path: an Invalid Date is refused. *)
Definition castDate (d : Game.js_date) : option Game.js_date :=
  match d with
  | Game.NewDate v =>
      match time_value v with
      | Some _ => Some d
      | None => None
      end
  end.

Definition sideSchema (sd : Game.side_of Js.value)
  : Js.completion Game.side :=
  let text v := Mongo.cast_path "Game" (Mongo.castString v) in
  Js.bind (text (Game.id sd)) (fun id =>
  Js.bind (text (Game.name sd)) (fun name =>
  Js.bind (text (Game.abbrev sd)) (fun abbrev =>
  Js.bind (text (Game.logo sd)) (fun logo =>
  Js.bind (Mongo.cast_path "Game" (Mongo.castNumber (Game.score sd)))
    (fun score =>
  Js.Normal (Game.mkSide id name abbrev logo score)))))).

(** [gameSchema]: String paths, the Date path [date], and the two nested
    team snapshots with their Number path [score]. *)
Definition gameSchema (g : Game.literal) : Js.completion Game.t :=
  let text v := Mongo.cast_path "Game" (Mongo.castString v) in
  Js.bind (text (Game.apiGameId g)) (fun apiGameId =>
  Js.bind (Mongo.cast_path "Game" (castDate (Game.date g))) (fun date =>
  Js.bind (text (Game.dateFormatted g)) (fun dateFormatted =>
  Js.bind (text (Game.status g)) (fun status =>
  Js.bind (sideSchema (Game.homeTeam g)) (fun homeTeam =>
  Js.bind (sideSchema (Game.awayTeam g)) (fun awayTeam =>
  Js.bind (text (Game.venue g)) (fun venue =>
  Js.Normal (Game.mk apiGameId date dateFormatted status homeTeam awayTeam
               venue)))))))).

End GameSchema.

Record Store : Type := mkStore {
  players : list (Mongo.doc Player.t);
  teams : list (Mongo.doc Team.t);
  games : list (Mongo.doc Game.t);
  next_id : Mongo.ObjectId
}.

(** ** Response envelopes *)

Inductive payload (D : Type) : Type :=
| One (d : D)
| Many (l : list D).
Arguments One {D} d.
Arguments Many {D} l.

Record response (D : Type) : Type := mkResponse {
  status : nat;
  success : bool;
  message : option string;
  count : option nat;
  data : option (payload D);
  error : option string;
  breakdown : option (list (string * nat))
}.
Arguments mkResponse {D} _ _ _ _ _ _ _.
Arguments status {D} _.
Arguments success {D} _.
Arguments message {D} _.
Arguments count {D} _.
Arguments data {D} _.
Arguments error {D} _.
Arguments breakdown {D} _.

(** [res.json({ success: true, count: l.length, data: l })] *)
Definition json_list {D} (l : list D) : response D :=
  mkResponse 200 true None (Some (List.length l)) (Some (Many l)) None None.

(** [res.json({ success: true, data: d })] *)
Definition json_one {D} (d : D) : response D :=
  mkResponse 200 true None None (Some (One d)) None None.

(** [res.status(404).json({ success: false, message })] *)
Definition not_found {D} (msg : string) : response D :=
  mkResponse 404 false (Some msg) None None None None.

(** [res.status(code).json({ success: false, message, error: e.message })] *)
Definition failure {D} (code : nat) (msg : string) (e : Js.exn) : response D :=
  mkResponse code false (Some msg) None None (Some (Js.message e)) None.

(** ** Query routes *)

Module Routes.
Import Js Mongo.

Section Query.

(** The server's engine for [$regex] with [$options: 'i']. *)
Variable regex : regex_engine.

(** [new Date(v).getTime()] as the runtime computes it; [None] for an
    Invalid Date. *)
Variable time_value : value -> option Z.

Definition time_leb (a b : Game.js_date) : bool :=
  match a, b with
  | Game.NewDate x, Game.NewDate y =>
      match time_value x, time_value y with
      | None, _ => true
      | Some _, None => false
      | Some tx, Some ty => (tx <=? ty)%Z
      end
  end.

Definition player_name (d : doc Player.t) := Player.name (fields d).
Definition team_name (d : doc Team.t) := Team.name (fields d).
Definition game_date (d : doc Game.t) := Game.date (fields d).

(** GET /api/players *)
Definition get_players (s : Store) : response (doc Player.t) :=
  json_list (sort (fun a b => bson_leb (player_name a) (player_name b))
                  (players s)).

(** GET /api/players/:id *)
Definition get_player_by_id (id : string) (s : Store)
  : response (doc Player.t) :=
  match findById "Player" id (players s) with
  | Normal None => not_found "Player not found"
  | Normal (Some player) => json_one player
  | Throw e => failure 500 "Error fetching player" e
  end.

Definition name_matches (m : string -> bool) (d : doc Player.t) : bool :=
  regex_test m (Player.name (fields d))
  || regex_test m (Player.displayName (fields d)).

(** GET /api/players/search/:name *)
Definition search_players (name : string) (s : Store)
  : response (doc Player.t) :=
  match regex name with
  | Some m => json_list (limit 10 (filter (name_matches m) (players s)))
  | None =>
      (* the server completes the message with the compiler's diagnostic *)
      failure 500 "Error searching players"
        (MongoServerError "Regular expression is invalid")
  end.

(** GET /api/players/top/10 *)
Definition top_players (s : Store) : response (doc Player.t) :=
  json_list
    (limit 10
       (sort (fun a b => (Player.points (fields b)
                          <=? Player.points (fields a))%Z)
             (players s))).

(** GET /api/teams *)
Definition get_teams (s : Store) : response (doc Team.t) :=
  json_list (sort (fun a b => bson_leb (team_name a) (team_name b))
                  (teams s)).

(** GET /api/teams/:id *)
Definition get_team_by_id (id : string) (s : Store)
  : response (doc Team.t) :=
  match findById "Team" id (teams s) with
  | Normal None => not_found "Team not found"
  | Normal (Some team) => json_one team
  | Throw e => failure 500 "Error fetching team" e
  end.

(** GET /api/teams/random/10 *)
Definition random_teams (rng : list nat) (s : Store)
  : response (doc Team.t) :=
  json_list (sample rng 10 (teams s)).

(** GET /api/games *)
Definition get_games (s : Store) : response (doc Game.t) :=
  json_list (sort (fun a b => time_leb (game_date b) (game_date a))
                  (games s)).

(** GET /api/games/latest *)
Definition latest_games (s : Store) : response (doc Game.t) :=
  json_list
    (limit 10 (sort (fun a b => time_leb (game_date b) (game_date a))
                    (games s))).

Definition on_date (date : string) (d : doc Game.t) : bool :=
  match Game.dateFormatted (fields d) with
  | VStr f => f =? date
  | _ => false
  end.

(** GET /api/games/date/:date *)
Definition games_by_date (date : string) (s : Store)
  : response (doc Game.t) :=
  json_list (sort (fun a b => time_leb (game_date a) (game_date b))
                  (filter (on_date date) (games s))).

End Query.

(** *** Case-insensitive literal search, and an engine for the patterns
        made of ordinary characters and [.] *)






Fixpoint all_chars (p : ascii -> bool) (s : string) : bool :=
  match s with
  | EmptyString => true
  | String c s' => p c && all_chars p s'
  end.






End Routes.

(** ** The upstream client and the populate routes *)

Module Admin.
Import Js Mongo.

(** What [rapidApiAxios.get] settles with: a rejection carrying the
    error's message, or a response with its parsed body. *)
Inductive axios_result : Type :=
| Rejected (message : string)
| Response (data : value).

Record Env : Type := mkEnv {
  upstream : string -> axios_result;
  toISOString : string;     (* new Date().toISOString() *)
  now : Z                   (* Date.now() *)
}.

Definition is_string (s : string) (v : value) : bool :=
  match v with
  | VStr s' => s' =? s
  | _ => false
  end.

Definition fetchFromRapidAPI (env : Env) (endpoint : string)
  : completion value :=
  match upstream env endpoint with
  | Rejected m => Throw (Error m)
  | Response data =>
      if truthy data then
        status <- get data "status" ;;
        if is_string "success" status then get data "response"
        else Throw (Error "Invalid API response")
      else Throw (Error "Invalid API response")
  end.

(** What a populate route leaves behind: the envelope sent, the store, and
    the upstream paths it requested, in order. *)
Record outcome (D : Type) : Type := mkOutcome {
  reply : response D;
  store : Store;
  requests : list string
}.
Arguments mkOutcome {D} _ _ _.
Arguments reply {D} _.
Arguments store {D} _.
Arguments requests {D} _.

Definition set_players (s : Store) (c : list (doc Player.t)) (n : ObjectId) :=
  mkStore c (teams s) (games s) n.
Definition set_teams (s : Store) (c : list (doc Team.t)) (n : ObjectId) :=
  mkStore (players s) c (games s) n.
Definition set_games (s : Store) (c : list (doc Game.t)) (n : ObjectId) :=
  mkStore (players s) (teams s) c n.

(** [res.json({ success: true, message, count })], with the breakdown for
    teams. *)
Definition populated {D} (msg : string) (n : nat)
    (b : option (list (string * nat))) : response D :=
  mkResponse 200 true (Some msg) (Some n) None None b.

Definition is_zero (v : value) : bool :=
  match v with
  | VNum n => (n =? 0)%Z
  | _ => false
  end.

(** [!list || list.length === 0] *)
Definition none_listed (list : value) : completion bool :=
  if truthy list then len <- get list "length" ;; Normal (is_zero len)
  else Normal true.

(** *** POST /api/admin/populate-teams *)

Record division : Type := mkDivision {
  name : string;
  endpoint : string;
  conference : string
}.

Definition divisions : list division :=
  [ mkDivision "Atlantic" "/nba-atlantic-team-list" "East";
    mkDivision "Central" "/nba-central-team-list" "East";
    mkDivision "Southeast" "/nba-southeast-team-list" "East";
    mkDivision "Northwest" "/nba-northwest-team-list" "West";
    mkDivision "Pacific" "/nba-pacific-team-list" "West";
    mkDivision "Southwest" "/nba-southwest-team-list" "West" ].

(** [{ ...team, divisionName: division.name,
       conferenceName: division.conference }] *)
Definition with_division (d : division) (team : value) : value :=
  spread_with team
    [("divisionName", VStr (name d)); ("conferenceName", VStr (conference d))].

(** The teams one turn of the loop pushes on [allTeams].  Nothing is
    pushed when the fetch throws, when the payload is [undefined] or
    [null] (the read of [teamList] throws), or when [teamList] is falsy or
    empty.  A [teamList] that is no array pushes nothing either: when the
    guard lets it through, [teamList.map] is not a function.  The throws
    are caught by the turn's own [catch]. *)
Definition pushed (env : Env) (d : division) : list value :=
  match fetchFromRapidAPI env (endpoint d) with
  | Throw _ => []
  | Normal data =>
      match get data "teamList" with
      | Throw _ => []
      | Normal (VArr elems) =>
          if (0 <? List.length elems)%nat
          then List.map (with_division d) elems
          else []
      | Normal _ => []
      end
  end.

Definition allTeams (env : Env) : list value :=
  fold_left (fun all d => all ++ pushed env d) divisions [].

Definition team_to_insert (team : value) : completion Team.t :=
  id <- get team "id" ;;
  nm <- get team "name" ;;
  shortName <- get team "shortName" ;;
  abbrev <- get team "abbrev" ;;
  logo <- get team "logo" ;;
  logoDark <- get team "logoDark" ;;
  href <- get team "href" ;;
  conferenceName <- get team "conferenceName" ;;
  divisionName <- get team "divisionName" ;;
  Normal (Team.mk id nm shortName abbrev logo logoDark href
            conferenceName divisionName 0 0).

(** [allTeams.filter(t => t.divisionName === name).length] *)
Definition count_division (all : list value) (nm : string) : nat :=
  List.length
    (filter (fun t => match get t "divisionName" with
                      | Normal v => is_string nm v
                      | Throw _ => false
                      end) all).

Definition breakdown_of (all : list value) : list (string * nat) :=
  List.map (fun nm => (nm, count_division all nm))
    ["Atlantic"; "Central"; "Southeast"; "Northwest"; "Pacific"; "Southwest"].

Definition populate_teams (env : Env) (s : Store) : outcome (doc Team.t) :=
  let all := allTeams env in
  let reqs := List.map endpoint divisions in
  if (List.length all =? 0)%nat then
    mkOutcome (not_found "No teams found in API response") s reqs
  else
    let s1 := set_teams s (deleteMany (teams s)) (next_id s) in
    let fail e := mkOutcome (failure 500 "Error populating teams" e) s1 reqs in
    match mapM team_to_insert all with
    | Throw e => fail e
    | Normal teamsToInsert =>
        match insertMany teamSchema (now env) (next_id s1) teamsToInsert
                         (teams s1) with
        | Throw e => fail e
        | Normal (coll, next) =>
            let n := List.length teamsToInsert in
            mkOutcome
              (populated ("Successfully populated " ++ string_of_nat n
                          ++ " teams from all 6 divisions") n
                         (Some (breakdown_of all)))
              (set_teams s1 coll next) reqs
        end
    end.

(** *** POST /api/admin/populate-players *)

Definition player_to_insert (player : value) : completion Player.t :=
  id <- get player "id" ;;
  nm <- get player "name" ;;
  displayName <- get player "displayName" ;;
  shortName <- get player "shortName" ;;
  team <- get player "team" ;;
  teamName <- get_opt team "name" ;;
  teamId <- get_opt team "id" ;;
  position <- get player "position" ;;
  jersey <- get player "jersey" ;;
  image <- get player "image" ;;
  headshot <- get player "headshot" ;;
  Normal (Player.mk id (or_else nm displayName) displayName shortName
            (or_else teamName (VStr "Free Agent")) teamId position jersey
            image headshot 0 0 0).

(** The route from the point where [data] is bound. *)
Definition players_from (env : Env) (s : Store) (reqs : list string)
    (data : value) : outcome (doc Player.t) :=
  let fail s' e :=
    mkOutcome (failure 500 "Error populating players" e) s' reqs in
  match get data "playerList" with
  | Throw e => fail s e
  | Normal playerList =>
      match none_listed playerList with
      | Throw e => fail s e
      | Normal true =>
          mkOutcome (not_found "No players found in API response") s reqs
      | Normal false =>
          let s1 := set_players s (deleteMany (players s)) (next_id s) in
          match array_map "data.playerList" playerList player_to_insert with
          | Throw e => fail s1 e
          | Normal playersToInsert =>
              match insertMany playerSchema (now env) (next_id s1)
                               playersToInsert (players s1) with
              | Throw e => fail s1 e
              | Normal (coll, next) =>
                  let n := List.length playersToInsert in
                  mkOutcome
                    (populated ("Successfully populated " ++ string_of_nat n
                                ++ " players") n None)
                    (set_players s1 coll next) reqs
              end
          end
      end
  end.

Definition populate_players (env : Env) (s : Store)
  : outcome (doc Player.t) :=
  match fetchFromRapidAPI env "/players" with
  | Normal data => players_from env s ["/players"] data
  | Throw e1 =>
      match fetchFromRapidAPI env "/nba/players" with
      | Normal data => players_from env s ["/players"; "/nba/players"] data
      | Throw e2 =>
          mkOutcome
            (failure 404
               "Players endpoint not found. Check API documentation." e2)
            s ["/players"; "/nba/players"]
      end
  end.

(** *** POST /api/admin/populate-games *)

(** [iso.split('T')[0]] *)
Fixpoint before_T (iso : string) : string :=
  match iso with
  | EmptyString => EmptyString
  | String c rest =>
      if (c =? "T")%char then EmptyString else String c (before_T rest)
  end.

Definition side_to_insert (team : value)
  : completion (Game.side_of value) :=
  id <- get_opt team "id" ;;
  nm <- get_opt team "name" ;;
  abbrev <- get_opt team "abbrev" ;;
  logo <- get_opt team "logo" ;;
  score <- get_opt team "score" ;;
  Normal (Game.mkSide id nm abbrev logo (or_else score (VNum 0))).

Definition game_to_insert (game : value) : completion Game.literal :=
  id <- get game "id" ;;
  date <- get game "date" ;;
  dateFormatted <- get game "dateFormatted" ;;
  status <- get game "status" ;;
  home <- get game "homeTeam" ;;
  homeTeam <- side_to_insert home ;;
  away <- get game "awayTeam" ;;
  awayTeam <- side_to_insert away ;;
  venue <- get game "venue" ;;
  Normal (Game.mk id (Game.NewDate date) dateFormatted status
            homeTeam awayTeam venue).

Section Games.

(** [new Date(v).getTime()] as the runtime computes it; [None] for an
    Invalid Date, which the Date path of the schema refuses. *)
Variable time_value : value -> option Z.

(** The route from the point where [data] is bound. *)
Definition games_from (env : Env) (s : Store) (reqs : list string)
    (data : value) : outcome (doc Game.t) :=
  let fail s' e :=
    mkOutcome (failure 500 "Error populating games" e) s' reqs in
  match get data "gameList" with
  | Throw e => fail s e
  | Normal gameList =>
      match none_listed gameList with
      | Throw e => fail s e
      | Normal true => mkOutcome (populated "No games found" 0 None) s reqs
      | Normal false =>
          let s1 := set_games s (deleteMany (games s)) (next_id s) in
          match array_map "data.gameList" gameList game_to_insert with
          | Throw e => fail s1 e
          | Normal gamesToInsert =>
              match insertMany (gameSchema time_value) (now env) (next_id s1)
                               gamesToInsert (games s1) with
              | Throw e => fail s1 e
              | Normal (coll, next) =>
                  let n := List.length gamesToInsert in
                  mkOutcome
                    (populated ("Successfully populated " ++ string_of_nat n
                                ++ " games") n None)
                    (set_games s1 coll next) reqs
              end
          end
      end
  end.

Definition dated_endpoint (env : Env) : string :=
  "/games?date=" ++ before_T (toISOString env).

Definition populate_games (env : Env) (s : Store) : outcome (doc Game.t) :=
  match fetchFromRapidAPI env "/games" with
  | Normal data => games_from env s ["/games"] data
  | Throw e1 =>
      match fetchFromRapidAPI env "/schedule" with
      | Normal data => games_from env s ["/games"; "/schedule"] data
      | Throw e2 =>
          let tried := ["/games"; "/schedule"; dated_endpoint env] in
          match fetchFromRapidAPI env (dated_endpoint env) with
          | Normal data => games_from env s tried data
          | Throw e3 =>
              mkOutcome
                (failure 404
                   "Games endpoint not found. Check API documentation." e3)
                s tried
          end
      end
  end.

End Games.

(** *** GET /api/admin/test-api/:endpoint *)

Definition test_api (env : Env) (endpoint : string) : response value :=
  match fetchFromRapidAPI env ("/" ++ endpoint) with
  | Normal data => json_one data
  | Throw e => failure 500 "Error testing API" e
  end.

End Admin.

(** * Vocabulary of the statements *)

Import Js Mongo Routes Admin.

(** A successful envelope carries a list and counts it. *)
Definition counts_its_data {D} (r : response D) : Prop :=
  success r = true ->
  exists l, data r = Some (Many l) /\ count r = Some (List.length l).

(** Some fetch of the games chain succeeded with payload [data]. *)
Definition games_answered (env : Env) (data : value) : Prop :=
  fetchFromRapidAPI env "/games" = Normal data
  \/ (exists e1, fetchFromRapidAPI env "/games" = Throw e1
      /\ fetchFromRapidAPI env "/schedule" = Normal data)
  \/ (exists e1 e2, fetchFromRapidAPI env "/games" = Throw e1
      /\ fetchFromRapidAPI env "/schedule" = Throw e2
      /\ fetchFromRapidAPI env (dated_endpoint env) = Normal data).

(** A list that is missing ([undefined], [null] or otherwise falsy) or has
    length zero. *)
Definition empty_or_missing (list : value) : Prop :=
  truthy list = false \/ get list "length" = Normal (VNum 0).


(** Some fetch of the players chain succeeded with payload [data]. *)
Definition players_answered (env : Env) (data : value) : Prop :=
  fetchFromRapidAPI env "/players" = Normal data
  \/ (exists e1, fetchFromRapidAPI env "/players" = Throw e1
      /\ fetchFromRapidAPI env "/nba/players" = Normal data).

(** The stored player [d] is the normal form of the upstream record [up]:
    the name is the upstream name when that is truthy and the display name
    otherwise, the team is the upstream team name when that is truthy and
    'Free Agent' otherwise, both as a String path stores them; the three
    statistics are zero. *)
Definition normalized (up : value) (d : doc Player.t) : Prop :=
  exists nm dn tm tn,
    get up "name" = Normal nm
    /\ get up "displayName" = Normal dn
    /\ get up "team" = Normal tm
    /\ get_opt tm "name" = Normal tn
    /\ castString (if truthy nm then nm else dn)
       = Some (Player.name (fields d))
    /\ castString (if truthy tn then tn else VStr "Free Agent")
       = Some (Player.team (fields d))
    /\ Player.points (fields d) = 0%Z
    /\ Player.assists (fields d) = 0%Z
    /\ Player.rebounds (fields d) = 0%Z.

(** The team list a division's endpoint serves: empty when the fetch
    fails, when the payload has no array under [teamList]. *)
Definition listed (env : Env) (d : division) : list value :=
  match fetchFromRapidAPI env (endpoint d) with
  | Normal data =>
      match get data "teamList" with
      | Normal (VArr elems) => elems
      | _ => []
      end
  | Throw _ => []
  end.

(** Own property [k] of an upstream record, [undefined] when it has
    none. *)
Definition prop (t : value) (k : string) : value := assoc k (own_fields t).

(** The object populate teams hands to [insertMany] for the upstream team
    [t] of division [d]. *)
Definition team_of (d : division) (t : value) : Team.t :=
  Team.mk (prop t "id") (prop t "name") (prop t "shortName")
    (prop t "abbrev") (prop t "logo") (prop t "logoDark") (prop t "href")
    (VStr (conference d)) (VStr (name d)) 0 0.

(** The objects populate teams builds, division after division. *)
Definition team_records (env : Env) : list Team.t :=
  flat_map (fun d => List.map (team_of d) (listed env d)) divisions.

(** A String path takes the value. *)
Definition takes_text (v : value) : bool :=
  match castString v with Some _ => true | None => false end.

(** A Number path takes the value. *)
Definition takes_number (v : value) : bool :=
  match castNumber v with Some _ => true | None => false end.

(** The team schema takes the upstream team [t]: each of the seven fields
    read from it can be stored on a String path. *)
Definition team_accepted (t : value) : bool :=
  forallb (fun k => takes_text (prop t k))
    ["id"; "name"; "shortName"; "abbrev"; "logo"; "logoDark"; "href"].

(** The stored record carries the division and the conference of [d]. *)
Definition tagged (d : division) (r : Team.t) : Prop :=
  Team.division r = VStr (name d) /\ Team.conference r = VStr (conference d).

(** The stored team [r] is the normal form of the upstream team [t] of
    division [d]: the seven fields of [t] as a String path stores them, the
    division and the conference of [d], no win and no loss. *)
Definition team_stored (d : division) (t : value) (r : Team.t) : Prop :=
  castString (prop t "id") = Some (Team.apiTeamId r)
  /\ castString (prop t "name") = Some (Team.name r)
  /\ castString (prop t "shortName") = Some (Team.shortName r)
  /\ castString (prop t "abbrev") = Some (Team.abbrev r)
  /\ castString (prop t "logo") = Some (Team.logo r)
  /\ castString (prop t "logoDark") = Some (Team.logoDark r)
  /\ castString (prop t "href") = Some (Team.href r)
  /\ tagged d r
  /\ Team.wins r = 0%Z
  /\ Team.losses r = 0%Z.

(** The upstream teams of the divisions [ds], each with its division, in
    the order of [ds], [L] giving the list of a division. *)
Definition teams_of (L : division -> list value) (ds : list division)
  : list (division * value) :=
  flat_map (fun d => List.map (pair d) (L d)) ds.

(** The document [doc] stores the upstream team [dt]. *)
Definition stores_team (dt : division * value) (doc : doc Team.t) : Prop :=
  team_stored (fst dt) (snd dt) (fields doc).

Definition total (b : list (string * nat)) : nat :=
  list_sum (List.map snd b).

(** The endpoint of division [d] answers with the team list [ts]. *)
Definition serves (env : Env) (d : division) (ts : list value) : Prop :=
  exists data,
    fetchFromRapidAPI env (endpoint d) = Normal data
    /\ get data "teamList" = Normal (VArr ts).

(** The fetch of the endpoint of division [d] fails. *)
Definition unreachable (env : Env) (d : division) : Prop :=
  exists e, fetchFromRapidAPI env (endpoint d) = Throw e.

(** What is left of the objects [l] handed to [insertMany]: the documents
    cast by [schema], or nothing when one of them is refused. *)
Definition inserted {L F} (schema : L -> completion F) (l : list L)
  : list F :=
  match mapM schema l with
  | Normal docs => docs
  | Throw _ => []
  end.

(** What a populate route does to its collection, as far as the upstream
    decides it: [None] when the collection is left alone, [Some l] when it
    is replaced by documents for the records [l]. *)
Definition players_change_from (data : value) : option (list Player.t) :=
  match get data "playerList" with
  | Throw _ => None
  | Normal playerList =>
      match none_listed playerList with
      | Throw _ | Normal true => None
      | Normal false =>
          match array_map "data.playerList" playerList player_to_insert with
          | Throw _ => Some []
          | Normal l => Some (inserted playerSchema l)
          end
      end
  end.

Definition players_change (env : Env) : option (list Player.t) :=
  match fetchFromRapidAPI env "/players" with
  | Normal data => players_change_from data
  | Throw _ =>
      match fetchFromRapidAPI env "/nba/players" with
      | Normal data => players_change_from data
      | Throw _ => None
      end
  end.

Definition games_change_from (time_value : value -> option Z) (data : value)
  : option (list Game.t) :=
  match get data "gameList" with
  | Throw _ => None
  | Normal gameList =>
      match none_listed gameList with
      | Throw _ | Normal true => None
      | Normal false =>
          match array_map "data.gameList" gameList game_to_insert with
          | Throw _ => Some []
          | Normal l => Some (inserted (gameSchema time_value) l)
          end
      end
  end.

Definition games_change (time_value : value -> option Z) (env : Env)
  : option (list Game.t) :=
  match fetchFromRapidAPI env "/games" with
  | Normal data => games_change_from time_value data
  | Throw _ =>
      match fetchFromRapidAPI env "/schedule" with
      | Normal data => games_change_from time_value data
      | Throw _ =>
          match fetchFromRapidAPI env (dated_endpoint env) with
          | Normal data => games_change_from time_value data
          | Throw _ => None
          end
      end
  end.

Definition teams_change (env : Env) : option (list Team.t) :=
  if (List.length (team_records env) =? 0)%nat then None
  else Some (inserted teamSchema (team_records env)).

(** The records of [after] are those of [before], or the ones of the
    change. *)
Definition changed {F} (change : option (list F))
    (before after : list (doc F)) : Prop :=
  List.map fields after
  = match change with
    | None => List.map fields before
    | Some l => l
    end.

(** Store invariant: inside a collection the ids are pairwise distinct,
    and every id handed out is below the next one. *)
Definition wf_coll {F} (next : ObjectId) (coll : list (doc F)) : Prop :=
  NoDup (List.map _id coll) /\ Forall (fun d => (_id d < next)%N) coll.

Definition wf_store (s : Store) : Prop :=
  wf_coll (next_id s) (players s)
  /\ wf_coll (next_id s) (teams s)
  /\ wf_coll (next_id s) (games s).

(** The documents follow one another in the order [le]. *)
Definition in_order {F} (le : doc F -> doc F -> bool) (l : list (doc F))
  : Prop :=
  Sorted (fun a b => le a b = true) l.

(** Order of the values of a String path: nothing first, then the strings
    in byte order. *)
Definition text_leb (a b : value) : bool :=
  match a, b with
  | VStr x, VStr y => String.leb x y
  | VStr _, _ => false
  | _, _ => true
  end.

Definition by_name_players (a b : doc Player.t) : bool :=
  text_leb (Player.name (fields a)) (Player.name (fields b)).

Definition by_name_teams (a b : doc Team.t) : bool :=
  text_leb (Team.name (fields a)) (Team.name (fields b)).

(** [a] has at least the points of [b]. *)
Definition more_points (a b : doc Player.t) : bool :=
  (Player.points (fields b) <=? Player.points (fields a))%Z.

(** [a] is not earlier than [b]. *)
Definition not_earlier (time_value : value -> option Z)
    (a b : doc Game.t) : bool :=
  time_leb time_value (Game.date (fields b)) (Game.date (fields a)).

(** [a] is not later than [b]. *)
Definition not_later (time_value : value -> option Z)
    (a b : doc Game.t) : bool :=
  time_leb time_value (Game.date (fields a)) (Game.date (fields b)).

(** The ids an ObjectId can hold: 96 bits. *)
Definition fits_ObjectId (o : ObjectId) : Prop := (o < 2 ^ 96)%N.

(** A value on which a property can be read: neither [undefined] nor
    [null]. *)
Definition readable (v : value) : Prop := v <> VUndefined /\ v <> VNull.

(** A list the populate routes cannot map: something that is no array, or
    an array holding [undefined] or [null]. *)
Definition unmappable (list : value) : Prop :=
  match list with
  | VArr elems => Exists (fun v => ~ readable v) elems
  | _ => True
  end.

(** [v?.k] as a value. *)
Definition read (v : value) (k : string) : value :=
  match get_opt v k with
  | Normal r => r
  | Throw _ => VUndefined
  end.

(** The values populate players puts on the String paths of the record it
    builds from [up]. *)
Definition player_texts (up : value) : list value :=
  [ read up "id";
    or_else (read up "name") (read up "displayName");
    read up "displayName";
    read up "shortName";
    or_else (read (read up "team") "name") (VStr "Free Agent");
    read (read up "team") "id";
    read up "position";
    read up "jersey";
    read up "image";
    read up "headshot" ].

(** An upstream player populate players can store: a value its fields can
    be read from, each String path taking what is read. *)
Definition player_storable (up : value) : Prop :=
  readable up /\ forallb takes_text (player_texts up) = true.

(** The values populate games puts on the String paths of the record it
    builds from [up], and on the two Number paths. *)
Definition game_texts (up : value) : list value :=
  [ read up "id"; read up "dateFormatted"; read up "status";
    read (read up "homeTeam") "id"; read (read up "homeTeam") "name";
    read (read up "homeTeam") "abbrev"; read (read up "homeTeam") "logo";
    read (read up "awayTeam") "id"; read (read up "awayTeam") "name";
    read (read up "awayTeam") "abbrev"; read (read up "awayTeam") "logo";
    read up "venue" ].

Definition game_scores (up : value) : list value :=
  [ or_else (read (read up "homeTeam") "score") (VNum 0);
    or_else (read (read up "awayTeam") "score") (VNum 0) ].

(** An upstream game populate games can store: a value its fields can be
    read from, with a date that is no Invalid Date, each String path and
    each Number path taking what is read. *)
Definition game_storable (time_value : value -> option Z) (up : value)
  : Prop :=
  readable up
  /\ time_value (read up "date") <> None
  /\ forallb takes_text (game_texts up) = true
  /\ forallb takes_number (game_scores up) = true.

(** The object populate players hands to [insertMany] for the upstream
    record [up]. *)
Definition player_of (up : value) : Player.t :=
  Player.mk (read up "id")
    (or_else (read up "name") (read up "displayName"))
    (read up "displayName") (read up "shortName")
    (or_else (read (read up "team") "name") (VStr "Free Agent"))
    (read (read up "team") "id") (read up "position") (read up "jersey")
    (read up "image") (read up "headshot") 0 0 0.

(** The objects populate games hands to [insertMany]: for a team of a
    game, and for the upstream game [up]. *)
Definition side_of_team (team : value) : Game.side_of value :=
  Game.mkSide (read team "id") (read team "name") (read team "abbrev")
    (read team "logo") (or_else (read team "score") (VNum 0)).

Definition game_of (up : value) : Game.literal :=
  Game.mk (read up "id") (Game.NewDate (read up "date"))
    (read up "dateFormatted") (read up "status")
    (side_of_team (read up "homeTeam")) (side_of_team (read up "awayTeam"))
    (read up "venue").

(** The snapshot [sd] is the normal form of the upstream team [team] of a
    game: its fields are those of [team] as a String path stores them,
    nothing when [team] is missing, and the score is the upstream score as
    a Number path stores it, 0 when the upstream score is falsy. *)
Definition side_normalized (team : value) (sd : Game.side) : Prop :=
  castString (read team "id") = Some (Game.id sd)
  /\ castString (read team "name") = Some (Game.name sd)
  /\ castString (read team "abbrev") = Some (Game.abbrev sd)
  /\ castString (read team "logo") = Some (Game.logo sd)
  /\ castNumber (if truthy (read team "score") then read team "score"
                 else VNum 0)
     = Some (Game.score sd).

(** The stored game [d] is the normal form of the upstream game [up]. *)
Definition game_normalized (time_value : value -> option Z) (up : value)
    (d : doc Game.t) : Prop :=
  readable up
  /\ castString (read up "id") = Some (Game.apiGameId (fields d))
  /\ Game.date (fields d) = Game.NewDate (read up "date")
  /\ time_value (read up "date") <> None
  /\ castString (read up "dateFormatted")
     = Some (Game.dateFormatted (fields d))
  /\ castString (read up "status") = Some (Game.status (fields d))
  /\ castString (read up "venue") = Some (Game.venue (fields d))
  /\ side_normalized (read up "homeTeam") (Game.homeTeam (fields d))
  /\ side_normalized (read up "awayTeam") (Game.awayTeam (fields d)).

(** Number of the records whose division is the string [nm]. *)
Definition count_stored (nm : string) (l : list (doc Team.t)) : nat :=
  List.length
    (filter (fun t => is_string nm (Team.division (fields t))) l).


Definition no_T (s : string) : bool :=
  all_chars (fun c => negb (c =? "T")%char) s.

(** A value a String path of a schema holds: a string, or nothing. *)
Definition is_text (v : value) : Prop :=
  match v with
  | VStr _ | VUndefined | VNull => True
  | _ => False
  end.

Definition text_named_players (s : Store) : Prop :=
  Forall (fun d => is_text (Player.name (fields d))
                   /\ is_text (Player.displayName (fields d))) (players s).

Definition text_named_teams (s : Store) : Prop :=
  Forall (fun d => is_text (Team.name (fields d))) (teams s).

Definition text_dated_games (s : Store) : Prop :=
  Forall (fun d => is_text (Game.dateFormatted (fields d))) (games s).




(** * Fixtures *)

Module Fixture.

Definition lebron : Player.t :=
  Player.mk (VStr "1966") (VStr "LeBron James") (VStr "LeBron James")
    (VStr "L. James") (VStr "Los Angeles Lakers") (VStr "13") (VStr "F")
    (VStr "23") VUndefined VUndefined 0 0 0.

Definition celtics : Team.t :=
  Team.mk (VStr "2") (VStr "Boston Celtics") (VStr "Celtics") (VStr "BOS")
    VUndefined VUndefined VUndefined (VStr "East") (VStr "Atlantic") 0 0.

(** One player under id 0x2a, one team under id 0x2b. *)
Definition small_store : Store :=
  mkStore [mkDoc 42%N 1700000000000%Z lebron]
          [mkDoc 43%N 1700000000000%Z celtics] [] 44%N.

(** An upstream whose every path is rejected. *)
Definition down : Env :=
  mkEnv (fun _ => Rejected "Request failed with status code 404")
        "2024-03-09T18:45:10.123Z" 1710009910123%Z.

(** '/games' is rejected and '/schedule' answers with an empty list. *)
Definition no_games : Env :=
  mkEnv (fun path =>
           if path =? "/schedule"
           then Response (VObj [("status", VStr "success");
                                ("response", VObj [("gameList", VArr [])])])
           else Rejected "Request failed with status code 404")
        "2024-03-09T18:45:10.123Z" 1710009910123%Z.

(** The time value of the dates of the examples: of a number, of [null],
    of a boolean, and of the ISO timestamps that occur in them; any other
    string of the examples is an Invalid Date. *)
Definition clock (v : value) : option Z :=
  match v with
  | VNum n => if (Z.abs n <=? 8640000000000000)%Z then Some n else None
  | VNull => Some 0%Z
  | VBool b => Some (if b then 1 else 0)%Z
  | VStr s =>
      if s =? "2024-03-08T23:00:00Z" then Some 1709938800000%Z
      else if s =? "2024-03-09T19:30:00Z" then Some 1710012600000%Z
      else if s =? "2024-03-10T01:00:00Z" then Some 1710032400000%Z
      else None
  | VUndefined | VArr _ | VObj _ => None
  end.

Definition player (id nm : string) (points : Z) : Player.t :=
  Player.mk (VStr id) (VStr nm) (VStr nm) VUndefined (VStr "Free Agent")
    VUndefined VUndefined VUndefined VUndefined VUndefined points 0 0.

Definition team (id nm : string) : Team.t :=
  Team.mk (VStr id) (VStr nm) VUndefined VUndefined VUndefined VUndefined
    VUndefined (VStr "West") (VStr "Pacific") 0 0.

Definition nobody : Game.side :=
  Game.mkSide VUndefined VUndefined VUndefined VUndefined
    (Num (Double false 0 0)).

Definition game (id iso day : string) : Game.t :=
  Game.mk (VStr id) (Game.NewDate (VStr iso)) (VStr day) (VStr "Final")
    nobody nobody VUndefined.

(** Three players, three teams and three games, none of the collections
    in the order of a list route. *)
Definition league : Store :=
  mkStore
    [ mkDoc 1%N 1700000000000%Z (player "3975" "Stephen Curry" 26);
      mkDoc 2%N 1700000000000%Z (player "1966" "LeBron James" 25);
      mkDoc 3%N 1700000000000%Z (player "3032977" "Giannis Antetokounmpo" 30) ]
    [ mkDoc 4%N 1700000000000%Z (team "13" "Los Angeles Lakers");
      mkDoc 5%N 1700000000000%Z (team "9" "Golden State Warriors");
      mkDoc 6%N 1700000000000%Z (team "12" "LA Clippers") ]
    [ mkDoc 7%N 1700000000000%Z
        (game "g3" "2024-03-10T01:00:00Z" "2024-03-09");
      mkDoc 8%N 1700000000000%Z
        (game "g1" "2024-03-08T23:00:00Z" "2024-03-08");
      mkDoc 9%N 1700000000000%Z
        (game "g2" "2024-03-09T19:30:00Z" "2024-03-09") ]
    10%N.

End Fixture.

Module PlayerFixture.

Definition empty_store : Store := mkStore [] [] [] 0%N.

Definition answer (response : value) : axios_result :=
  Response (VObj [("status", VStr "success"); ("response", response)]).

(** A record whose name and whose team name are empty strings. *)
Definition blank : value :=
  VObj [("id", VStr "1966"); ("name", VStr "");
        ("displayName", VStr "LeBron James");
        ("team", VObj [("id", VStr "13"); ("name", VStr "")])].

Definition named : value :=
  VObj [("id", VStr "1966"); ("name", VStr "LeBron James");
        ("displayName", VStr "LeBron"); ("team", VNull)].

(** A record whose id, team id and jersey are numbers, and whose name is
    missing. *)
Definition numbered : value :=
  VObj [("id", VNum 3975); ("displayName", VStr "Stephen Curry");
        ("team", VObj [("id", VNum 9); ("name", VStr "Warriors")]);
        ("jersey", VNum 30)].

(** A record whose name is an object. *)
Definition odd : value :=
  VObj [("id", VStr "7"); ("name", VObj [("first", VStr "LeBron")])].

Definition serving (l : list value) : Env :=
  mkEnv (fun path =>
           if path =? "/players" then answer (VObj [("playerList", VArr l)])
           else Rejected "Request failed with status code 404")
        "2024-03-09T18:45:10.123Z" 1710009910123%Z.

(** Populate players on an empty store, the upstream serving [blank]. *)
Definition blank_run : outcome (doc Player.t) :=
  populate_players (serving [blank]) empty_store.

(** Populate players on the league, the upstream serving [named] and
    [numbered]. *)
Definition two : Env := serving [named; numbered].

Definition two_run : outcome (doc Player.t) :=
  populate_players two Fixture.league.

End PlayerFixture.

Module TeamFixture.

Definition team (id nm : string) : value :=
  VObj [("id", VStr id); ("name", VStr nm)].

(** Each division's endpoint serves the list [lists] gives for its path,
    and is rejected when there is none. *)
Definition serving (lists : string -> option (list value)) : Env :=
  mkEnv (fun path =>
           match lists path with
           | Some l => PlayerFixture.answer (VObj [("teamList", VArr l)])
           | None => Rejected "Request failed with status code 429"
           end)
        "2024-03-09T18:45:10.123Z" 1710009910123%Z.

(** A team whose id is a number. *)
Definition numbered (id : Z) (nm : string) : value :=
  VObj [("id", VNum id); ("name", VStr nm)].

(** One team per division, with the id 7 and the path of the division as
    name, the Pacific endpoint being rejected. *)
Definition pacific_down (path : string) : option (list value) :=
  if path =? "/nba-pacific-team-list" then None
  else Some [numbered 7 path].

Definition is_pacific (d : division) : bool := name d =? "Pacific".

Definition pacific_down_run : outcome (doc Team.t) :=
  populate_teams (serving pacific_down) Fixture.small_store.

(** Every endpoint answers with an empty team list. *)
Definition no_team : Env := serving (fun _ => Some []).

Definition no_team_run : outcome (doc Team.t) :=
  populate_teams no_team Fixture.small_store.

(** A team whose id is a number and whose name is an object. *)
Definition odd_team : value :=
  VObj [("id", VNum 7); ("name", VObj [("full", VStr "Boston Celtics")])].

(** One team per division, the team of the Atlantic division being
    [odd_team]. *)
Definition one_odd (path : string) : option (list value) :=
  if path =? "/nba-atlantic-team-list" then Some [odd_team]
  else Some [team path "A team"].

Definition one_odd_run : outcome (doc Team.t) :=
  populate_teams (serving one_odd) Fixture.league.

(** A team whose id is a number and whose short name is a boolean. *)
Definition numbered_team : value :=
  VObj [("id", VNum 7); ("name", VStr "Boston Celtics");
        ("shortName", VBool true)].

(** Only the Atlantic endpoint lists a team, [numbered_team]. *)
Definition atlantic_only (path : string) : option (list value) :=
  if path =? "/nba-atlantic-team-list" then Some [numbered_team]
  else Some [].

Definition atlantic_only_run : outcome (doc Team.t) :=
  populate_teams (serving atlantic_only) Fixture.league.

End TeamFixture.

Module ClockFixture.

Definition at_time (iso : string) (t : Z) (env : Env) : Env :=
  mkEnv (upstream env) iso t.

Definition first_run : Env := PlayerFixture.serving [PlayerFixture.named].
Definition second_run : Env :=
  at_time "2024-03-09T18:45:11.123Z" 1710009911123%Z first_run.

Definition after_first : Store :=
  store (populate_players first_run PlayerFixture.empty_store).
Definition after_second : Store :=
  store (populate_players second_run after_first).

End ClockFixture.

Module GameFixture.

Definition game (id : string) : value :=
  VObj [("id", VStr id); ("date", VStr "2024-03-09T19:30:00Z");
        ("dateFormatted", VStr "2024-03-09"); ("status", VStr "Final");
        ("homeTeam", VObj [("id", VStr "13"); ("name", VStr "Lakers");
                           ("score", VNum 101)]);
        ("awayTeam", VNull)].

(** A game whose id and whose home team id are numbers and whose scores
    are strings. *)
Definition texted : value :=
  VObj [("id", VNum 7); ("date", VStr "2024-03-10T01:00:00Z");
        ("dateFormatted", VStr "2024-03-09");
        ("homeTeam", VObj [("id", VNum 13); ("score", VStr "101")]);
        ("awayTeam", VObj [("id", VNum 2); ("score", VStr " 98.5 ")])].

(** A game without a date. *)
Definition undated : value :=
  VObj [("id", VStr "g9"); ("dateFormatted", VStr "2024-03-09")].

(** Only the dated path answers, with another list each day. *)
Definition by_day (path : string) : axios_result :=
  if path =? "/games?date=2024-03-09"
  then PlayerFixture.answer (VObj [("gameList", VArr [game "g1"])])
  else if path =? "/games?date=2024-03-10"
  then PlayerFixture.answer (VObj [("gameList", VArr [game "g2"])])
  else Rejected "Request failed with status code 404".

Definition saturday : Env :=
  mkEnv by_day "2024-03-09T23:59:59.000Z" 1710028799000%Z.
Definition sunday : Env :=
  mkEnv by_day "2024-03-10T00:00:01.000Z" 1710028801000%Z.

Definition after_saturday : Store :=
  store (populate_games Fixture.clock saturday PlayerFixture.empty_store).
Definition after_sunday : Store :=
  store (populate_games Fixture.clock sunday after_saturday).

(** '/games' answers with a success status and no payload. *)
Definition no_payload : Env :=
  mkEnv (fun _ => Response (VObj [("status", VStr "success")]))
        "2024-03-09T18:45:10.123Z" 1710009910123%Z.

(** '/games' answers with the list [l]. *)
Definition serving (l : list value) : Env :=
  mkEnv (fun path =>
           if path =? "/games" then
             PlayerFixture.answer (VObj [("gameList", VArr l)])
           else Rejected "Request failed with status code 404")
        "2024-03-09T18:45:10.123Z" 1710009910123%Z.

Definition two : Env := serving [game "g1"; texted].

Definition two_run : outcome (doc Game.t) :=
  populate_games Fixture.clock two Fixture.league.

End GameFixture.

Module TwelveTeams.

(** Every division serves two teams. *)
Definition env : Env :=
  TeamFixture.serving
    (fun path => Some [TeamFixture.team path "A"; TeamFixture.team path "B"]).

Definition run : outcome (doc Team.t) := populate_teams env Fixture.small_store.

End TwelveTeams.

Module NullFixture.

(** '/players' and '/games' answer with a list holding [null]. *)
Definition env : Env :=
  mkEnv (fun path =>
           PlayerFixture.answer
             (VObj [("playerList", VArr [PlayerFixture.named; VNull]);
                    ("gameList", VArr [VNull])]))
        "2024-03-09T18:45:10.123Z" 1710009910123%Z.

Definition payload : value :=
  VObj [("playerList", VArr [PlayerFixture.named; VNull]);
        ("gameList", VArr [VNull])].

(** '/players' answers with an empty list. *)
Definition nobody : Env := PlayerFixture.serving [].

End NullFixture.

Module WfFixture.

(** The store after populate players on the small store. *)
Definition after_players : Store :=
  store (populate_players (PlayerFixture.serving [PlayerFixture.named])
                          Fixture.small_store).

End WfFixture.

(** * Properties *)

(** ** Envelopes of the list routes *)

Lemma json_list_counts {D} (l : list D) : counts_its_data (json_list l).
Proof. intros _. exists l. split; reflexivity. Qed.

Lemma failure_counts {D} code msg e : counts_its_data (@failure D code msg e).
Proof. intros H. discriminate H. Qed.

(** C10. In every successful response of the list-shaped read routes (all
    players, all teams, all games, player search, top 10 players, 10
    random teams, latest games, games of a date) the [count] field is the
    length of the [data] array of the same envelope. *)
Theorem list_routes_count_is_length :
  forall (regex : regex_engine) (time_value : value -> option Z)
         (rng : list nat) (name date : string) (s : Store),
    counts_its_data (get_players s)
    /\ counts_its_data (get_teams s)
    /\ counts_its_data (get_games time_value s)
    /\ counts_its_data (search_players regex name s)
    /\ counts_its_data (top_players s)
    /\ counts_its_data (random_teams rng s)
    /\ counts_its_data (latest_games time_value s)
    /\ counts_its_data (games_by_date time_value date s).
Proof.
  intros regex time_value rng name date s.
  repeat split; try apply json_list_counts.
  unfold search_players.
  destruct (regex name); [apply json_list_counts | apply failure_counts].
Qed.

(** ** Get by id *)

Section GetById.
Context {F : Type}.

Lemma find_unique (coll : list (doc F)) (d : doc F) :
  NoDup (List.map _id coll) -> In d coll ->
  List.find (fun x => (_id x =? _id d)%N) coll = Some d.
Proof.
  induction coll as [|x coll IH]; intros Hnd Hin; [contradiction|].
  simpl in Hnd. inversion Hnd as [|? ? Hx Hnd']; subst.
  simpl. destruct Hin as [->|Hin].
  - now rewrite N.eqb_refl.
  - destruct (N.eqb_spec (_id x) (_id d)) as [E|_].
    + exfalso. apply Hx. rewrite E. now apply in_map.
    + now apply IH.
Qed.

Lemma find_absent (coll : list (doc F)) (o : ObjectId) :
  (forall d, In d coll -> _id d <> o) ->
  List.find (fun x => (_id x =? o)%N) coll = None.
Proof.
  induction coll as [|x coll IH]; intros H; [reflexivity|].
  simpl. destruct (N.eqb_spec (_id x) o) as [E|_].
  - exfalso. apply (H x); [now left | exact E].
  - apply IH. intros d Hd. apply H. now right.
Qed.

End GetById.

(** C8, as amended.  Get by id, for players and for teams, with the ids of
    a collection pairwise distinct: when the request id is a well-formed
    identifier (24 hexadecimal digits), the reply is the success envelope
    holding exactly the record stored under it if there is one, and the
    404 not-found envelope if there is none; when the request id is not
    well formed, the cast fails and the reply is a 500 failure envelope. *)
Theorem get_by_id_answers :
  forall (id : string) (s : Store),
    NoDup (List.map _id (players s)) ->
    NoDup (List.map _id (teams s)) ->
    match castObjectId id with
    | Some o =>
        (forall p, In p (players s) -> _id p = o ->
                   get_player_by_id id s = json_one p)
        /\ ((forall p, In p (players s) -> _id p <> o) ->
            get_player_by_id id s = not_found "Player not found")
        /\ (forall t, In t (teams s) -> _id t = o ->
                      get_team_by_id id s = json_one t)
        /\ ((forall t, In t (teams s) -> _id t <> o) ->
            get_team_by_id id s = not_found "Team not found")
    | None =>
        status (get_player_by_id id s) = 500
        /\ success (get_player_by_id id s) = false
        /\ status (get_team_by_id id s) = 500
        /\ success (get_team_by_id id s) = false
    end.
Proof.
  intros id s HP HT.
  unfold get_player_by_id, get_team_by_id, findById.
  destruct (castObjectId id) as [o|]; [|repeat split].
  repeat split.
  - intros p Hin <-. now rewrite (find_unique _ _ HP Hin).
  - intros Habs. now rewrite (find_absent _ _ Habs).
  - intros t Hin <-. now rewrite (find_unique _ _ HT Hin).
  - intros Habs. now rewrite (find_absent _ _ Habs).
Qed.

Lemma get_by_id_answers_witness :
  get_player_by_id "00000000000000000000002a" Fixture.small_store
    = json_one (mkDoc 42%N 1700000000000%Z Fixture.lebron)
  /\ get_team_by_id "00000000000000000000002A" Fixture.small_store
     = not_found "Team not found".
Proof.
  assert (HP : NoDup (List.map _id (players Fixture.small_store))).
  { simpl. constructor; [intros [] | constructor]. }
  assert (HT : NoDup (List.map _id (teams Fixture.small_store))).
  { simpl. constructor; [intros [] | constructor]. }
  split.
  - pose proof (get_by_id_answers "00000000000000000000002a"
                  Fixture.small_store HP HT) as H.
    simpl in H. destruct H as [H _].
    apply H; [now left | reflexivity].
  - pose proof (get_by_id_answers "00000000000000000000002A"
                  Fixture.small_store HP HT) as H.
    simpl in H. destruct H as (_ & _ & _ & H).
    apply H. intros t [<-|[]]. discriminate.
Defined.

(** C8 as stated fails: "abc" is the id of no stored player, and the reply
    is not the not-found envelope but a 500 failure. *)
Lemma get_by_id_malformed_id :
  (forall p, In p (players Fixture.small_store) ->
             castObjectId "abc" <> Some (_id p))
  /\ status (get_player_by_id "abc" Fixture.small_store) = 500
  /\ get_player_by_id "abc" Fixture.small_store
     <> not_found "Player not found".
Proof.
  split; [|split].
  - intros p _. discriminate.
  - reflexivity.
  - discriminate.
Qed.

(** ** Populate players and games: the fallback chains *)

(** C2. Populate players: when the fetch of '/players' and the fetch of
    the one fallback '/nba/players' both fail, the reply is the 404
    endpoint-not-found envelope carrying the message of the last error,
    exactly these two paths were requested, and the store is as it was. *)
Theorem populate_players_no_endpoint :
  forall (env : Env) (s : Store) (e1 e2 : exn),
    fetchFromRapidAPI env "/players" = Throw e1 ->
    fetchFromRapidAPI env "/nba/players" = Throw e2 ->
    populate_players env s
    = mkOutcome
        (mkResponse 404 false
           (Some "Players endpoint not found. Check API documentation.")
           None None (Some (Js.message e2)) None)
        s ["/players"; "/nba/players"].
Proof.
  intros env s e1 e2 H1 H2.
  unfold populate_players. now rewrite H1, H2.
Qed.

Lemma populate_players_no_endpoint_witness :
  populate_players Fixture.down Fixture.small_store
  = mkOutcome
      (mkResponse 404 false
         (Some "Players endpoint not found. Check API documentation.")
         None None (Some "Request failed with status code 404") None)
      Fixture.small_store ["/players"; "/nba/players"].
Proof.
  apply (populate_players_no_endpoint Fixture.down Fixture.small_store
           (Error "Request failed with status code 404")
           (Error "Request failed with status code 404"));
    reflexivity.
Defined.

(** ** Reading upstream records, mapping and casting *)

Lemma get_opt_read (v : value) (k : string) : get_opt v k = Normal (read v k).
Proof. destruct v; reflexivity. Qed.

Lemma get_read (v : value) (k : string) :
  readable v -> get v k = Normal (read v k).
Proof.
  intros [H1 H2]. destruct v; try contradiction; reflexivity.
Qed.

Lemma get_unreadable (v : value) (k : string) :
  ~ readable v -> exists e, get v k = Throw e.
Proof.
  intros H. destruct v; try (eexists; reflexivity);
    exfalso; apply H; split; discriminate.
Qed.

Lemma readable_dec (v : value) : readable v \/ ~ readable v.
Proof.
  destruct v; try (left; split; discriminate);
    right; intros [H1 H2]; contradiction.
Qed.

Lemma player_to_insert_readable (up : value) :
  readable up -> player_to_insert up = Normal (player_of up).
Proof.
  intros H. unfold player_to_insert.
  rewrite !(get_read up _ H). cbn [bind].
  rewrite !get_opt_read. reflexivity.
Qed.

Lemma side_to_insert_normal (team : value) :
  side_to_insert team = Normal (side_of_team team).
Proof. unfold side_to_insert. rewrite !get_opt_read. reflexivity. Qed.

Lemma game_to_insert_readable (up : value) :
  readable up -> game_to_insert up = Normal (game_of up).
Proof.
  intros H. unfold game_to_insert.
  rewrite !(get_read up _ H). cbn [bind].
  rewrite !side_to_insert_normal. reflexivity.
Qed.

Lemma player_to_insert_unreadable (up : value) :
  ~ readable up -> exists e, player_to_insert up = Throw e.
Proof.
  intros H. unfold player_to_insert.
  destruct (get_unreadable up "id" H) as [e ->]. now exists e.
Qed.

Lemma game_to_insert_unreadable (up : value) :
  ~ readable up -> exists e, game_to_insert up = Throw e.
Proof.
  intros H. unfold game_to_insert.
  destruct (get_unreadable up "id" H) as [e ->]. now exists e.
Qed.

Section MapM.
Context {A B : Type} (f : A -> completion B).

Lemma mapM_app (l1 l2 : list A) :
  mapM f (l1 ++ l2)
  = (r1 <- mapM f l1 ;; r2 <- mapM f l2 ;; Normal (r1 ++ r2)).
Proof.
  induction l1 as [|a l1 IH]; simpl.
  - now destruct (mapM f l2).
  - destruct (f a); simpl; [|reflexivity].
    rewrite IH. destruct (mapM f l1); simpl; [|reflexivity].
    now destruct (mapM f l2).
Qed.

(** A successful [mapM] maps every element, in order. *)
Lemma mapM_normal (l : list A) (bs : list B) :
  mapM f l = Normal bs <-> Forall2 (fun a b => f a = Normal b) l bs.
Proof.
  revert bs. induction l as [|a l IH]; intros bs; simpl.
  - split.
    + intros [= <-]. constructor.
    + intros H. inversion H. reflexivity.
  - split.
    + intros H. destruct (f a) as [b|] eqn:E; simpl in H; [|discriminate].
      destruct (mapM f l) as [bs'|]; simpl in H; [|discriminate].
      injection H as <-. constructor; [exact E | now apply IH].
    + intros H. inversion H as [|? b ? bs' Hab Hl]; subst.
      apply IH in Hl. now rewrite Hab, Hl.
Qed.

Lemma mapM_length (l : list A) (bs : list B) :
  mapM f l = Normal bs -> List.length bs = List.length l.
Proof.
  intros H. apply mapM_normal in H. symmetry. eapply Forall2_length, H.
Qed.

Variable ok : A -> Prop.
Hypothesis f_ok : forall a, ok a -> exists b, f a = Normal b.
Hypothesis f_ko : forall a, ~ ok a -> exists e, f a = Throw e.

Lemma mapM_all (l : list A) :
  Forall ok l ->
  exists bs, mapM f l = Normal bs /\ List.length bs = List.length l.
Proof.
  induction 1 as [|a l Ha _ IH]; [now exists []|].
  destruct (f_ok a Ha) as [b Hb]. destruct IH as (bs & Hbs & Hlen).
  exists (b :: bs). simpl. rewrite Hb, Hbs. simpl. now rewrite Hlen.
Qed.

Lemma mapM_some (l : list A) :
  Exists (fun a => ~ ok a) l -> exists e, mapM f l = Throw e.
Proof.
  induction 1 as [a l Ha|a l _ IH]; simpl.
  - destruct (f_ko a Ha) as [e ->]. now exists e.
  - destruct (f a); [|eexists; reflexivity].
    destruct IH as [e ->]. now exists e.
Qed.

Lemma mapM_normal_all (l : list A) (bs : list B) :
  (forall a, ok a \/ ~ ok a) ->
  mapM f l = Normal bs -> Forall ok l.
Proof.
  intros Hdec H. apply mapM_normal in H.
  induction H as [|a b l bs' Hab _ IH]; constructor; [|exact IH].
  destruct (Hdec a) as [Ha|Ha]; [exact Ha|].
  destruct (f_ko a Ha) as [e He]. congruence.
Qed.

End MapM.

Lemma mapM_map {A B C} (g : A -> B) (f : B -> completion C) (l : list A) :
  mapM f (List.map g l) = mapM (fun a => f (g a)) l.
Proof.
  induction l as [|a l IH]; [reflexivity|].
  simpl. now rewrite IH.
Qed.

Lemma mapM_ext_in {A B} (f g : A -> completion B) (l : list A) :
  (forall a, In a l -> f a = g a) -> mapM f l = mapM g l.
Proof.
  induction l as [|a l IH]; intros H; [reflexivity|].
  simpl. rewrite (H a) by now left.
  rewrite IH; [reflexivity|]. intros x Hx. apply H. now right.
Qed.

Lemma mapM_pure {A B} (g : A -> B) (l : list A) :
  mapM (fun a => Normal (g a)) l = Normal (List.map g l).
Proof.
  induction l as [|a l IH]; [reflexivity|].
  simpl. now rewrite IH.
Qed.

Lemma Forall2_Forall_r {A B} (R : A -> B -> Prop) (P : B -> Prop)
    (l : list A) (l' : list B) :
  (forall a b, In a l -> R a b -> P b) -> Forall2 R l l' -> Forall P l'.
Proof.
  intros H HF. induction HF as [|a b l l' Hab _ IH]; constructor.
  - apply (H a b); [now left | exact Hab].
  - apply IH. intros x y Hx. apply H. now right.
Qed.

(** Mapping the readable elements of a list. *)
Lemma mapM_readable {B} (f : value -> completion B) (g : value -> B)
    (l : list value) :
  (forall v, readable v -> f v = Normal (g v)) ->
  Forall readable l -> mapM f l = Normal (List.map g l).
Proof.
  intros Hf H. rewrite <- mapM_pure. apply mapM_ext_in.
  rewrite Forall_forall in H. intros v Hv. apply Hf, H, Hv.
Qed.

(** *** The schemas *)

Lemma cast_path_normal {A} model (c : option A) (a : A) :
  cast_path model c = Normal a <-> c = Some a.
Proof.
  destruct c; simpl; split; intros H; try discriminate; congruence.
Qed.

Lemma takes_text_cast (v : value) :
  takes_text v = true <-> exists s, castString v = Some s.
Proof.
  unfold takes_text. destruct (castString v) as [s|]; split;
    try discriminate; eauto.
  intros [s H]. discriminate.
Qed.

Lemma takes_number_cast (v : value) :
  takes_number v = true <-> exists x, castNumber v = Some x.
Proof.
  unfold takes_number. destruct (castNumber v) as [x|]; split;
    try discriminate; eauto.
  intros [x H]. discriminate.
Qed.

(** What a String path stores is a string or nothing. *)
Lemma castString_text (v s : value) : castString v = Some s -> is_text s.
Proof.
  destruct v as [| | | | | |fs]; simpl;
    try (intros [= <-]; exact I); try discriminate.
  destruct (assoc "_id" fs) as [| | | |id| |]; try discriminate.
  destruct (id =? ""); [discriminate | intros [= <-]; exact I].
Qed.

Ltac cast_step :=
  match goal with
  | H : context [cast_path _ (castString ?v)] |- _ =>
      let E := fresh "E" in
      destruct (castString v) eqn:E; cbn [cast_path bind] in H;
      [|discriminate H]
  | H : context [cast_path _ (castNumber ?v)] |- _ =>
      let E := fresh "E" in
      destruct (castNumber v) eqn:E; cbn [cast_path bind] in H;
      [|discriminate H]
  end.

Lemma playerSchema_normal (p r : Player.t) :
  playerSchema p = Normal r ->
  castString (Player.apiPlayerId p) = Some (Player.apiPlayerId r)
  /\ castString (Player.name p) = Some (Player.name r)
  /\ castString (Player.displayName p) = Some (Player.displayName r)
  /\ castString (Player.shortName p) = Some (Player.shortName r)
  /\ castString (Player.team p) = Some (Player.team r)
  /\ castString (Player.teamId p) = Some (Player.teamId r)
  /\ castString (Player.position p) = Some (Player.position r)
  /\ castString (Player.jersey p) = Some (Player.jersey r)
  /\ castString (Player.image p) = Some (Player.image r)
  /\ castString (Player.imageUrl p) = Some (Player.imageUrl r)
  /\ Player.points r = Player.points p
  /\ Player.assists r = Player.assists p
  /\ Player.rebounds r = Player.rebounds p.
Proof.
  unfold playerSchema. intros H. repeat cast_step.
  injection H as <-. cbn. repeat split; assumption.
Qed.

Lemma teamSchema_normal (t r : Team.t) :
  teamSchema t = Normal r ->
  castString (Team.apiTeamId t) = Some (Team.apiTeamId r)
  /\ castString (Team.name t) = Some (Team.name r)
  /\ castString (Team.shortName t) = Some (Team.shortName r)
  /\ castString (Team.abbrev t) = Some (Team.abbrev r)
  /\ castString (Team.logo t) = Some (Team.logo r)
  /\ castString (Team.logoDark t) = Some (Team.logoDark r)
  /\ castString (Team.href t) = Some (Team.href r)
  /\ castString (Team.conference t) = Some (Team.conference r)
  /\ castString (Team.division t) = Some (Team.division r)
  /\ Team.wins r = Team.wins t
  /\ Team.losses r = Team.losses t.
Proof.
  unfold teamSchema. intros H. repeat cast_step.
  injection H as <-. cbn. repeat split; assumption.
Qed.

Lemma sideSchema_normal (sd : Game.side_of value) (r : Game.side) :
  sideSchema sd = Normal r ->
  castString (Game.id sd) = Some (Game.id r)
  /\ castString (Game.name sd) = Some (Game.name r)
  /\ castString (Game.abbrev sd) = Some (Game.abbrev r)
  /\ castString (Game.logo sd) = Some (Game.logo r)
  /\ castNumber (Game.score sd) = Some (Game.score r).
Proof.
  unfold sideSchema. intros H. repeat cast_step.
  injection H as <-. cbn. repeat split; assumption.
Qed.

Lemma gameSchema_normal tv (g : Game.literal) (r : Game.t) :
  gameSchema tv g = Normal r ->
  castString (Game.apiGameId g) = Some (Game.apiGameId r)
  /\ castDate tv (Game.date g) = Some (Game.date r)
  /\ castString (Game.dateFormatted g) = Some (Game.dateFormatted r)
  /\ castString (Game.status g) = Some (Game.status r)
  /\ sideSchema (Game.homeTeam g) = Normal (Game.homeTeam r)
  /\ sideSchema (Game.awayTeam g) = Normal (Game.awayTeam r)
  /\ castString (Game.venue g) = Some (Game.venue r).
Proof.
  unfold gameSchema. intros H. cast_step.
  destruct (castDate tv (Game.date g)) as [dt|] eqn:Ed;
    cbn [cast_path bind] in H; [|discriminate H].
  do 2 cast_step.
  destruct (sideSchema (Game.homeTeam g)) as [h|] eqn:Eh;
    cbn [bind] in H; [|discriminate H].
  destruct (sideSchema (Game.awayTeam g)) as [a|] eqn:Ea;
    cbn [bind] in H; [|discriminate H].
  cast_step. injection H as <-. cbn. repeat split; assumption.
Qed.

Lemma castDate_some tv (d d' : Game.js_date) :
  castDate tv d = Some d' <->
  d' = d /\ match d with Game.NewDate v => tv v <> None end.
Proof.
  destruct d as [v]. unfold castDate.
  destruct (tv v); split.
  - intros [= <-]. split; [reflexivity | discriminate].
  - intros [-> _]. reflexivity.
  - discriminate.
  - intros [_ H]. now elim H.
Qed.

(** The schemas take exactly the objects whose every path takes its
    value. *)
Lemma playerSchema_takes (p : Player.t) :
  forallb takes_text
    [Player.apiPlayerId p; Player.name p; Player.displayName p;
     Player.shortName p; Player.team p; Player.teamId p; Player.position p;
     Player.jersey p; Player.image p; Player.imageUrl p] = true ->
  exists r, playerSchema p = Normal r.
Proof.
  cbn [forallb]. rewrite !andb_true_iff, !takes_text_cast.
  intros ([? E1] & [? E2] & [? E3] & [? E4] & [? E5] & [? E6] & [? E7]
          & [? E8] & [? E9] & [? E10] & _).
  unfold playerSchema.
  rewrite E1, E2, E3, E4, E5, E6, E7, E8, E9, E10. cbn. eauto.
Qed.

Lemma teamSchema_takes (t : Team.t) :
  forallb takes_text
    [Team.apiTeamId t; Team.name t; Team.shortName t; Team.abbrev t;
     Team.logo t; Team.logoDark t; Team.href t; Team.conference t;
     Team.division t] = true ->
  exists r, teamSchema t = Normal r.
Proof.
  cbn [forallb]. rewrite !andb_true_iff, !takes_text_cast.
  intros ([? E1] & [? E2] & [? E3] & [? E4] & [? E5] & [? E6] & [? E7]
          & [? E8] & [? E9] & _).
  unfold teamSchema.
  rewrite E1, E2, E3, E4, E5, E6, E7, E8, E9. cbn. eauto.
Qed.

Lemma teamSchema_refuses (t : Team.t) :
  forallb takes_text
    [Team.apiTeamId t; Team.name t; Team.shortName t; Team.abbrev t;
     Team.logo t; Team.logoDark t; Team.href t; Team.conference t;
     Team.division t] = false ->
  teamSchema t = Throw (ValidationError "Team validation failed").
Proof.
  cbn [forallb]. unfold takes_text, teamSchema.
  repeat (match goal with
          | |- context [cast_path _ (castString ?v)] =>
              destruct (castString v); cbn; [|reflexivity]
          end).
  discriminate.
Qed.

(** *** Fresh documents *)

Lemma fields_fresh_docs {F} now o (l : list F) :
  List.map fields (fresh_docs now o l) = l.
Proof.
  revert o. induction l as [|f l IH]; intros o; [reflexivity|].
  simpl. now rewrite IH.
Qed.

Lemma length_fresh_docs {F} now o (l : list F) :
  List.length (fresh_docs now o l) = List.length l.
Proof. now rewrite <- (length_map fields), fields_fresh_docs. Qed.

Lemma Forall_fresh_docs {F} (P : F -> Prop) now o (l : list F) :
  Forall P l -> Forall (fun d => P (fields d)) (fresh_docs now o l).
Proof.
  intros H. revert o. induction H; intros o'; simpl; constructor; auto.
Qed.

Lemma Forall2_fresh_docs {A F} (R : A -> F -> Prop) now o (l : list A)
    (docs : list F) :
  Forall2 R l docs ->
  Forall2 (fun a d => R a (fields d)) l (fresh_docs now o docs).
Proof.
  intros H. revert o. induction H; intros o'; simpl; constructor; auto.
Qed.

Lemma fresh_docs_ids {F} (now : Z) (l : list F) :
  forall (next : ObjectId) d, In d (fresh_docs now next l) ->
    lastUpdated d = now
    /\ (next <= _id d < next + N.of_nat (List.length l))%N.
Proof.
  induction l as [|f l IH]; intros next d Hd; [contradiction|].
  cbn [fresh_docs List.length] in *. destruct Hd as [<-|Hd].
  - simpl. split; [reflexivity | lia].
  - apply IH in Hd. split; [apply Hd | lia].
Qed.

(** [insertMany] into a cleared collection. *)
Lemma insertMany_cleared {L F} (schema : L -> completion F) now next
    (l : list L) :
  insertMany schema now next l []
  = match mapM schema l with
    | Normal docs =>
        Normal (fresh_docs now next docs,
                (next + N.of_nat (List.length l))%N)
    | Throw e => Throw e
    end.
Proof.
  unfold insertMany. destruct (mapM schema l) as [docs|e] eqn:E;
    [|reflexivity].
  cbn. now rewrite (mapM_length _ _ _ E).
Qed.

(** ** Populate games: the fallback chain *)

Lemma before_T_example : before_T "2024-03-09T18:45:10.123Z" = "2024-03-09".
Proof. reflexivity. Qed.

Lemma before_T_date (date rest : string) :
  no_T date = true -> before_T (date ++ String "T" rest) = date.
Proof.
  induction date as [|c date IH]; intros H; simpl.
  - reflexivity.
  - simpl in H. apply andb_prop in H as [Hc Hd].
    apply negb_true_iff in Hc. rewrite Hc. now rewrite IH.
Qed.

(** From the point where [data] is bound, the games route keeps the list
    of requests and answers 200 with a success or 500 with a failure. *)
Lemma games_from_status tv env s reqs data :
  requests (games_from tv env s reqs data) = reqs
  /\ ((status (reply (games_from tv env s reqs data)) = 200
       /\ success (reply (games_from tv env s reqs data)) = true)
      \/ (status (reply (games_from tv env s reqs data)) = 500
          /\ success (reply (games_from tv env s reqs data)) = false)).
Proof.
  unfold games_from.
  destruct (get data "gameList") as [gl|e]; [|split; [reflexivity|now right]].
  destruct (none_listed gl) as [[|]|e];
    try (split; [reflexivity|now right]);
    try (split; [reflexivity|now left]).
  destruct (array_map "data.gameList" gl game_to_insert) as [l|e];
    [|split; [reflexivity|now right]].
  destruct (insertMany _ _ _ _ _) as [[coll next]|e];
    (split; [reflexivity|]); [now left | now right].
Qed.

Lemma games_from_not_404 tv env s reqs data :
  status (reply (games_from tv env s reqs data)) <> 404.
Proof.
  destruct (games_from_status tv env s reqs data) as [_ [[H _]|[H _]]];
    rewrite H; discriminate.
Qed.

Lemma games_from_fails tv env s reqs data :
  success (reply (games_from tv env s reqs data)) = false ->
  status (reply (games_from tv env s reqs data)) = 500.
Proof.
  destruct (games_from_status tv env s reqs data) as [_ [[_ H]|[H _]]];
    [rewrite H; discriminate | intros _; exact H].
Qed.

(** C4, as amended.  Populate games requests '/games', then '/schedule',
    then '/games?date=' followed by the part of the current ISO timestamp
    before its 'T', which is the calendar date, and stops at the first
    fetch that succeeds.  The reply is the 404 endpoint-not-found envelope
    if and only if the three fetches fail; it then carries the message of
    the third error and the store is as it was.  A reply that is a failure
    has status 404 or 500, the latter after a fetch that succeeded. *)
Theorem populate_games_fallback_chain :
  forall (time_value : value -> option Z) (env : Env) (s : Store),
    let today := before_T (toISOString env) in
    let r1 := fetchFromRapidAPI env "/games" in
    let r2 := fetchFromRapidAPI env "/schedule" in
    let r3 := fetchFromRapidAPI env ("/games?date=" ++ today)%string in
    let o := populate_games time_value env s in
    requests o
    = match r1, r2 with
      | Normal _, _ => ["/games"]
      | Throw _, Normal _ => ["/games"; "/schedule"]
      | Throw _, Throw _ =>
          ["/games"; "/schedule"; ("/games?date=" ++ today)%string]
      end
    /\ (forall date rest,
          toISOString env = (date ++ String "T" rest)%string ->
          no_T date = true -> today = date)
    /\ (status (reply o) = 404 <->
        exists e1 e2 e3, r1 = Throw e1 /\ r2 = Throw e2 /\ r3 = Throw e3)
    /\ (forall e1 e2 e3, r1 = Throw e1 -> r2 = Throw e2 -> r3 = Throw e3 ->
        o = mkOutcome
              (mkResponse 404 false
                 (Some "Games endpoint not found. Check API documentation.")
                 None None (Some (Js.message e3)) None)
              s ["/games"; "/schedule"; ("/games?date=" ++ today)%string])
    /\ (success (reply o) = false ->
        status (reply o) = 404
        \/ (status (reply o) = 500
            /\ exists data, r1 = Normal data \/ r2 = Normal data
                            \/ r3 = Normal data)).
Proof.
  intros tv env s today r1 r2 r3 o.
  assert (Hday : forall date rest,
            toISOString env = (date ++ String "T" rest)%string ->
            no_T date = true -> today = date).
  { intros date rest Hiso HT. subst today. rewrite Hiso.
    now apply before_T_date. }
  subst o r1 r2 r3 today. unfold populate_games, dated_endpoint.
  destruct (fetchFromRapidAPI env "/games") as [d1|e1].
  { pose proof (games_from_status tv env s ["/games"] d1) as [Hr _].
    pose proof (games_from_not_404 tv env s ["/games"] d1) as Hs.
    split; [exact Hr|]. split; [exact Hday|]. split; [|split].
    - split; [intros H; contradiction|].
      intros (? & ? & ? & H & _); discriminate.
    - intros ? ? ? H; discriminate.
    - intros H. right. split; [now apply games_from_fails|].
      exists d1. now left. }
  destruct (fetchFromRapidAPI env "/schedule") as [d2|e2].
  { pose proof (games_from_status tv env s ["/games"; "/schedule"] d2)
      as [Hr _].
    pose proof (games_from_not_404 tv env s ["/games"; "/schedule"] d2)
      as Hs.
    split; [exact Hr|]. split; [exact Hday|]. split; [|split].
    - split; [intros H; contradiction
             | intros (? & ? & ? & _ & H & _); discriminate].
    - intros ? ? ? _ H; discriminate.
    - intros H. right. split; [now apply games_from_fails|].
      exists d2. right. now left. }
  destruct (fetchFromRapidAPI env
              ("/games?date=" ++ before_T (toISOString env))%string)
    as [d3|e3].
  { match goal with |- context [games_from tv env s ?l d3] =>
      pose proof (games_from_status tv env s l d3) as [Hr _];
      pose proof (games_from_not_404 tv env s l d3) as Hs;
      pose proof (games_from_fails tv env s l d3) as Hf
    end.
    split; [exact Hr|]. split; [exact Hday|]. split; [|split].
    - split; [intros H; contradiction
             | intros (? & ? & ? & _ & _ & H); discriminate].
    - intros ? ? ? _ _ H; discriminate.
    - intros H. right. split; [now apply Hf|].
      exists d3. right. now right. }
  split; [reflexivity|]. split; [exact Hday|]. split; [|split].
  - split; [intros _; now exists e1, e2, e3 | reflexivity].
  - intros ? ? ? _ _ H. now inversion H.
  - intros _. now left.
Qed.

(** On a Sunday, the first two fetches failing: the third path carries
    the date of that Sunday, and the route stops there. *)
Lemma populate_games_fallback_chain_witness :
  requests (populate_games Fixture.clock GameFixture.sunday
              PlayerFixture.empty_store)
  = ["/games"; "/schedule"; "/games?date=2024-03-10"]
  /\ before_T (toISOString GameFixture.sunday) = "2024-03-10"
  /\ status (reply (populate_games Fixture.clock GameFixture.sunday
                      PlayerFixture.empty_store)) = 200.
Proof.
  destruct (populate_games_fallback_chain Fixture.clock GameFixture.sunday
              PlayerFixture.empty_store) as (Hr & Hd & _).
  split; [exact Hr|]. split; [|reflexivity].
  exact (Hd "2024-03-10" "00:00:01.000Z" eq_refl eq_refl).
Defined.

(** C4 as stated fails: the first fetch succeeds, so not all three fail,
    and yet the operation fails, with the 500 envelope, the game list
    holding [null]; the Game collection has been cleared. *)
Lemma populate_games_fails_after_fetch :
  fetchFromRapidAPI NullFixture.env "/games" = Normal NullFixture.payload
  /\ populate_games Fixture.clock NullFixture.env Fixture.league
     = mkOutcome
         (mkResponse 500 false (Some "Error populating games") None None
            (Some "Cannot read properties of null (reading 'id')") None)
         (mkStore (players Fixture.league) (teams Fixture.league) [] 10%N)
         ["/games"]
  /\ List.length (games Fixture.league) = 3.
Proof. repeat split. Qed.

Lemma empty_or_missing_cases :
  empty_or_missing VUndefined /\ empty_or_missing VNull
  /\ empty_or_missing (VArr []).
Proof. split; [|split]; [now left | now left | now right]. Qed.

Lemma none_listed_empty list :
  empty_or_missing list -> none_listed list = Normal true.
Proof.
  unfold none_listed. intros [H|H].
  - now rewrite H.
  - rewrite H. simpl. now destruct (truthy list).
Qed.

(** C1, as amended.  Populate games, when a fetch of the chain succeeds:
    if the game list read from its payload is empty or missing, the reply
    is the success envelope with count 0; if there is no payload at all
    ([undefined] or [null]), so that the game list cannot even be read,
    the reply is the 500 failure envelope; in both cases the store, the
    Game collection included, is exactly as it was. *)
Theorem populate_games_nothing_listed :
  forall (time_value : value -> option Z) (env : Env) (s : Store)
         (data : value),
    games_answered env data ->
    let o := populate_games time_value env s in
    (forall gameList,
       get data "gameList" = Normal gameList ->
       empty_or_missing gameList ->
       reply o = mkResponse 200 true (Some "No games found") (Some 0)
                   None None None
       /\ store o = s)
    /\ (~ readable data ->
        (exists e, reply o = mkResponse 500 false
                               (Some "Error populating games") None None
                               (Some (Js.message e)) None)
        /\ store o = s).
Proof.
  intros tv env s data Hans o.
  assert (Hchain : forall r st,
    (forall reqs, reply (games_from tv env s reqs data) = r
                  /\ store (games_from tv env s reqs data) = st) ->
    reply o = r /\ store o = st).
  { intros r st Hfrom. subst o. unfold populate_games.
    destruct Hans as [H1 | [(e1 & H1 & H2) | (e1 & e2 & H1 & H2 & H3)]].
    - rewrite H1. apply Hfrom.
    - rewrite H1, H2. apply Hfrom.
    - rewrite H1, H2, H3. apply Hfrom. }
  split.
  - intros gl Hgl Hempty. apply Hchain. intros reqs. unfold games_from.
    rewrite Hgl, (none_listed_empty _ Hempty). now split.
  - intros Hun. destruct (get_unreadable data "gameList" Hun) as [e He].
    destruct (Hchain (failure 500 "Error populating games" e) s) as [Hr Hs].
    { intros reqs. unfold games_from. rewrite He. now split. }
    split; [now exists e | exact Hs].
Qed.

Lemma populate_games_nothing_listed_witness :
  (reply (populate_games Fixture.clock Fixture.no_games Fixture.league)
   = mkResponse 200 true (Some "No games found") (Some 0) None None None
   /\ store (populate_games Fixture.clock Fixture.no_games Fixture.league)
      = Fixture.league)
  /\ List.length (games Fixture.league) = 3.
Proof.
  split; [|reflexivity].
  apply (proj1 (populate_games_nothing_listed Fixture.clock Fixture.no_games
                  Fixture.league (VObj [("gameList", VArr [])])
                  (or_intror (or_introl
                     (ex_intro _ (Error "Request failed with status code 404")
                        (conj eq_refl eq_refl)))))
           (VArr [])).
  - reflexivity.
  - right. reflexivity.
Defined.

(** C1 as stated fails: '/games' answers with a success status and no
    payload, so the call succeeds and the game list is missing; the reply
    is not the success envelope with count 0 but the 500 failure.  (The
    Game collection is left as it was.) *)
Lemma populate_games_no_payload :
  fetchFromRapidAPI GameFixture.no_payload "/games" = Normal VUndefined
  /\ populate_games Fixture.clock GameFixture.no_payload Fixture.league
     = mkOutcome
         (mkResponse 500 false (Some "Error populating games") None None
            (Some "Cannot read properties of undefined (reading 'gameList')")
            None)
         Fixture.league ["/games"].
Proof. split; reflexivity. Qed.

(** ** Player search *)





Lemma Forall_firstn {A} (P : A -> Prop) (n : nat) (l : list A) :
  Forall P l -> Forall P (firstn n l).
Proof.
  revert l. induction n as [|n IH]; intros l H; [constructor|].
  destruct H; simpl; constructor; auto.
Qed.









(** ** Populate players *)

Lemma none_listed_something (list : value) :
  truthy list = true -> get list "length" <> Normal (VNum 0) ->
  none_listed list = Normal false.
Proof.
  intros Ht Hl. unfold none_listed. rewrite Ht.
  assert (H : exists v, get list "length" = Normal v)
    by (destruct list; try discriminate Ht; eexists; reflexivity).
  destruct H as [v Hv]. rewrite Hv in *. cbn [bind]. f_equal.
  destruct v as [| | |n| | |]; try reflexivity. simpl.
  destruct (Z.eqb_spec n 0) as [->|]; [now elim Hl | reflexivity].
Qed.

Lemma none_listed_array (ups : list value) :
  ups <> [] -> none_listed (VArr ups) = Normal false.
Proof. intros H. destruct ups; [contradiction | reflexivity]. Qed.

Lemma array_map_unmappable {B} path (list : value)
    (f : value -> completion B) :
  (forall v, ~ readable v -> exists e, f v = Throw e) ->
  unmappable list -> exists e, array_map path list f = Throw e.
Proof.
  intros Hf H. destruct list; try (eexists; reflexivity).
  simpl in H. simpl.
  apply (mapM_some f readable Hf). exact H.
Qed.

(** A list that is listed and mapped is an array without [undefined] and
    [null], and not empty. *)
Lemma listed_and_mapped {B} path (given : value)
    (f : value -> completion B) (l : list B) :
  (forall v, ~ readable v -> exists e, f v = Throw e) ->
  none_listed given = Normal false ->
  array_map path given f = Normal l ->
  exists ups, given = VArr ups /\ ups <> [] /\ Forall readable ups
              /\ mapM f ups = Normal l.
Proof.
  intros Hf Hn Hm. destruct given as [| | | | |ups|]; try discriminate.
  exists ups. split; [reflexivity|]. split; [|split].
  - intros ->. discriminate Hn.
  - apply (mapM_normal_all f readable Hf ups l readable_dec Hm).
  - exact Hm.
Qed.

Lemma playerSchema_player_of (up : value) (r : Player.t) :
  playerSchema (player_of up) = Normal r ->
  forallb takes_text (player_texts up) = true.
Proof.
  intros H. apply playerSchema_normal in H.
  cbn [player_of Player.apiPlayerId Player.name Player.displayName
       Player.shortName Player.team Player.teamId Player.position
       Player.jersey Player.image Player.imageUrl] in H.
  cbn [player_texts forallb]. rewrite !andb_true_iff, !takes_text_cast.
  repeat (split; [eexists; apply H|]). reflexivity.
Qed.

Lemma texts_dec (l : list value) :
  forallb takes_text l = true \/ ~ forallb takes_text l = true.
Proof. destruct (forallb takes_text l); [now left | right; discriminate]. Qed.

Lemma playerSchema_player_of_takes (up : value) :
  forallb takes_text (player_texts up) = true ->
  exists r, playerSchema (player_of up) = Normal r.
Proof. intros H. now apply playerSchema_takes. Qed.

Lemma playerSchema_player_of_refuses (up : value) :
  ~ forallb takes_text (player_texts up) = true ->
  exists e, playerSchema (player_of up) = Throw e.
Proof.
  intros H. destruct (playerSchema (player_of up)) as [r|e] eqn:E;
    [|now exists e].
  elim H. now apply (playerSchema_player_of up r).
Qed.

(** The route on a list that is a non-empty array of readable records. *)
Lemma players_from_runs env s reqs data ups :
  get data "playerList" = Normal (VArr ups) ->
  ups <> [] -> Forall readable ups ->
  players_from env s reqs data
  = match mapM playerSchema (List.map player_of ups) with
    | Normal docs =>
        mkOutcome
          (populated ("Successfully populated "
                      ++ string_of_nat (List.length ups) ++ " players")
                     (List.length ups) None)
          (set_players s (fresh_docs (now env) (next_id s) docs)
                       (next_id s + N.of_nat (List.length ups))%N)
          reqs
    | Throw e =>
        mkOutcome (failure 500 "Error populating players" e)
                  (set_players s [] (next_id s)) reqs
    end.
Proof.
  intros Hl Hne Hall. unfold players_from.
  rewrite Hl, (none_listed_array ups Hne). cbn [array_map].
  rewrite (mapM_readable _ _ ups player_to_insert_readable Hall).
  unfold deleteMany. cbn [set_players players next_id].
  rewrite insertMany_cleared, !length_map.
  now destruct (mapM playerSchema (List.map player_of ups)).
Qed.

(** A success of the route, read backwards. *)
Lemma players_from_success env s reqs data :
  success (reply (players_from env s reqs data)) = true ->
  exists ups docs,
    get data "playerList" = Normal (VArr ups)
    /\ ups <> [] /\ Forall readable ups
    /\ mapM playerSchema (List.map player_of ups) = Normal docs
    /\ players_from env s reqs data
       = mkOutcome
           (populated ("Successfully populated "
                       ++ string_of_nat (List.length ups) ++ " players")
                      (List.length ups) None)
           (set_players s (fresh_docs (now env) (next_id s) docs)
                        (next_id s + N.of_nat (List.length ups))%N)
           reqs.
Proof.
  intros H.
  assert (Hshape : exists ups, get data "playerList" = Normal (VArr ups)
                               /\ ups <> [] /\ Forall readable ups).
  { revert H. unfold players_from.
    destruct (get data "playerList") as [pl|e]; [|discriminate].
    destruct (none_listed pl) as [[|]|e] eqn:En; try discriminate.
    destruct (array_map "data.playerList" pl player_to_insert)
      as [l|e] eqn:Em; [|discriminate].
    intros _.
    destruct (listed_and_mapped _ pl _ l player_to_insert_unreadable En Em)
      as (ups & -> & Hne & Hall & _).
    now exists ups. }
  destruct Hshape as (ups & Hl & Hne & Hall).
  rewrite (players_from_runs env s reqs data ups Hl Hne Hall) in *.
  destruct (mapM playerSchema (List.map player_of ups)) as [docs|e] eqn:Em;
    [|discriminate].
  exists ups, docs. repeat split; assumption || reflexivity.
Qed.

Lemma player_of_normalized (now : Z) (o : ObjectId) (up : value)
    (r : Player.t) :
  readable up -> playerSchema (player_of up) = Normal r ->
  normalized up (mkDoc o now r).
Proof.
  intros Hup H. apply playerSchema_normal in H.
  destruct H as (_ & Hn & _ & _ & Ht & _ & _ & _ & _ & _ & Hp & Ha & Hr).
  exists (read up "name"), (read up "displayName"), (read up "team"),
         (read (read up "team") "name").
  rewrite !(get_read up _ Hup), get_opt_read.
  repeat split; assumption.
Qed.

Lemma Forall2_with_l {A B} (P : A -> Prop) (R : A -> B -> Prop)
    (l : list A) (l' : list B) :
  Forall P l -> Forall2 R l l' -> Forall2 (fun a b => P a /\ R a b) l l'.
Proof.
  intros HP HR. induction HR; inversion HP; subst; constructor; auto.
Qed.

Lemma players_normalized (now : Z) (o : ObjectId) (ups : list value)
    (docs : list Player.t) :
  Forall readable ups ->
  mapM playerSchema (List.map player_of ups) = Normal docs ->
  Forall2 normalized ups (fresh_docs now o docs).
Proof.
  intros Hall H. rewrite mapM_map in H. apply mapM_normal in H.
  pose proof (Forall2_with_l _ _ _ _ Hall H) as HF.
  revert o. induction HF as [|up r ups docs [Hup Hr] _ IH]; intros o.
  - constructor.
  - simpl. constructor; [now apply player_of_normalized|].
    inversion Hall; subst. inversion H; subst. now apply IH.
Qed.

Lemma players_from_normal env s reqs data :
  success (reply (players_from env s reqs data)) = true ->
  exists ups,
    get data "playerList" = Normal (VArr ups)
    /\ Forall2 normalized ups (players (store (players_from env s reqs data))).
Proof.
  intros H.
  destruct (players_from_success env s reqs data H)
    as (ups & docs & Hl & _ & Hall & Hm & ->).
  exists ups. split; [exact Hl|].
  cbn [store set_players players]. now apply players_normalized.
Qed.

(** C7, as amended.  After a successful populate players, the Player
    collection holds, in order, one record per upstream record of the
    payload's player list, and each is the normal form of its upstream
    record: points, assists and rebounds are zero; the name is the upstream
    name when that is truthy (present and not empty) and the upstream
    display name otherwise; the team is the upstream team name when that
    is truthy and 'Free Agent' otherwise; name and team are stored as a
    String path stores them, a string as it is, a number or a boolean as
    its text. *)
Theorem populate_players_normalizes :
  forall (env : Env) (s : Store),
    success (reply (populate_players env s)) = true ->
    exists data ups,
      players_answered env data
      /\ get data "playerList" = Normal (VArr ups)
      /\ Forall2 normalized ups (players (store (populate_players env s))).
Proof.
  intros env s. unfold populate_players, players_answered.
  destruct (fetchFromRapidAPI env "/players") as [d1|e1].
  - intros H. destruct (players_from_normal _ _ _ _ H) as (ups & Hl & Hall).
    exists d1, ups. auto.
  - destruct (fetchFromRapidAPI env "/nba/players") as [d2|e2];
      [|discriminate].
    intros H. destruct (players_from_normal _ _ _ _ H) as (ups & Hl & Hall).
    exists d2, ups. split; [right; now exists e1 | auto].
Qed.

(** Populate players on the league, the upstream serving a record with a
    name and no team, and a record without name whose id, team id and
    jersey are numbers: the three former players are replaced by two. *)
Lemma populate_players_normalizes_witness :
  (exists data ups,
     players_answered PlayerFixture.two data
     /\ get data "playerList" = Normal (VArr ups)
     /\ Forall2 normalized ups (players (store PlayerFixture.two_run)))
  /\ List.map (fun d => (Player.name (fields d), Player.team (fields d),
                         Player.apiPlayerId (fields d),
                         Player.jersey (fields d),
                         Player.points (fields d)))
       (players (store PlayerFixture.two_run))
     = [(VStr "LeBron James", VStr "Free Agent", VStr "1966", VUndefined,
         0%Z);
        (VStr "Stephen Curry", VStr "Warriors", VStr "3975", VStr "30",
         0%Z)].
Proof.
  split; [|reflexivity].
  apply (populate_players_normalizes PlayerFixture.two Fixture.league).
  reflexivity.
Defined.

(** C7 as stated fails: the upstream record carries a name and a team
    name, both the empty string, and the stored name is the display name
    and the stored team is 'Free Agent'. *)
Lemma populate_players_blank_name :
  success (reply PlayerFixture.blank_run) = true
  /\ get PlayerFixture.blank "name" = Normal (VStr "")
  /\ List.map (fun d => Player.name (fields d))
       (players (store PlayerFixture.blank_run))
     = [VStr "LeBron James"]
  /\ (team <- get PlayerFixture.blank "team" ;; get_opt team "name")
     = Normal (VStr "")
  /\ List.map (fun d => Player.team (fields d))
       (players (store PlayerFixture.blank_run))
     = [VStr "Free Agent"].
Proof. repeat split. Qed.

(** ** Populate teams *)

Lemma fold_left_pushed {A B} (f : A -> list B) (l : list A) (acc : list B) :
  fold_left (fun all d => all ++ f d) l acc = acc ++ flat_map f l.
Proof.
  revert acc. induction l as [|a l IH]; intros acc; simpl.
  - now rewrite app_nil_r.
  - now rewrite IH, app_assoc.
Qed.

Lemma pushed_listed env d :
  pushed env d = List.map (with_division d) (listed env d).
Proof.
  unfold pushed, listed.
  destruct (fetchFromRapidAPI env (endpoint d)) as [data|e]; [|reflexivity].
  destruct (get data "teamList") as [[| | | | |elems|]|e]; try reflexivity.
  now destruct elems.
Qed.

Lemma allTeams_listed env :
  allTeams env
  = flat_map (fun d => List.map (with_division d) (listed env d)) divisions.
Proof.
  unfold allTeams. rewrite fold_left_pushed. simpl.
  now rewrite !pushed_listed.
Qed.

Lemma team_to_insert_tagged d t :
  team_to_insert (with_division d t) = Normal (team_of d t).
Proof. reflexivity. Qed.

Lemma mapM_tagged d (l : list value) :
  mapM team_to_insert (List.map (with_division d) l)
  = Normal (List.map (team_of d) l).
Proof.
  induction l as [|t l IH]; [reflexivity|].
  cbn [List.map mapM]. rewrite team_to_insert_tagged, IH. reflexivity.
Qed.

Lemma mapM_all_tagged (L : division -> list value) (ds : list division) :
  mapM team_to_insert
    (flat_map (fun d => List.map (with_division d) (L d)) ds)
  = Normal (flat_map (fun d => List.map (team_of d) (L d)) ds).
Proof.
  induction ds as [|d ds IH]; [reflexivity|].
  cbn [flat_map]. rewrite mapM_app, mapM_tagged, IH. reflexivity.
Qed.

Lemma length_tagged (L : division -> list value) (ds : list division) :
  List.length (flat_map (fun d => List.map (with_division d) (L d)) ds)
  = List.length (flat_map (fun d => List.map (team_of d) (L d)) ds).
Proof.
  induction ds as [|d ds IH]; [reflexivity|].
  cbn [flat_map]. now rewrite !length_app, !length_map, IH.
Qed.

Lemma count_division_app a b nm :
  count_division (a ++ b) nm = count_division a nm + count_division b nm.
Proof. unfold count_division. now rewrite filter_app, length_app. Qed.

Lemma count_division_tagged d (l : list value) nm :
  count_division (List.map (with_division d) l) nm
  = if name d =? nm then List.length l else 0.
Proof.
  unfold count_division.
  induction l as [|t l IH]; cbn [List.map filter].
  - now destruct (name d =? nm).
  - change (match get (with_division d t) "divisionName" with
            | Normal v => is_string nm v
            | Throw _ => false
            end) with (name d =? nm).
    destruct (name d =? nm) eqn:E; [simpl; now rewrite IH | exact IH].
Qed.

Lemma breakdown_listed (L : division -> list value) :
  breakdown_of
    (flat_map (fun d => List.map (with_division d) (L d)) divisions)
  = List.map (fun d => (name d, List.length (L d))) divisions.
Proof.
  unfold breakdown_of, divisions. cbn [flat_map List.map].
  rewrite !count_division_app, !count_division_tagged. cbn.
  repeat f_equal; lia.
Qed.

(** The route in closed form. *)
Lemma populate_teams_runs env s :
  populate_teams env s
  = let recs := team_records env in
    let n := List.length recs in
    if (n =? 0)%nat then
      mkOutcome (not_found "No teams found in API response") s
                (List.map endpoint divisions)
    else
      match mapM teamSchema recs with
      | Normal docs =>
          mkOutcome
            (populated ("Successfully populated " ++ string_of_nat n
                        ++ " teams from all 6 divisions") n
               (Some (List.map (fun d => (name d, List.length (listed env d)))
                               divisions)))
            (set_teams s (fresh_docs (now env) (next_id s) docs)
                       (next_id s + N.of_nat n)%N)
            (List.map endpoint divisions)
      | Throw e =>
          mkOutcome (failure 500 "Error populating teams" e)
                    (set_teams s [] (next_id s))
                    (List.map endpoint divisions)
      end.
Proof.
  unfold populate_teams, team_records.
  rewrite allTeams_listed, length_tagged.
  cbv zeta.
  destruct (List.length _ =? 0)%nat; [reflexivity|].
  rewrite mapM_all_tagged, breakdown_listed.
  unfold deleteMany. cbn [set_teams teams next_id].
  rewrite insertMany_cleared.
  now destruct (mapM teamSchema _).
Qed.

Lemma team_records_teams_of (L : division -> list value)
    (ds : list division) :
  flat_map (fun d => List.map (team_of d) (L d)) ds
  = List.map (fun dt => team_of (fst dt) (snd dt)) (teams_of L ds).
Proof.
  unfold teams_of. induction ds as [|d ds IH]; [reflexivity|].
  cbn [flat_map]. rewrite map_app, map_map, IH. reflexivity.
Qed.

Lemma snd_teams_of (L : division -> list value) (ds : list division) :
  List.map snd (teams_of L ds) = flat_map L ds.
Proof.
  unfold teams_of. induction ds as [|d ds IH]; [reflexivity|].
  cbn [flat_map]. rewrite map_app, map_map, IH. cbn [snd].
  now rewrite map_id.
Qed.

Lemma fst_teams_of (L : division -> list value) (ds : list division) dt :
  In dt (teams_of L ds) -> In (fst dt) ds /\ In (snd dt) (L (fst dt)).
Proof.
  unfold teams_of. intros H. apply in_flat_map in H as (d & Hd & H).
  apply in_map_iff in H as (t & <- & Ht). now split.
Qed.

Lemma team_of_texts d t :
  forallb takes_text
    [Team.apiTeamId (team_of d t); Team.name (team_of d t);
     Team.shortName (team_of d t); Team.abbrev (team_of d t);
     Team.logo (team_of d t); Team.logoDark (team_of d t);
     Team.href (team_of d t); Team.conference (team_of d t);
     Team.division (team_of d t)]
  = team_accepted t.
Proof.
  unfold team_accepted. cbn [forallb team_of Team.apiTeamId Team.name
    Team.shortName Team.abbrev Team.logo Team.logoDark Team.href
    Team.conference Team.division].
  change (takes_text (VStr (conference d))) with true.
  change (takes_text (VStr (name d))) with true.
  cbn [andb]. reflexivity.
Qed.

Lemma teamSchema_team_of d t r :
  teamSchema (team_of d t) = Normal r -> team_stored d t r.
Proof.
  intros H. apply teamSchema_normal in H.
  destruct H as (H1 & H2 & H3 & H4 & H5 & H6 & H7 & H8 & H9 & Hw & Hl).
  cbn in H8, H9. injection H8 as H8. injection H9 as H9.
  unfold team_stored, tagged. repeat split; auto.
Qed.

Lemma teamSchema_team_of_takes d t :
  team_accepted t = true -> exists r, teamSchema (team_of d t) = Normal r.
Proof.
  intros H. apply teamSchema_takes. now rewrite team_of_texts.
Qed.

Lemma teamSchema_team_of_refuses d t :
  team_accepted t = false ->
  teamSchema (team_of d t) = Throw (ValidationError "Team validation failed").
Proof.
  intros H. apply teamSchema_refuses. now rewrite team_of_texts.
Qed.

Lemma mapM_teams_accepted (dts : list (division * value)) :
  forallb team_accepted (List.map snd dts) = true ->
  exists docs,
    mapM teamSchema (List.map (fun dt => team_of (fst dt) (snd dt)) dts)
    = Normal docs
    /\ Forall2 (fun dt r => team_stored (fst dt) (snd dt) r) dts docs.
Proof.
  induction dts as [|[d t] dts IH]; intros H.
  - exists []. split; [reflexivity | constructor].
  - cbn [List.map forallb snd] in H. apply andb_prop in H as [Ht Hl].
    destruct (teamSchema_team_of_takes d t Ht) as [r Hr].
    destruct (IH Hl) as (docs & Hdocs & HF).
    exists (r :: docs). cbn [List.map mapM fst snd].
    rewrite Hr, Hdocs. split; [reflexivity|].
    constructor; [now apply teamSchema_team_of | exact HF].
Qed.

Lemma mapM_teams_refused (dts : list (division * value)) :
  forallb team_accepted (List.map snd dts) = false ->
  mapM teamSchema (List.map (fun dt => team_of (fst dt) (snd dt)) dts)
  = Throw (ValidationError "Team validation failed").
Proof.
  induction dts as [|[d t] dts IH]; intros H; [discriminate|].
  cbn [List.map forallb snd] in H. cbn [List.map mapM fst snd].
  destruct (team_accepted t) eqn:Ht.
  - destruct (teamSchema_team_of_takes d t Ht) as [r ->].
    cbn [bind]. now rewrite (IH H).
  - now rewrite (teamSchema_team_of_refuses d t Ht).
Qed.

Lemma flat_map_nil {A B} (f : A -> list B) (l : list A) :
  flat_map f l = [] <-> forall x, In x l -> f x = [].
Proof.
  induction l as [|a l IH]; simpl.
  - split; [intros _ x [] | reflexivity].
  - split.
    + intros H. apply app_eq_nil in H as [Ha Hl].
      intros x [<-|Hx]; [exact Ha | now apply IH].
    + intros H. rewrite (H a) by now left.
      apply IH. intros x Hx. apply H. now right.
Qed.

Lemma allTeams_nil env :
  allTeams env = [] <-> forall d, In d divisions -> listed env d = [].
Proof.
  rewrite allTeams_listed, flat_map_nil.
  split; intros H d Hd; specialize (H d Hd).
  - now apply map_eq_nil in H.
  - now rewrite H.
Qed.

Lemma allTeams_length env :
  List.length (allTeams env) = List.length (team_records env).
Proof. rewrite allTeams_listed. apply length_tagged. Qed.

(** The route on upstream teams the schema takes, and on teams one of
    which it refuses. *)
Lemma populate_teams_stores env s :
  team_records env <> [] ->
  let o := populate_teams env s in
  let ups := teams_of (listed env) divisions in
  (forallb team_accepted (List.map snd ups) = true ->
   exists docs,
     Forall2 (fun dt r => team_stored (fst dt) (snd dt) r) ups docs
     /\ List.length docs = List.length (team_records env)
     /\ o = mkOutcome
              (populated ("Successfully populated "
                          ++ string_of_nat (List.length (team_records env))
                          ++ " teams from all 6 divisions")
                 (List.length (team_records env))
                 (Some (List.map
                          (fun d => (name d, List.length (listed env d)))
                          divisions)))
              (set_teams s (fresh_docs (now env) (next_id s) docs)
                 (next_id s + N.of_nat (List.length (team_records env)))%N)
              (List.map endpoint divisions))
  /\ (forallb team_accepted (List.map snd ups) = false ->
      o = mkOutcome
            (failure 500 "Error populating teams"
               (ValidationError "Team validation failed"))
            (set_teams s [] (next_id s))
            (List.map endpoint divisions)).
Proof.
  intros Hne o ups. subst o ups. rewrite populate_teams_runs. cbv zeta.
  destruct (List.length (team_records env)) as [|n] eqn:En;
    [apply length_zero_iff_nil in En; contradiction|].
  cbn [Nat.eqb]. unfold team_records in *.
  rewrite team_records_teams_of in *. split; intros H.
  - destruct (mapM_teams_accepted _ H) as (docs & Hdocs & HF).
    rewrite Hdocs. exists docs. split; [exact HF|]. split; [|reflexivity].
    rewrite <- En. now apply mapM_length in Hdocs.
  - now rewrite (mapM_teams_refused _ H).
Qed.

(** C5, as amended.  Populate teams, once the six divisions have been
    gone through: the accumulated list is empty exactly when every
    division listed no team (its fetch failed, or it returned none); in
    that case the reply is the 404 no-data envelope and the store is
    untouched.  Otherwise the other collections are as they were, and:
    when the schema takes every accumulated team, the reply is a success
    and the Team collection holds, in order, one freshly dated document
    per accumulated team, its normal form, and nothing else; when the
    schema refuses one of them, the reply is the 500 failure envelope and
    the Team collection is left cleared, nothing being inserted. *)
Theorem populate_teams_empty_or_replace :
  forall (env : Env) (s : Store),
    let o := populate_teams env s in
    let ups := teams_of (listed env) divisions in
    (allTeams env = [] <-> forall d, In d divisions -> listed env d = [])
    /\ (allTeams env = [] ->
        reply o = mkResponse 404 false
                    (Some "No teams found in API response")
                    None None None None
        /\ store o = s)
    /\ (allTeams env <> [] ->
        players (store o) = players s
        /\ games (store o) = games s
        /\ (forallb team_accepted (List.map snd ups) = true ->
            success (reply o) = true
            /\ Forall2 stores_team ups (teams (store o))
            /\ Forall (fun d => lastUpdated d = now env
                                /\ (next_id s <= _id d)%N)
                      (teams (store o)))
        /\ (forallb team_accepted (List.map snd ups) = false ->
            (exists e, reply o = mkResponse 500 false
                                   (Some "Error populating teams") None None
                                   (Some (Js.message e)) None)
            /\ teams (store o) = [])).
Proof.
  intros env s o ups. split; [apply allTeams_nil|].
  pose proof (allTeams_length env) as Hlen.
  split; intros H.
  - subst o. rewrite populate_teams_runs. cbv zeta.
    rewrite H in Hlen. simpl in Hlen. rewrite <- Hlen. now split.
  - assert (Hne : team_records env <> []).
    { intros E. apply H. apply length_zero_iff_nil.
      now rewrite Hlen, E. }
    destruct (populate_teams_stores env s Hne) as [Hok Hko].
    cbv zeta in Hok, Hko. fold ups in Hok, Hko. subst o.
    destruct (forallb team_accepted (List.map snd ups)) eqn:Eacc.
    + destruct (Hok eq_refl) as (docs & HF & _ & Ho). rewrite Ho.
      cbn [store reply success populated set_teams players games teams].
      repeat split; try discriminate.
      * exact (Forall2_fresh_docs
                 (fun dt r => team_stored (fst dt) (snd dt) r) _ _ _ _ HF).
      * apply Forall_forall. intros d Hd.
        apply fresh_docs_ids in Hd. split; [apply Hd | lia].
    + rewrite (Hko eq_refl).
      cbn [store reply set_teams players games teams].
      repeat split; try discriminate. eexists. reflexivity.
Qed.

(** Populate teams on the league, one division listing one team whose id
    is a number and whose short name is a boolean: the three former teams
    are replaced by the one record, its id and short name as texts. *)
Lemma populate_teams_empty_or_replace_witness :
  (success (reply TeamFixture.atlantic_only_run) = true
   /\ Forall2 stores_team
        (teams_of (listed (TeamFixture.serving TeamFixture.atlantic_only))
                  divisions)
        (teams (store TeamFixture.atlantic_only_run))
   /\ Forall (fun d => lastUpdated d
                       = now (TeamFixture.serving TeamFixture.atlantic_only)
                       /\ (next_id Fixture.league <= _id d)%N)
             (teams (store TeamFixture.atlantic_only_run)))
  /\ teams (store TeamFixture.atlantic_only_run)
     = [mkDoc 10%N 1710009910123%Z
          (Team.mk (VStr "7") (VStr "Boston Celtics") (VStr "true")
             VUndefined VUndefined VUndefined VUndefined (VStr "East")
             (VStr "Atlantic") 0 0)]
  /\ List.length (teams Fixture.league) = 3.
Proof.
  split; [|split; reflexivity].
  destruct (populate_teams_empty_or_replace
              (TeamFixture.serving TeamFixture.atlantic_only) Fixture.league)
    as (_ & _ & H).
  assert (Hne : allTeams (TeamFixture.serving TeamFixture.atlantic_only)
                <> []) by discriminate.
  destruct (H Hne) as (_ & _ & Hok & _).
  apply Hok. reflexivity.
Defined.

(** C5 as stated fails: the accumulated list holds six teams, one of them
    with an object as name, which the String path refuses; the collection
    is cleared and nothing is inserted, the three former teams are gone
    and the reply is the 500 failure. *)
Lemma populate_teams_refused_record :
  List.length (allTeams (TeamFixture.serving TeamFixture.one_odd)) = 6
  /\ status (reply TeamFixture.one_odd_run) = 500
  /\ success (reply TeamFixture.one_odd_run) = false
  /\ teams (store TeamFixture.one_odd_run) = []
  /\ List.length (teams Fixture.league) = 3.
Proof. repeat split. Qed.

Lemma divisions_conferences :
  List.map (fun d => (name d, conference d)) divisions
  = [("Atlantic", "East"); ("Central", "East"); ("Southeast", "East");
     ("Northwest", "West"); ("Pacific", "West"); ("Southwest", "West")].
Proof. reflexivity. Qed.

Section Selected.
Context {A B : Type} (p : A -> bool).

Lemma flat_map_selected (f g : A -> list B) (l : list A) :
  (forall a, In a l -> g a = if p a then f a else []) ->
  flat_map g l = flat_map f (filter p l).
Proof.
  induction l as [|a l IH]; intros H; [reflexivity|].
  simpl. rewrite (H a) by now left.
  rewrite IH by (intros x Hx; apply H; now right).
  now destruct (p a).
Qed.

Lemma length_flat_map_const (f : A -> list B) (k : nat) (l : list A) :
  (forall a, In a l -> List.length (f a) = k) ->
  List.length (flat_map f l) = k * List.length l.
Proof.
  induction l as [|a l IH]; intros H; simpl; [lia|].
  rewrite length_app, (H a) by now left.
  rewrite IH by (intros x Hx; apply H; now right). lia.
Qed.

Lemma list_sum_selected (k : nat) (l : list A) :
  list_sum (List.map (fun a => if p a then k else 0) l)
  = k * List.length (filter p l).
Proof.
  induction l as [|a l IH]; simpl; [lia|].
  rewrite IH. destruct (p a); simpl; lia.
Qed.

Lemma length_filter_split (l : list A) :
  List.length (filter p l) + List.length (filter (fun a => negb (p a)) l)
  = List.length l.
Proof.
  induction l as [|a l IH]; simpl; [reflexivity|].
  destruct (p a); simpl; lia.
Qed.

End Selected.

Lemma forallb_flat_map {A B} (p : B -> bool) (f : A -> list B) (l : list A) :
  (forall a, In a l -> forallb p (f a) = true) ->
  forallb p (flat_map f l) = true.
Proof.
  induction l as [|a l IH]; intros H; [reflexivity|].
  cbn [flat_map]. rewrite forallb_app, (H a) by now left.
  apply IH. intros x Hx. apply H. now right.
Qed.

(** C3, as amended.  Populate teams, every division endpoint either
    failing or answering with [k >= 1] teams that the schema takes, at
    most one of them failing: the reply is a success; the Team collection
    holds exactly one document per team of the answering divisions,
    division after division, each the normal form of its team and so
    carrying the division and the conference of the endpoint it came from;
    their number is [k] times the number of answering divisions, which is
    6 less the number of failing ones; the breakdown gives [k] for an
    answering division and 0 for a failing one, and sums to the count.
    With no failure that is [6 * k] records, with one failure the [5 * k]
    records of the other five divisions. *)
Theorem populate_teams_by_division :
  forall (env : Env) (s : Store) (k : nat) (down : division -> bool)
         (ts : division -> list value),
    0 < k ->
    List.length (filter down divisions) <= 1 ->
    (forall d, In d divisions ->
       if down d then unreachable env d
       else serves env d (ts d) /\ List.length (ts d) = k
            /\ forallb team_accepted (ts d) = true) ->
    let o := populate_teams env s in
    let up := filter (fun d => negb (down d)) divisions in
    success (reply o) = true
    /\ Forall2 stores_team (teams_of ts up) (teams (store o))
    /\ Forall (fun r => exists d, In d up /\ tagged d r)
              (List.map fields (teams (store o)))
    /\ List.length (teams (store o)) = k * List.length up
    /\ List.length up = 6 - List.length (filter down divisions)
    /\ count (reply o) = Some (k * List.length up)
    /\ exists b,
         breakdown (reply o) = Some b
         /\ b = List.map (fun d => (name d, if down d then 0 else k)) divisions
         /\ total b = k * List.length up.
Proof.
  intros env s k down ts Hk Hdown Hall o up.
  assert (Hlisted : forall d, In d divisions ->
            listed env d = if negb (down d) then ts d else []).
  { intros d Hd. specialize (Hall d Hd). unfold listed.
    destruct (down d); simpl.
    - destruct Hall as [e ->]. reflexivity.
    - destruct Hall as [(data & -> & ->) _]. reflexivity. }
  assert (Hups : teams_of (listed env) divisions = teams_of ts up).
  { unfold teams_of, up. apply flat_map_selected.
    intros d Hd. rewrite (Hlisted d Hd). now destruct (down d). }
  assert (Hrecs : team_records env
                  = flat_map (fun d => List.map (team_of d) (ts d)) up).
  { unfold team_records, up. apply flat_map_selected.
    intros d Hd. rewrite (Hlisted d Hd). now destruct (down d). }
  assert (Hup : List.length up = 6 - List.length (filter down divisions)).
  { pose proof (length_filter_split down divisions) as H.
    fold up in H. change (List.length divisions) with 6 in H. lia. }
  assert (Hlen : List.length (team_records env) = k * List.length up).
  { rewrite Hrecs. apply length_flat_map_const.
    intros d Hd. rewrite length_map.
    apply filter_In in Hd as [Hd Hnd]. specialize (Hall d Hd).
    destruct (down d); [discriminate | apply Hall]. }
  assert (Hbreak :
    List.map (fun d => (name d, List.length (listed env d))) divisions
    = List.map (fun d => (name d, if down d then 0 else k)) divisions).
  { apply map_ext_in. intros d Hd. rewrite (Hlisted d Hd).
    specialize (Hall d Hd). destruct (down d); simpl; [reflexivity|].
    now destruct Hall as (_ & -> & _). }
  assert (Hacc : forallb team_accepted
                   (List.map snd (teams_of (listed env) divisions)) = true).
  { rewrite Hups, snd_teams_of. apply forallb_flat_map.
    intros d Hd. apply filter_In in Hd as [Hd Hnd]. specialize (Hall d Hd).
    destruct (down d); [discriminate | apply Hall]. }
  assert (Hne : team_records env <> []).
  { intros E. rewrite E in Hlen. simpl in Hlen. nia. }
  destruct (proj1 (populate_teams_stores env s Hne) Hacc)
    as (docs & HF & Hdocs & Ho).
  subst o. rewrite Ho.
  cbn [reply store success count breakdown populated set_teams teams].
  rewrite Hups in HF.
  assert (HS : Forall2 stores_team (teams_of ts up)
                 (fresh_docs (now env) (next_id s) docs))
    by exact (Forall2_fresh_docs
                (fun dt r => team_stored (fst dt) (snd dt) r) _ _ _ _ HF).
  rewrite fields_fresh_docs, length_fresh_docs, Hdocs, Hlen, Hbreak.
  repeat split; try assumption.
  - eapply Forall2_Forall_r; [|exact HF].
    intros dt r Hdt Hst. exists (fst dt). split.
    + now apply fst_teams_of in Hdt.
    + apply Hst.
  - eexists. split; [reflexivity|]. split; [reflexivity|].
    unfold total, up. rewrite map_map. cbn [snd].
    rewrite <- (list_sum_selected (fun d => negb (down d)) k divisions).
    f_equal. apply map_ext. intros d. now destruct (down d).
Qed.

(** One team per division, its id a number, the Pacific endpoint failing:
    five records, with the id as a text and the divisions and the
    conferences of the five other endpoints. *)
Lemma populate_teams_by_division_witness :
  success (reply TeamFixture.pacific_down_run) = true
  /\ List.map (fun r => (Team.apiTeamId r, Team.name r, Team.division r,
                         Team.conference r))
       (List.map fields (teams (store TeamFixture.pacific_down_run)))
     = [(VStr "7", VStr "/nba-atlantic-team-list", VStr "Atlantic",
         VStr "East");
        (VStr "7", VStr "/nba-central-team-list", VStr "Central",
         VStr "East");
        (VStr "7", VStr "/nba-southeast-team-list", VStr "Southeast",
         VStr "East");
        (VStr "7", VStr "/nba-northwest-team-list", VStr "Northwest",
         VStr "West");
        (VStr "7", VStr "/nba-southwest-team-list", VStr "Southwest",
         VStr "West")]
  /\ count (reply TeamFixture.pacific_down_run) = Some 5.
Proof.
  set (env := TeamFixture.serving TeamFixture.pacific_down).
  pose proof (populate_teams_by_division env Fixture.small_store 1
                TeamFixture.is_pacific
                (fun d => [TeamFixture.numbered 7 (endpoint d)])) as H.
  assert (H0 : 0 < 1) by lia.
  assert (H1 : List.length (filter TeamFixture.is_pacific divisions) <= 1)
    by (simpl; lia).
  specialize (H H0 H1). clear H0 H1.
  assert (H2 : forall d, In d divisions ->
    if TeamFixture.is_pacific d then unreachable env d
    else serves env d [TeamFixture.numbered 7 (endpoint d)]
         /\ List.length [TeamFixture.numbered 7 (endpoint d)] = 1
         /\ forallb team_accepted [TeamFixture.numbered 7 (endpoint d)]
            = true).
  { intros d Hd. simpl in Hd.
    destruct Hd as [<-|[<-|[<-|[<-|[<-|[<-|[]]]]]]]; simpl;
      try (split; [eexists; split; reflexivity | split; reflexivity]).
    eexists. reflexivity. }
  specialize (H H2). cbv zeta in H.
  destruct H as (Hs & _ & _ & _ & _ & Hc & _).
  unfold TeamFixture.pacific_down_run. fold env.
  split; [exact Hs|]. split; [|exact Hc].
  reflexivity.
Defined.

(** C3 as stated fails.  For [k = 0]: the six endpoints answer, each with
    no team; the reply is the 404 no-data envelope and the Team collection
    keeps its one record.  For [k = 1] with a team the schema refuses: the
    six endpoints answer, each with one team, the name of one of them
    being an object; the reply is the 500 failure and the Team collection
    is left empty, not with six records. *)
Lemma populate_teams_not_6k :
  ((forall d, In d divisions -> serves TeamFixture.no_team d [])
   /\ status (reply TeamFixture.no_team_run) = 404
   /\ success (reply TeamFixture.no_team_run) = false
   /\ List.length (teams (store TeamFixture.no_team_run)) = 1)
  /\ ((forall d, In d divisions ->
         exists t, serves (TeamFixture.serving TeamFixture.one_odd) d [t])
      /\ status (reply TeamFixture.one_odd_run) = 500
      /\ success (reply TeamFixture.one_odd_run) = false
      /\ List.length (teams (store TeamFixture.one_odd_run)) = 0).
Proof.
  split; (split; [|repeat split]).
  - intros d _. eexists. split; reflexivity.
  - intros d Hd. simpl in Hd.
    destruct Hd as [<-|[<-|[<-|[<-|[<-|[<-|[]]]]]]];
      eexists; eexists; split; reflexivity.
Qed.

(** ** Populating twice *)

Section SameUpstream.
Variables env1 env2 : Env.
Hypothesis same_upstream : forall path, upstream env1 path = upstream env2 path.
Hypothesis same_day :
  before_T (toISOString env1) = before_T (toISOString env2).

Lemma fetch_same path :
  fetchFromRapidAPI env1 path = fetchFromRapidAPI env2 path.
Proof. unfold fetchFromRapidAPI. now rewrite same_upstream. Qed.

Lemma listed_same d : listed env1 d = listed env2 d.
Proof. unfold listed. now rewrite fetch_same. Qed.

Lemma teams_change_same : teams_change env1 = teams_change env2.
Proof.
  unfold teams_change, team_records.
  now rewrite (flat_map_ext _ _ (fun d => f_equal _ (listed_same d))).
Qed.

Lemma players_change_same : players_change env1 = players_change env2.
Proof. unfold players_change. now rewrite !fetch_same. Qed.

Lemma games_change_same tv : games_change tv env1 = games_change tv env2.
Proof.
  unfold games_change, dated_endpoint. now rewrite same_day, !fetch_same.
Qed.

End SameUpstream.

Lemma teams_changed env s :
  changed (teams_change env) (teams s) (teams (store (populate_teams env s))).
Proof.
  unfold changed, teams_change, inserted. rewrite populate_teams_runs.
  cbv zeta.
  destruct (List.length (team_records env) =? 0)%nat; [reflexivity|].
  destruct (mapM teamSchema (team_records env)); [|reflexivity].
  cbn [store set_teams teams]. apply fields_fresh_docs.
Qed.

Lemma players_from_changed env s reqs data :
  changed (players_change_from data) (players s)
          (players (store (players_from env s reqs data))).
Proof.
  unfold changed, players_change_from, players_from, inserted.
  destruct (get data "playerList") as [pl|e]; [|reflexivity].
  destruct (none_listed pl) as [[|]|e]; try reflexivity.
  destruct (array_map "data.playerList" pl player_to_insert) as [l|e];
    [|reflexivity].
  unfold deleteMany. cbn [set_players players next_id].
  rewrite insertMany_cleared.
  destruct (mapM playerSchema l); [|reflexivity].
  cbn. apply fields_fresh_docs.
Qed.

Lemma players_changed env s :
  changed (players_change env) (players s)
          (players (store (populate_players env s))).
Proof.
  unfold players_change, populate_players.
  destruct (fetchFromRapidAPI env "/players");
    [apply players_from_changed|].
  destruct (fetchFromRapidAPI env "/nba/players");
    [apply players_from_changed | reflexivity].
Qed.

Lemma games_from_changed tv env s reqs data :
  changed (games_change_from tv data) (games s)
          (games (store (games_from tv env s reqs data))).
Proof.
  unfold changed, games_change_from, games_from, inserted.
  destruct (get data "gameList") as [gl|e]; [|reflexivity].
  destruct (none_listed gl) as [[|]|e]; try reflexivity.
  destruct (array_map "data.gameList" gl game_to_insert) as [l|e];
    [|reflexivity].
  unfold deleteMany. cbn [set_games games next_id].
  rewrite insertMany_cleared.
  destruct (mapM (gameSchema tv) l); [|reflexivity].
  cbn. apply fields_fresh_docs.
Qed.

Lemma games_changed tv env s :
  changed (games_change tv env) (games s)
          (games (store (populate_games tv env s))).
Proof.
  unfold games_change, populate_games.
  destruct (fetchFromRapidAPI env "/games");
    [apply games_from_changed|].
  destruct (fetchFromRapidAPI env "/schedule");
    [apply games_from_changed|].
  destruct (fetchFromRapidAPI env (dated_endpoint env));
    [apply games_from_changed | reflexivity].
Qed.

(** Two changes in a row by the same decision end on the same records. *)
Lemma changed_twice {F} (c : option (list F)) (c0 c1 c2 : list (doc F)) :
  changed c c0 c1 -> changed c c1 c2 ->
  List.map fields c2 = List.map fields c1.
Proof.
  unfold changed. intros H1 H2. destruct c; congruence.
Qed.

(** C6, as amended.  For each populate route, run twice in a row against
    the same upstream answers (and, for games, on the same calendar day,
    the third path of the chain carrying the date): after the second run
    the collection holds the same records, in the same order, as after the
    first, up to the [_id] and [lastUpdated] the store gives to each
    inserted document. *)
Theorem populate_twice_same_records :
  forall (time_value : value -> option Z) (env1 env2 : Env) (s : Store),
    (forall path, upstream env1 path = upstream env2 path) ->
    (let s1 := store (populate_teams env1 s) in
     let s2 := store (populate_teams env2 s1) in
     List.map fields (teams s2) = List.map fields (teams s1))
    /\ (let s1 := store (populate_players env1 s) in
        let s2 := store (populate_players env2 s1) in
        List.map fields (players s2) = List.map fields (players s1))
    /\ (before_T (toISOString env1) = before_T (toISOString env2) ->
        let s1 := store (populate_games time_value env1 s) in
        let s2 := store (populate_games time_value env2 s1) in
        List.map fields (games s2) = List.map fields (games s1)).
Proof.
  intros tv env1 env2 s Hup. cbv zeta. split; [|split].
  - eapply changed_twice; [apply teams_changed|].
    rewrite (teams_change_same env1 env2 Hup). apply teams_changed.
  - eapply changed_twice; [apply players_changed|].
    rewrite (players_change_same env1 env2 Hup). apply players_changed.
  - intros Hday. eapply changed_twice; [apply games_changed|].
    rewrite (games_change_same env1 env2 Hup Hday). apply games_changed.
Qed.

Lemma populate_twice_same_records_witness :
  List.map fields (players ClockFixture.after_second)
  = List.map fields (players ClockFixture.after_first).
Proof.
  assert (Hup : forall path, upstream ClockFixture.first_run path
                             = upstream ClockFixture.second_run path)
    by reflexivity.
  exact (proj1 (proj2 (populate_twice_same_records Fixture.clock
                         ClockFixture.first_run ClockFixture.second_run
                         PlayerFixture.empty_store Hup))).
Defined.

(** C6 as stated fails: the second run stores the same record under a new
    [_id] and a new [lastUpdated], so the collection after the second run
    is not the collection after the first. *)
Lemma populate_twice_other_documents :
  upstream ClockFixture.second_run = upstream ClockFixture.first_run
  /\ List.map _id (players ClockFixture.after_first) = [0%N]
  /\ List.map _id (players ClockFixture.after_second) = [1%N]
  /\ List.map lastUpdated (players ClockFixture.after_first)
     = [1710009910123%Z]
  /\ List.map lastUpdated (players ClockFixture.after_second)
     = [1710009911123%Z]
  /\ players ClockFixture.after_second <> players ClockFixture.after_first.
Proof.
  repeat split. discriminate.
Qed.

(** ** The store invariant is kept by the populate routes *)

Section Invariant.
Context {F : Type}.

Lemma wf_coll_nil (next : ObjectId) : wf_coll next (@nil (doc F)).
Proof. split; constructor. Qed.

Lemma wf_coll_mono (next next' : ObjectId) (coll : list (doc F)) :
  (next <= next')%N -> wf_coll next coll -> wf_coll next' coll.
Proof.
  intros Hle [Hnd Hlt]. split; [exact Hnd|].
  eapply Forall_impl; [|exact Hlt]. cbv beta. intros d Hd. lia.
Qed.

Lemma wf_coll_fresh (now : Z) (next : ObjectId) (l : list F) :
  wf_coll (next + N.of_nat (List.length l))%N (fresh_docs now next l).
Proof.
  split.
  - revert next. induction l as [|f l IH]; intros next; [constructor|].
    cbn [fresh_docs List.map]. constructor; [|apply IH].
    intros Hin. apply in_map_iff in Hin as (d & Hid & Hd).
    apply fresh_docs_ids in Hd. cbn [_id] in Hid. lia.
  - apply Forall_forall. intros d Hd. apply fresh_docs_ids in Hd. lia.
Qed.

(** What [insertMany] into a cleared collection leaves is well formed. *)
Lemma wf_insertMany {L} (schema : L -> completion F) now next (l : list L)
    coll next' :
  insertMany schema now next l [] = Normal (coll, next') ->
  (next <= next')%N /\ wf_coll next' coll.
Proof.
  unfold insertMany. destruct (mapM schema l) as [docs|e]; [|discriminate].
  cbn. intros [= <- <-]. split; [lia | apply wf_coll_fresh].
Qed.

End Invariant.

Lemma wf_set_teams s coll next :
  wf_store s -> (next_id s <= next)%N -> wf_coll next coll ->
  wf_store (set_teams s coll next).
Proof.
  intros (Hp & _ & Hg) Hle Hc.
  repeat split; try apply Hc; eapply wf_coll_mono; eauto; apply Hp || apply Hg.
Qed.

Lemma wf_set_players s coll next :
  wf_store s -> (next_id s <= next)%N -> wf_coll next coll ->
  wf_store (set_players s coll next).
Proof.
  intros (_ & Ht & Hg) Hle Hc.
  repeat split; try apply Hc; eapply wf_coll_mono; eauto; apply Ht || apply Hg.
Qed.

Lemma wf_set_games s coll next :
  wf_store s -> (next_id s <= next)%N -> wf_coll next coll ->
  wf_store (set_games s coll next).
Proof.
  intros (Hp & Ht & _) Hle Hc.
  repeat split; try apply Hc; eapply wf_coll_mono; eauto; apply Hp || apply Ht.
Qed.

Lemma teams_wf env s :
  wf_store s -> wf_store (store (populate_teams env s)).
Proof.
  intros Hs. unfold populate_teams.
  destruct (List.length (allTeams env) =? 0)%nat; [exact Hs|].
  assert (Hc : wf_store (set_teams s (deleteMany (teams s)) (next_id s)))
    by (apply wf_set_teams; [exact Hs|lia|apply wf_coll_nil]).
  cbv zeta. destruct (mapM team_to_insert (allTeams env)); [|exact Hc].
  destruct (insertMany _ _ _ _ _) as [[coll next]|e] eqn:E; [|exact Hc].
  apply wf_insertMany in E as [Hle Hwf].
  apply wf_set_teams; [exact Hc | exact Hle | exact Hwf].
Qed.

Lemma players_from_wf env s reqs data :
  wf_store s -> wf_store (store (players_from env s reqs data)).
Proof.
  intros Hs. unfold players_from.
  destruct (get data "playerList") as [pl|e]; [|exact Hs].
  destruct (none_listed pl) as [[|]|e]; try exact Hs.
  assert (Hc : wf_store (set_players s (deleteMany (players s)) (next_id s)))
    by (apply wf_set_players; [exact Hs|lia|apply wf_coll_nil]).
  destruct (array_map "data.playerList" pl player_to_insert) as [l|e];
    [|exact Hc].
  destruct (insertMany _ _ _ _ _) as [[coll next]|e] eqn:E; [|exact Hc].
  apply wf_insertMany in E as [Hle Hwf].
  apply wf_set_players; [exact Hc | exact Hle | exact Hwf].
Qed.

Lemma games_from_wf tv env s reqs data :
  wf_store s -> wf_store (store (games_from tv env s reqs data)).
Proof.
  intros Hs. unfold games_from.
  destruct (get data "gameList") as [gl|e]; [|exact Hs].
  destruct (none_listed gl) as [[|]|e]; try exact Hs.
  assert (Hc : wf_store (set_games s (deleteMany (games s)) (next_id s)))
    by (apply wf_set_games; [exact Hs|lia|apply wf_coll_nil]).
  destruct (array_map "data.gameList" gl game_to_insert) as [l|e];
    [|exact Hc].
  destruct (insertMany _ _ _ _ _) as [[coll next]|e] eqn:E; [|exact Hc].
  apply wf_insertMany in E as [Hle Hwf].
  apply wf_set_games; [exact Hc | exact Hle | exact Hwf].
Qed.

(** Every populate route takes a well-formed store to a well-formed
    store: the ids stay pairwise distinct, as get by id expects. *)
Lemma populate_keeps_wf tv env s :
  wf_store s ->
  wf_store (store (populate_teams env s))
  /\ wf_store (store (populate_players env s))
  /\ wf_store (store (populate_games tv env s)).
Proof.
  intros Hs. split; [|split].
  - now apply teams_wf.
  - unfold populate_players.
    destruct (fetchFromRapidAPI env "/players");
      [now apply players_from_wf|].
    destruct (fetchFromRapidAPI env "/nba/players");
      [now apply players_from_wf | exact Hs].
  - unfold populate_games.
    destruct (fetchFromRapidAPI env "/games");
      [now apply games_from_wf|].
    destruct (fetchFromRapidAPI env "/schedule");
      [now apply games_from_wf|].
    destruct (fetchFromRapidAPI env (dated_endpoint env));
      [now apply games_from_wf | exact Hs].
Qed.

(** ** Worked examples *)

Example twelve_teams_reply :
  reply TwelveTeams.run
  = mkResponse 200 true
      (Some "Successfully populated 12 teams from all 6 divisions")
      (Some 12) None None
      (Some [("Atlantic", 2); ("Central", 2); ("Southeast", 2);
             ("Northwest", 2); ("Pacific", 2); ("Southwest", 2)]).
Proof. reflexivity. Qed.

Example twelve_teams_ids :
  List.map _id (teams (store TwelveTeams.run))
  = [44; 45; 46; 47; 48; 49; 50; 51; 52; 53; 54; 55]%N
  /\ next_id (store TwelveTeams.run) = 56%N.
Proof. split; reflexivity. Qed.

Example pacific_down_requests :
  requests TeamFixture.pacific_down_run
  = ["/nba-atlantic-team-list"; "/nba-central-team-list";
     "/nba-southeast-team-list"; "/nba-northwest-team-list";
     "/nba-pacific-team-list"; "/nba-southwest-team-list"].
Proof. reflexivity. Qed.

(** A team whose id is a number and whose short name is a boolean: both
    are stored as their text. *)
Example numbered_team_stored :
  List.map (fun d => (Team.apiTeamId (fields d), Team.name (fields d),
                      Team.shortName (fields d), Team.abbrev (fields d)))
           (teams (store TeamFixture.atlantic_only_run))
  = [(VStr "7", VStr "Boston Celtics", VStr "true", VUndefined)].
Proof. reflexivity. Qed.

(** A game whose away team is [null]: the snapshot has no name and the
    score 0. *)
Example game_without_away_team :
  List.map (fun d => (Game.name (Game.awayTeam (fields d)),
                      Game.score (Game.awayTeam (fields d)),
                      Game.score (Game.homeTeam (fields d))))
           (games GameFixture.after_saturday)
  = [(VUndefined, Num (Double false 0 0), Num (Double false 101 0))].
Proof. reflexivity. Qed.

(** The dated endpoint follows the calendar: the same upstream answers
    serve one list on Saturday and another on Sunday. *)
Example games_of_the_day :
  upstream GameFixture.sunday = upstream GameFixture.saturday
  /\ requests (populate_games Fixture.clock GameFixture.saturday
                 PlayerFixture.empty_store)
     = ["/games"; "/schedule"; "/games?date=2024-03-09"]
  /\ List.map (fun d => Game.apiGameId (fields d))
       (games GameFixture.after_saturday) = [VStr "g1"]
  /\ List.map (fun d => Game.apiGameId (fields d))
       (games GameFixture.after_sunday) = [VStr "g2"].
Proof. repeat split. Qed.

(** A game without a date: its date is an Invalid Date, the insert is
    refused after the collection has been cleared. *)
Example game_without_date :
  status (reply (populate_games Fixture.clock
                   (GameFixture.serving
                      [GameFixture.game "g1"; GameFixture.undated])
                   Fixture.league)) = 500
  /\ store (populate_games Fixture.clock
              (GameFixture.serving
                 [GameFixture.game "g1"; GameFixture.undated])
              Fixture.league)
     = mkStore (players Fixture.league) (teams Fixture.league) [] 10%N.
Proof. split; reflexivity. Qed.

(** Numbers read from strings and texts of numbers. *)
Example numbers_and_texts :
  List.map Number_of_string ["101"; " 98.5 "; "0x1F"; "1e3"; ""; "12px"]
  = [Some (Double false 101 0); Some (Double false 197 (-1));
     Some (Double false 31 0); Some (Double false 125 3);
     Some (Double false 0 0); None]
  /\ List.map number_text [76; -3; 9007199254740993; 1000000000000000000000]%Z
     = ["76"; "-3"; "9007199254740992"; "1e+21"].
Proof. split; vm_compute; reflexivity. Qed.
(** * Further properties of the routes *)

(** ** Sorting, limits and samples *)

Section SortFacts.
Context {F : Type} (le : doc F -> doc F -> bool).
Hypothesis le_total : forall a b, le a b = false -> le b a = true.

Lemma insert_sorted_perm (d : doc F) (l : list (doc F)) :
  Permutation (insert_sorted le d l) (d :: l).
Proof.
  induction l as [|x l IH]; simpl; [reflexivity|].
  destruct (le d x); [reflexivity|].
  rewrite IH. apply perm_swap.
Qed.

Lemma sort_perm (l : list (doc F)) : Permutation (sort le l) l.
Proof.
  induction l as [|x l IH]; simpl; [reflexivity|].
  rewrite insert_sorted_perm. now constructor.
Qed.

Lemma insert_sorted_in_order (d : doc F) (l : list (doc F)) :
  in_order le l -> in_order le (insert_sorted le d l).
Proof.
  unfold in_order. induction l as [|x l IH]; intros H; simpl.
  - repeat constructor.
  - destruct (le d x) eqn:E.
    + constructor; [exact H | now constructor].
    + apply Sorted_inv in H as [Hl Hx].
      constructor; [now apply IH|].
      destruct l as [|y l]; simpl.
      * constructor. now apply le_total.
      * destruct (le d y); constructor.
        -- now apply le_total.
        -- now apply HdRel_inv in Hx.
Qed.

Lemma sort_in_order (l : list (doc F)) : in_order le (sort le l).
Proof.
  induction l as [|x l IH]; simpl; [constructor|].
  now apply insert_sorted_in_order.
Qed.

Hypothesis le_trans :
  forall a b c, le a b = true -> le b c = true -> le a c = true.

Lemma sort_strongly (l : list (doc F)) :
  StronglySorted (fun a b => le a b = true) (sort le l).
Proof.
  apply Sorted_StronglySorted; [|apply sort_in_order].
  intros a b c. apply le_trans.
Qed.

(** The first [k] of a sorted list come before all the others. *)
Lemma firstn_before_skipn (k : nat) (l : list (doc F)) :
  StronglySorted (fun a b => le a b = true) l ->
  forall a b, In a (firstn k l) -> In b (skipn k l) -> le a b = true.
Proof.
  revert l. induction k as [|k IH]; intros l H a b Ha Hb; [contradiction|].
  destruct l as [|x l]; [contradiction|].
  apply StronglySorted_inv in H as [Hl Hx]. simpl in Ha, Hb.
  destruct Ha as [<-|Ha].
  - rewrite Forall_forall in Hx. apply Hx.
    rewrite <- (firstn_skipn k l). apply in_or_app. now right.
  - now apply (IH l).
Qed.

End SortFacts.

Lemma bson_leb_total (a b : value) :
  bson_leb a b = false -> bson_leb b a = true.
Proof.
  destruct a, b; simpl; intros H; try discriminate H; try reflexivity.
  - destruct b, b0; simpl in *; auto.
  - apply Z.leb_gt in H. apply Z.leb_le. lia.
  - rewrite (String.compare_antisym s0 s).
    destruct (String.compare s s0); simpl; auto; discriminate.
Qed.

Lemma Z_geb_total (x y : Z) : (y <=? x)%Z = false -> (x <=? y)%Z = true.
Proof. intros H. apply Z.leb_gt in H. apply Z.leb_le. lia. Qed.

Lemma time_leb_total tv (a b : Game.js_date) :
  time_leb tv a b = false -> time_leb tv b a = true.
Proof.
  destruct a as [x], b as [y]. simpl.
  destruct (tv x), (tv y); try discriminate; try reflexivity.
  apply Z_geb_total.
Qed.

Lemma time_leb_trans tv (a b c : Game.js_date) :
  time_leb tv a b = true -> time_leb tv b c = true -> time_leb tv a c = true.
Proof.
  destruct a as [x], b as [y], c as [z]. simpl.
  destruct (tv x), (tv y), (tv z); try discriminate; try reflexivity.
  rewrite !Z.leb_le. lia.
Qed.

Section SortLimit.
Context {F : Type} (le : doc F -> doc F -> bool).
Hypothesis le_total : forall a b, le a b = false -> le b a = true.
Hypothesis le_trans :
  forall a b c, le a b = true -> le b c = true -> le a c = true.

Lemma strongly_firstn (k : nat) (l : list (doc F)) :
  StronglySorted (fun a b => le a b = true) l ->
  StronglySorted (fun a b => le a b = true) (firstn k l).
Proof.
  revert l. induction k as [|k IH]; intros l H; [constructor|].
  destruct l as [|x l]; [constructor|].
  apply StronglySorted_inv in H as [Hl Hx]. simpl.
  constructor; [now apply IH | now apply Forall_firstn].
Qed.

(** [.sort(...).limit(k)]: the [k] first of the order, in order, the
    documents left out coming after every one of them. *)
Lemma sort_limit_top (k : nat) (l : list (doc F)) :
  let top := limit k (sort le l) in
  let rest := skipn k (sort le l) in
  Permutation (top ++ rest) l
  /\ List.length top = Nat.min k (List.length l)
  /\ in_order le top
  /\ forall a b, In a top -> In b rest -> le a b = true.
Proof.
  cbv zeta. unfold limit. repeat split.
  - rewrite firstn_skipn. apply sort_perm.
  - rewrite length_firstn. f_equal.
    apply Permutation_length, sort_perm.
  - apply StronglySorted_Sorted, strongly_firstn.
    now apply sort_strongly.
  - apply firstn_before_skipn. now apply sort_strongly.
Qed.

End SortLimit.

Lemma bson_leb_text (a b : value) :
  is_text a -> is_text b -> bson_leb a b = text_leb a b.
Proof.
  destruct a, b; simpl; try contradiction; try reflexivity.
Qed.

(** A list in the order [le] is in any order that agrees with [le] on its
    members. *)
Lemma in_order_among {F} (le le' : doc F -> doc F -> bool)
    (l : list (doc F)) :
  in_order le l ->
  Forall (fun a => forall b, In b l -> le a b = true -> le' a b = true) l ->
  in_order le' l.
Proof.
  intros Hs Hall. unfold in_order in *.
  induction Hs as [|a l Hl IH Hd]; [constructor|].
  apply Forall_cons_iff in Hall as [Ha Hall].
  constructor.
  - apply IH. eapply Forall_impl; [|exact Hall].
    cbv beta. intros x Hx b Hb. apply Hx. now right.
  - destruct Hd as [|b l' Hab]; constructor.
    apply Ha; [right; now left | exact Hab].
Qed.

(** X1. GET /api/players and GET /api/teams, the names being strings or
    absent as the schemas have them: the reply lists every document of the
    collection exactly once, the documents without a name first, then the
    others in the byte order of their names. *)
Theorem lists_are_sorted_by_name :
  forall (s : Store),
    text_named_players s -> text_named_teams s ->
    (exists l, get_players s = json_list l
               /\ Permutation l (players s)
               /\ in_order by_name_players l)
    /\ (exists l, get_teams s = json_list l
                  /\ Permutation l (teams s)
                  /\ in_order by_name_teams l).
Proof.
  intros s HP HT. split; eexists; (split; [reflexivity|]); split.
  - apply sort_perm.
  - eapply in_order_among.
    + apply (sort_in_order
               (fun a b => bson_leb (player_name a) (player_name b))).
      intros a b. apply bson_leb_total.
    + apply Forall_forall. intros a Ha b Hb H.
      unfold text_named_players in HP. rewrite Forall_forall in HP.
      apply (Permutation_in _ (sort_perm _ _)) in Ha, Hb.
      unfold by_name_players. rewrite <- bson_leb_text; [exact H| |];
        [apply (HP a Ha) | apply (HP b Hb)].
  - apply sort_perm.
  - eapply in_order_among.
    + apply (sort_in_order
               (fun a b => bson_leb (team_name a) (team_name b))).
      intros a b. apply bson_leb_total.
    + apply Forall_forall. intros a Ha b Hb H.
      unfold text_named_teams in HT. rewrite Forall_forall in HT.
      apply (Permutation_in _ (sort_perm _ _)) in Ha, Hb.
      unfold by_name_teams. rewrite <- bson_leb_text; [exact H| |];
        [apply (HT a Ha) | apply (HT b Hb)].
Qed.

(** The league listed by name: the players and the teams come out in the
    byte order of their names, which is not the order of the
    collections. *)
Lemma lists_are_sorted_by_name_witness :
  ((exists l, get_players Fixture.league = json_list l
              /\ Permutation l (players Fixture.league)
              /\ in_order by_name_players l)
   /\ (exists l, get_teams Fixture.league = json_list l
                 /\ Permutation l (teams Fixture.league)
                 /\ in_order by_name_teams l))
  /\ option_map (fun p => match p with
                          | Many l => List.map (fun d => (_id d, player_name d)) l
                          | One d => []
                          end) (data (get_players Fixture.league))
     = Some [(3%N, VStr "Giannis Antetokounmpo"); (2%N, VStr "LeBron James");
             (1%N, VStr "Stephen Curry")]
  /\ option_map (fun p => match p with
                          | Many l => List.map (fun d => (_id d, team_name d)) l
                          | One d => []
                          end) (data (get_teams Fixture.league))
     = Some [(5%N, VStr "Golden State Warriors"); (6%N, VStr "LA Clippers");
             (4%N, VStr "Los Angeles Lakers")].
Proof.
  split; [|split; reflexivity].
  apply (lists_are_sorted_by_name Fixture.league); repeat constructor.
Defined.

Lemma more_points_total a b : more_points a b = false -> more_points b a = true.
Proof. apply Z_geb_total. Qed.

Lemma more_points_trans a b c :
  more_points a b = true -> more_points b c = true -> more_points a c = true.
Proof. unfold more_points. rewrite !Z.leb_le. lia. Qed.

(** X2. GET /api/players/top/10 returns [min 10 n] of the [n] stored
    players, in non-increasing order of points, and no player left out has
    more points than a returned one. *)
Theorem top_players_are_top :
  forall (s : Store),
    exists top rest,
      top_players s = json_list top
      /\ Permutation (top ++ rest) (players s)
      /\ List.length top = Nat.min 10 (List.length (players s))
      /\ in_order more_points top
      /\ forall a b, In a top -> In b rest ->
           (Player.points (fields b) <= Player.points (fields a))%Z.
Proof.
  intros s.
  destruct (sort_limit_top more_points more_points_total more_points_trans
              10 (players s)) as (Hp & Hl & Ho & Ht).
  eexists. eexists. split; [reflexivity|]. repeat split; try eassumption.
  intros a b Ha Hb. apply Z.leb_le. exact (Ht a b Ha Hb).
Qed.

(** X3. GET /api/games lists every stored game exactly once, latest
    first; GET /api/games/latest returns [min 10 n] of the [n] stored
    games, latest first, and no game left out is later than a returned
    one. *)
Theorem games_latest_first :
  forall (time_value : value -> option Z) (s : Store),
    (exists l, get_games time_value s = json_list l
               /\ Permutation l (games s)
               /\ in_order (not_earlier time_value) l)
    /\ (exists latest rest,
          latest_games time_value s = json_list latest
          /\ Permutation (latest ++ rest) (games s)
          /\ List.length latest = Nat.min 10 (List.length (games s))
          /\ in_order (not_earlier time_value) latest
          /\ forall a b, In a latest -> In b rest ->
               not_earlier time_value a b = true).
Proof.
  intros tv s.
  assert (Htot : forall a b, not_earlier tv a b = false ->
                             not_earlier tv b a = true)
    by (intros a b; apply time_leb_total).
  assert (Htr : forall a b c, not_earlier tv a b = true ->
                  not_earlier tv b c = true -> not_earlier tv a c = true)
    by (intros a b c H1 H2; exact (time_leb_trans tv _ _ _ H2 H1)).
  split.
  - eexists. split; [reflexivity|]. split; [apply sort_perm|].
    now apply (sort_in_order (not_earlier tv)).
  - destruct (sort_limit_top (not_earlier tv) Htot Htr 10 (games s))
      as (Hp & Hl & Ho & Ht).
    eexists. eexists. split; [reflexivity|]. repeat split; eassumption.
Qed.

Lemma on_date_iff date (g : doc Game.t) :
  on_date date g = true <-> Game.dateFormatted (fields g) = VStr date.
Proof.
  unfold on_date. destruct (Game.dateFormatted (fields g)); split;
    try discriminate.
  - intros H. apply String.eqb_eq in H. now subst.
  - intros [= ->]. apply String.eqb_refl.
Qed.

(** X4. GET /api/games/date/:date, the formatted dates being strings or
    absent as the schema has them: the reply holds exactly the stored
    games whose formatted date is the requested string, each once,
    earliest first; a game with another formatted date is never
    returned. *)
Theorem games_by_date_exact :
  forall (time_value : value -> option Z) (date : string) (s : Store),
    text_dated_games s ->
    exists l,
      games_by_date time_value date s = json_list l
      /\ Permutation l (filter (on_date date) (games s))
      /\ in_order (not_later time_value) l
      /\ forall g, In g l <->
           In g (games s) /\ Game.dateFormatted (fields g) = VStr date.
Proof.
  intros tv date s _. eexists. split; [reflexivity|].
  assert (Hp : Permutation
                 (sort (not_later tv) (filter (on_date date) (games s)))
                 (filter (on_date date) (games s))) by apply sort_perm.
  split; [exact Hp|]. split.
  - apply (sort_in_order (not_later tv)).
    intros a b. apply time_leb_total.
  - intros g. rewrite <- on_date_iff, <- filter_In. split; intros H.
    + eapply Permutation_in; [exact Hp | exact H].
    + eapply Permutation_in; [symmetry; exact Hp | exact H].
Qed.

(** The games of the league formatted '2024-03-09', by the clock of the
    examples: the two of that day, the earlier first, which is not their
    order in the collection; the game of the day before is left out. *)
Lemma games_by_date_exact_witness :
  (exists l,
     games_by_date Fixture.clock "2024-03-09" Fixture.league = json_list l
     /\ Permutation l (filter (on_date "2024-03-09") (games Fixture.league))
     /\ in_order (not_later Fixture.clock) l
     /\ forall g, In g l <->
          In g (games Fixture.league)
          /\ Game.dateFormatted (fields g) = VStr "2024-03-09")
  /\ List.map (fun d => (_id d, Game.apiGameId (fields d)))
       (games Fixture.league)
     = [(7%N, VStr "g3"); (8%N, VStr "g1"); (9%N, VStr "g2")]
  /\ option_map (fun p => match p with
                          | Many l =>
                              List.map (fun d => (_id d,
                                                  Game.apiGameId (fields d))) l
                          | One d => []
                          end)
       (data (games_by_date Fixture.clock "2024-03-09" Fixture.league))
     = Some [(9%N, VStr "g2"); (7%N, VStr "g3")].
Proof.
  split; [|split; reflexivity].
  apply (games_by_date_exact Fixture.clock "2024-03-09" Fixture.league).
  repeat constructor.
Defined.

Section Sample.
Context {F : Type}.

Lemma remove_at_perm (i : nat) (pool : list (doc F)) (d0 : doc F) :
  i < List.length pool ->
  Permutation (nth i pool d0 :: remove_at i pool) pool.
Proof.
  revert i. induction pool as [|x pool IH]; intros i Hi; [simpl in Hi; lia|].
  destruct i as [|i]; simpl; [reflexivity|].
  simpl in Hi. rewrite perm_swap. constructor. apply IH. lia.
Qed.

Lemma sample_perm (rng : list nat) (size : nat) (pool : list (doc F)) :
  exists rest,
    Permutation (sample rng size pool ++ rest) pool
    /\ List.length (sample rng size pool)
       = Nat.min size (List.length pool).
Proof.
  revert rng pool. induction size as [|size IH]; intros rng pool.
  - exists pool. split; reflexivity.
  - destruct pool as [|d0 pool']; [exists []; split; reflexivity|].
    set (pool := d0 :: pool').
    set (i := hd 0 rng mod List.length pool).
    assert (Hi : i < List.length pool)
      by (apply Nat.mod_upper_bound; discriminate).
    pose proof (remove_at_perm i pool d0 Hi) as Hp.
    destruct (IH (tl rng) (remove_at i pool)) as (rest & Hrest & Hlen).
    exists rest.
    change (sample rng (S size) pool)
      with (nth i pool d0 :: sample (tl rng) size (remove_at i pool)).
    split.
    + simpl. eapply Permutation_trans; [|exact Hp]. now constructor.
    + cbn [List.length]. rewrite Hlen.
      apply Permutation_length in Hp. cbn [List.length] in Hp.
      rewrite <- Hp. reflexivity.
Qed.

End Sample.

(** X5. GET /api/teams/random/10, whatever the draws: the reply holds
    [min 10 n] documents, [n] being the number of stored teams, and every
    one of them is a stored team; its count is that number. *)
Theorem random_teams_sample :
  forall (rng : list nat) (s : Store),
    exists l,
      random_teams rng s = json_list l
      /\ List.length l = Nat.min 10 (List.length (teams s))
      /\ (forall t, In t l -> In t (teams s))
      /\ count (random_teams rng s)
         = Some (Nat.min 10 (List.length (teams s))).
Proof.
  intros rng s.
  destruct (sample_perm rng 10 (teams s)) as (rest & Hp & Hl).
  exists (sample rng 10 (teams s)).
  split; [reflexivity|]. split; [exact Hl|]. split.
  - intros t Ht. apply (Permutation_in t Hp). apply in_or_app. now left.
  - unfold random_teams, json_list. cbn [count]. now rewrite Hl.
Qed.

(** ** Ids: rendering and cast *)

Lemma hex_digit_hex_char (d : N) :
  (d < 16)%N -> hex_digit (hex_char d) = Some d.
Proof.
  intros H. destruct d as [|p]; [reflexivity|].
  do 4 (destruct p as [p|p|]; try reflexivity; try lia).
Qed.

Lemma length_hex_digits (n : nat) :
  forall o acc,
    String.length (hex_digits n o acc) = n + String.length acc.
Proof.
  induction n as [|n IH]; intros o acc; [reflexivity|].
  simpl. rewrite IH. simpl. lia.
Qed.

Lemma parse_hex_hex_digits (n : nat) :
  forall o a acc,
    parse_hex a (hex_digits n o acc)
    = parse_hex (a * 16 ^ N.of_nat n + o mod 16 ^ N.of_nat n)%N acc.
Proof.
  induction n as [|n IH]; intros o a acc.
  - simpl. rewrite N.mod_1_r. f_equal. lia.
  - cbn [hex_digits]. rewrite IH. cbn [parse_hex].
    rewrite hex_digit_hex_char
      by (apply N.mod_upper_bound; discriminate).
    f_equal. rewrite Nat2N.inj_succ, N.pow_succ_r'.
    rewrite (N.Div0.mod_mul_r o 16). lia.
Qed.

(** The cast reads back what [toHexString] wrote. *)
Lemma cast_toHexString (o : ObjectId) :
  fits_ObjectId o -> castObjectId (toHexString o) = Some o.
Proof.
  intros H. unfold castObjectId, toHexString.
  rewrite length_hex_digits. cbn [Nat.add String.length Nat.eqb].
  rewrite parse_hex_hex_digits. cbn [parse_hex]. f_equal.
  change (16 ^ N.of_nat 24)%N with (2 ^ 96)%N.
  rewrite N.mod_small by exact H. lia.
Qed.
Lemma findById_toHexString {F} (model : string) (coll : list (doc F))
    (d : doc F) :
  NoDup (List.map _id coll) -> In d coll -> fits_ObjectId (_id d) ->
  findById model (toHexString (_id d)) coll = Normal (Some d).
Proof.
  intros Hnd Hin Hfit. unfold findById.
  rewrite (cast_toHexString _ Hfit). now rewrite (find_unique _ _ Hnd Hin).
Qed.

(** X6. Round trip of an id: with the ids of a collection pairwise
    distinct and of 96 bits, the hexadecimal string under which a list
    reply shows a stored player or team, sent to get by id, brings back
    exactly that document. *)
Theorem get_by_id_round_trip :
  forall (s : Store),
    NoDup (List.map _id (players s)) ->
    NoDup (List.map _id (teams s)) ->
    (forall p, In p (players s) -> fits_ObjectId (_id p) ->
               get_player_by_id (toHexString (_id p)) s = json_one p)
    /\ (forall t, In t (teams s) -> fits_ObjectId (_id t) ->
                  get_team_by_id (toHexString (_id t)) s = json_one t).
Proof.
  intros s HP HT. split.
  - intros p Hin Hfit. unfold get_player_by_id.
    now rewrite (findById_toHexString "Player" _ _ HP Hin Hfit).
  - intros t Hin Hfit. unfold get_team_by_id.
    now rewrite (findById_toHexString "Team" _ _ HT Hin Hfit).
Qed.

Lemma get_by_id_round_trip_witness :
  toHexString 42%N = "00000000000000000000002a"
  /\ get_player_by_id (toHexString 42%N) Fixture.small_store
     = json_one (mkDoc 42%N 1700000000000%Z Fixture.lebron).
Proof.
  split; [reflexivity|].
  assert (HP : NoDup (List.map _id (players Fixture.small_store))).
  { simpl. constructor; [intros [] | constructor]. }
  assert (HT : NoDup (List.map _id (teams Fixture.small_store))).
  { simpl. constructor; [intros [] | constructor]. }
  apply (proj1 (get_by_id_round_trip Fixture.small_store HP HT)
           (mkDoc 42%N 1700000000000%Z Fixture.lebron)).
  - now left.
  - unfold fits_ObjectId. simpl. reflexivity.
Defined.

(** ** The upstream client *)

(** X7. [fetchFromRapidAPI] returns a payload exactly when the HTTP client
    answers with a truthy body whose [status] is the string 'success', and
    the payload is then the body's [response]; when it throws, the message
    is the client's own or 'Invalid API response'. *)
Theorem fetch_outcomes :
  forall (env : Env) (endpoint : string),
    (forall payload,
       fetchFromRapidAPI env endpoint = Normal payload <->
       exists body,
         upstream env endpoint = Response body
         /\ truthy body = true
         /\ get body "status" = Normal (VStr "success")
         /\ get body "response" = Normal payload)
    /\ (forall e,
          fetchFromRapidAPI env endpoint = Throw e ->
          (exists m, upstream env endpoint = Rejected m /\ e = Error m)
          \/ e = Error "Invalid API response").
Proof.
  intros env endpoint. unfold fetchFromRapidAPI.
  destruct (upstream env endpoint) as [m|body].
  - split.
    + intros payload. split; [discriminate|].
      intros (b & H & _). discriminate H.
    + intros e [= <-]. left. now exists m.
  - destruct (truthy body) eqn:Ht.
    + assert (Hst : exists st, get body "status" = Normal st)
        by (destruct body; try discriminate Ht; eexists; reflexivity).
      destruct Hst as [st Hst]. rewrite Hst. cbn [bind].
      assert (Hrs : exists rs, get body "response" = Normal rs)
        by (destruct body; try discriminate Ht; eexists; reflexivity).
      destruct Hrs as [rs Hrs]. rewrite Hrs.
      destruct (is_string "success" st) eqn:Es.
      * assert (st = VStr "success").
        { destruct st; try discriminate Es. simpl in Es.
          apply String.eqb_eq in Es. now subst. }
        subst st. split.
        -- intros payload. split.
           ++ intros [= <-]. exists body. auto.
           ++ intros (b & [= <-] & _ & _ & Hr). congruence.
        -- discriminate.
      * split.
        -- intros payload. split; [discriminate|].
           intros (b & [= <-] & _ & Hs & _).
           rewrite Hst in Hs. injection Hs as ->. discriminate Es.
        -- intros e [= <-]. now right.
    + split.
      * intros payload. split; [discriminate|].
        intros (b & [= <-] & Hb & _). congruence.
      * intros e [= <-]. now right.
Qed.

(** ** Populate players and games: what is read from the payload *)

Lemma playerSchema_of_storable (ups : list value) :
  Forall player_storable ups ->
  Forall readable ups
  /\ exists docs,
       mapM playerSchema (List.map player_of ups) = Normal docs
       /\ List.length docs = List.length ups.
Proof.
  intros H. split.
  - eapply Forall_impl; [|exact H]. now intros up [Hr _].
  - rewrite mapM_map.
    apply (mapM_all (fun up => playerSchema (player_of up))
             (fun up => forallb takes_text (player_texts up) = true)
             playerSchema_player_of_takes).
    eapply Forall_impl; [|exact H]. now intros up [_ Ht].
Qed.

Lemma players_from_populates env s reqs data ups :
  get data "playerList" = Normal (VArr ups) ->
  ups <> [] -> Forall player_storable ups ->
  let o := players_from env s reqs data in
  success (reply o) = true
  /\ count (reply o) = Some (List.length ups)
  /\ List.length (players (store o)) = List.length ups
  /\ requests o = reqs.
Proof.
  intros Hl Hne Hall. cbv zeta.
  destruct (playerSchema_of_storable ups Hall) as (Hr & docs & Hdocs & Hlen).
  rewrite (players_from_runs env s reqs data ups Hl Hne Hr), Hdocs.
  cbn. rewrite length_fresh_docs, Hlen. repeat split.
Qed.

Lemma players_from_succeeds_iff env s reqs data :
  success (reply (players_from env s reqs data)) = true <->
  exists ups,
    get data "playerList" = Normal (VArr ups)
    /\ ups <> [] /\ Forall player_storable ups.
Proof.
  split.
  - intros H.
    destruct (players_from_success env s reqs data H)
      as (ups & docs & Hl & Hne & Hr & Hm & _).
    exists ups. split; [exact Hl|]. split; [exact Hne|].
    rewrite mapM_map in Hm.
    pose proof (mapM_normal_all (fun up => playerSchema (player_of up))
                  (fun up => forallb takes_text (player_texts up) = true)
                  playerSchema_player_of_refuses ups docs
                  (fun up => texts_dec (player_texts up)) Hm) as Ht.
    unfold player_storable. apply Forall_and; assumption.
  - intros (ups & Hl & Hne & Hall).
    apply (players_from_populates env s reqs data ups Hl Hne Hall).
Qed.

Lemma gameSchema_game_of tv (up : value) (r : Game.t) :
  gameSchema tv (game_of up) = Normal r ->
  (tv (read up "date") <> None
   /\ forallb takes_text (game_texts up) = true
   /\ forallb takes_number (game_scores up) = true)
  /\ forall o now, readable up -> game_normalized tv up (mkDoc o now r).
Proof.
  intros H. apply gameSchema_normal in H.
  destruct H as (Hid & Hd & Hf & Hs & Hh & Ha & Hv).
  cbn [game_of Game.apiGameId Game.date Game.dateFormatted Game.status
       Game.homeTeam Game.awayTeam Game.venue] in *.
  apply castDate_some in Hd as [Hd Htv].
  apply sideSchema_normal in Hh, Ha.
  cbn [side_of_team Game.id Game.name Game.abbrev Game.logo Game.score]
    in Hh, Ha.
  destruct Hh as (Hh1 & Hh2 & Hh3 & Hh4 & Hh5).
  destruct Ha as (Ha1 & Ha2 & Ha3 & Ha4 & Ha5).
  split; [split; [exact Htv|split]|].
  - cbn [game_texts forallb]. rewrite !andb_true_iff, !takes_text_cast.
    repeat (split; [eexists; eassumption|]). reflexivity.
  - cbn [game_scores forallb]. rewrite !andb_true_iff, !takes_number_cast.
    repeat (split; [eexists; eassumption|]). reflexivity.
  - intros o now Hup. unfold game_normalized, side_normalized. cbn [fields].
    repeat split; try assumption; apply Hup.
Qed.

Lemma gameSchema_game_of_takes (tv : value -> option Z) (up : value) :
  tv (read up "date") <> None
  /\ forallb takes_text (game_texts up) = true
  /\ forallb takes_number (game_scores up) = true ->
  exists r, gameSchema tv (game_of up) = Normal r.
Proof.
  intros (Hd & Ht & Hn).
  cbn [game_texts forallb] in Ht. cbn [game_scores forallb] in Hn.
  rewrite !andb_true_iff, !takes_text_cast in Ht.
  rewrite !andb_true_iff, !takes_number_cast in Hn.
  destruct Ht as ([? E1] & [? E2] & [? E3] & [? E4] & [? E5] & [? E6]
                  & [? E7] & [? E8] & [? E9] & [? E10] & [? E11] & [? E12]
                  & _).
  destruct Hn as ([? N1] & [? N2] & _).
  unfold gameSchema, sideSchema, castDate.
  cbn [game_of side_of_team Game.apiGameId Game.date Game.dateFormatted
       Game.status Game.homeTeam Game.awayTeam Game.venue Game.id Game.name
       Game.abbrev Game.logo Game.score].
  destruct (tv (read up "date")); [|now elim Hd].
  rewrite E1, E2, E3, E4, E5, E6, E7, E8, E9, E10, E11, E12, N1, N2.
  cbn. eauto.
Qed.

(** The route on a list that is a non-empty array of readable records. *)
Lemma games_from_runs tv env s reqs data ups :
  get data "gameList" = Normal (VArr ups) ->
  ups <> [] -> Forall readable ups ->
  games_from tv env s reqs data
  = match mapM (gameSchema tv) (List.map game_of ups) with
    | Normal docs =>
        mkOutcome
          (populated ("Successfully populated "
                      ++ string_of_nat (List.length ups) ++ " games")
                     (List.length ups) None)
          (set_games s (fresh_docs (now env) (next_id s) docs)
                     (next_id s + N.of_nat (List.length ups))%N)
          reqs
    | Throw e =>
        mkOutcome (failure 500 "Error populating games" e)
                  (set_games s [] (next_id s)) reqs
    end.
Proof.
  intros Hl Hne Hall. unfold games_from.
  rewrite Hl, (none_listed_array ups Hne). cbn [array_map].
  rewrite (mapM_readable _ _ ups game_to_insert_readable Hall).
  unfold deleteMany. cbn [set_games games next_id].
  rewrite insertMany_cleared, !length_map.
  now destruct (mapM (gameSchema tv) (List.map game_of ups)).
Qed.

Lemma gameSchema_of_storable tv (ups : list value) :
  Forall (game_storable tv) ups ->
  Forall readable ups
  /\ exists docs,
       mapM (gameSchema tv) (List.map game_of ups) = Normal docs
       /\ List.length docs = List.length ups.
Proof.
  intros H. split.
  - eapply Forall_impl; [|exact H]. now intros up [Hr _].
  - rewrite mapM_map.
    apply (mapM_all (fun up => gameSchema tv (game_of up)) _
             (gameSchema_game_of_takes tv)).
    eapply Forall_impl; [|exact H]. now intros up [_ Ht].
Qed.

Lemma games_from_populates tv env s reqs data ups :
  get data "gameList" = Normal (VArr ups) ->
  ups <> [] -> Forall (game_storable tv) ups ->
  let o := games_from tv env s reqs data in
  success (reply o) = true
  /\ count (reply o) = Some (List.length ups)
  /\ List.length (games (store o)) = List.length ups
  /\ requests o = reqs.
Proof.
  intros Hl Hne Hall. cbv zeta.
  destruct (gameSchema_of_storable tv ups Hall) as (Hr & docs & Hdocs & Hlen).
  rewrite (games_from_runs tv env s reqs data ups Hl Hne Hr), Hdocs.
  cbn. rewrite length_fresh_docs, Hlen. repeat split.
Qed.

Lemma test_api_shows env endpoint data :
  test_api env endpoint = json_one data ->
  fetchFromRapidAPI env ("/" ++ endpoint) = Normal data.
Proof.
  unfold test_api.
  destruct (fetchFromRapidAPI env ("/" ++ endpoint)); [|discriminate].
  unfold json_one. now intros [= ->].
Qed.

(** X8. What the test route shows is what the populate routes read: when
    GET /api/admin/test-api/players (resp. games) answers with a payload
    whose player (resp. game) list is a non-empty array of records that
    can be stored (none of them [undefined] or [null], every String and
    Number path taking the value read for it, and for a game the date
    being no Invalid Date), populate players (resp. games) on the same
    upstream succeeds at its first request and reports as many records as
    the list holds. *)
Theorem test_api_previews_populate :
  forall (time_value : value -> option Z) (env : Env) (s : Store)
         (data : value) (ups : list value),
    ups <> [] ->
    (test_api env "players" = json_one data ->
     get data "playerList" = Normal (VArr ups) ->
     Forall player_storable ups ->
     let o := populate_players env s in
     success (reply o) = true
     /\ count (reply o) = Some (List.length ups)
     /\ List.length (players (store o)) = List.length ups
     /\ requests o = ["/players"])
    /\ (test_api env "games" = json_one data ->
        get data "gameList" = Normal (VArr ups) ->
        Forall (game_storable time_value) ups ->
        let o := populate_games time_value env s in
        success (reply o) = true
        /\ count (reply o) = Some (List.length ups)
        /\ List.length (games (store o)) = List.length ups
        /\ requests o = ["/games"]).
Proof.
  intros tv env s data ups Hne. split; intros Ht Hl Hall.
  - apply test_api_shows in Ht. simpl in Ht.
    unfold populate_players. rewrite Ht.
    now apply players_from_populates.
  - apply test_api_shows in Ht. simpl in Ht.
    unfold populate_games. rewrite Ht.
    now apply games_from_populates.
Qed.

(** The test route showing two games, one with numbers for ids and
    strings for scores: populate games stores the two of them in place of
    the three games of the league. *)
Lemma test_api_previews_populate_witness :
  (success (reply GameFixture.two_run) = true
   /\ count (reply GameFixture.two_run) = Some 2
   /\ List.length (games (store GameFixture.two_run)) = 2
   /\ requests GameFixture.two_run = ["/games"])
  /\ List.map (fun d => (Game.apiGameId (fields d),
                         Game.id (Game.homeTeam (fields d)),
                         Game.score (Game.homeTeam (fields d)),
                         Game.score (Game.awayTeam (fields d))))
       (games (store GameFixture.two_run))
     = [(VStr "g1", VStr "13", Num (Double false 101 0),
         Num (Double false 0 0));
        (VStr "7", VStr "13", Num (Double false 101 0),
         Num (Double false 197 (-1)))].
Proof.
  split; [|reflexivity].
  assert (Hne : [GameFixture.game "g1"; GameFixture.texted] <> [])
    by discriminate.
  assert (Hall : Forall (game_storable Fixture.clock)
                   [GameFixture.game "g1"; GameFixture.texted]).
  { repeat constructor; try discriminate; reflexivity. }
  apply (proj2 (test_api_previews_populate Fixture.clock GameFixture.two
                  Fixture.league
                  (VObj [("gameList",
                          VArr [GameFixture.game "g1"; GameFixture.texted])])
                  [GameFixture.game "g1"; GameFixture.texted] Hne));
    [reflexivity | reflexivity | exact Hall].
Defined.

(** X9. Populate players replies with a success exactly when a fetch of
    its chain answered with a payload whose player list is a non-empty
    array of records that can be stored: none of them [undefined] or
    [null], and every String path taking the value read for it. *)
Theorem populate_players_succeeds_iff :
  forall (env : Env) (s : Store),
    success (reply (populate_players env s)) = true <->
    exists data ups,
      players_answered env data
      /\ get data "playerList" = Normal (VArr ups)
      /\ ups <> [] /\ Forall player_storable ups.
Proof.
  intros env s. unfold populate_players, players_answered.
  destruct (fetchFromRapidAPI env "/players") as [d1|e1].
  - rewrite players_from_succeeds_iff. split.
    + intros (ups & H). exists d1, ups. auto.
    + intros (data & ups & [Hd|(e & He & _)] & Hrest);
        [injection Hd as ->; now exists ups | discriminate].
  - destruct (fetchFromRapidAPI env "/nba/players") as [d2|e2].
    + rewrite players_from_succeeds_iff. split.
      * intros (ups & H). exists d2, ups. split; [right; now exists e1|auto].
      * intros (data & ups & [H0|(e & _ & Hd)] & Hrest);
          [discriminate | injection Hd as ->; now exists ups].
    + split; [discriminate|].
      intros (data & ups & [H0|(e & _ & H0)] & _); discriminate.
Qed.

(** Two records that can be stored make a success; a record whose name is
    an object does not. *)
Lemma populate_players_succeeds_iff_witness :
  success (reply PlayerFixture.two_run) = true
  /\ success (reply (populate_players
                       (PlayerFixture.serving
                          [PlayerFixture.named; PlayerFixture.odd])
                       Fixture.league)) <> true.
Proof.
  split.
  - apply (proj2 (populate_players_succeeds_iff PlayerFixture.two
                    Fixture.league)).
    exists (VObj [("playerList",
                   VArr [PlayerFixture.named; PlayerFixture.numbered])]),
           [PlayerFixture.named; PlayerFixture.numbered].
    split; [left; reflexivity|]. split; [reflexivity|].
    split; [discriminate|].
    repeat constructor; discriminate.
  - intros H.
    apply (proj1 (populate_players_succeeds_iff _ _)) in H.
    destruct H as (data & ups & [Hd|(e & He & _)] & Hl & _ & Hall);
      [|discriminate He].
    injection Hd as <-. injection Hl as <-.
    inversion Hall as [|? ? _ Hodd]; subst.
    inversion Hodd as [|? ? [_ Ht] _]; subst.
    discriminate Ht.
Defined.

(** A record whose name is an object cannot be stored, and populate
    players fails on it after the clear. *)
Example odd_player_refused :
  ~ player_storable PlayerFixture.odd
  /\ status (reply (populate_players
                      (PlayerFixture.serving
                         [PlayerFixture.named; PlayerFixture.odd])
                      Fixture.league)) = 500
  /\ store (populate_players
              (PlayerFixture.serving [PlayerFixture.named; PlayerFixture.odd])
              Fixture.league)
     = mkStore [] (teams Fixture.league) (games Fixture.league) 10%N.
Proof.
  split; [|split; reflexivity].
  intros [_ H]. discriminate H.
Qed.

(** X10. Populate players, when a fetch of the chain succeeds and the
    player list of its payload is empty or missing: the reply is the 404
    no-data envelope and the store is exactly as it was. *)
Theorem populate_players_no_data :
  forall (env : Env) (s : Store) (data playerList : value),
    players_answered env data ->
    get data "playerList" = Normal playerList ->
    empty_or_missing playerList ->
    reply (populate_players env s)
    = mkResponse 404 false (Some "No players found in API response")
        None None None None
    /\ store (populate_players env s) = s.
Proof.
  intros env s data pl Hans Hpl Hempty.
  assert (Hfrom : forall reqs,
    players_from env s reqs data
    = mkOutcome (not_found "No players found in API response") s reqs).
  { intros reqs. unfold players_from.
    now rewrite Hpl, (none_listed_empty _ Hempty). }
  unfold populate_players.
  destruct Hans as [H1 | (e1 & H1 & H2)].
  - rewrite H1, Hfrom. now split.
  - rewrite H1, H2, Hfrom. now split.
Qed.

Lemma populate_players_no_data_witness :
  reply (populate_players NullFixture.nobody Fixture.small_store)
  = mkResponse 404 false (Some "No players found in API response")
      None None None None
  /\ store (populate_players NullFixture.nobody Fixture.small_store)
     = Fixture.small_store.
Proof.
  apply (populate_players_no_data NullFixture.nobody Fixture.small_store
           (VObj [("playerList", VArr [])]) (VArr [])).
  - left. reflexivity.
  - reflexivity.
  - right. reflexivity.
Defined.

(** X11. Populate players clears before it maps: when a fetch of the
    chain succeeds with a player list that is truthy, whose length is not
    0, and that is no array or holds [undefined] or [null], the reply is a
    500 failure envelope and the Player collection is left empty, its
    former documents gone; the other collections are as they were. *)
Theorem populate_players_clears_then_fails :
  forall (env : Env) (s : Store) (data playerList : value),
    players_answered env data ->
    get data "playerList" = Normal playerList ->
    truthy playerList = true ->
    get playerList "length" <> Normal (VNum 0) ->
    unmappable playerList ->
    let o := populate_players env s in
    (exists e, reply o = mkResponse 500 false
                          (Some "Error populating players") None None
                          (Some (Js.message e)) None)
    /\ players (store o) = []
    /\ teams (store o) = teams s
    /\ games (store o) = games s.
Proof.
  intros env s data pl Hans Hpl Ht Hlen Hun. cbv zeta.
  assert (Hfrom : forall reqs,
    exists e, players_from env s reqs data
    = mkOutcome (failure 500 "Error populating players" e)
        (set_players s [] (next_id s)) reqs).
  { intros reqs. unfold players_from.
    rewrite Hpl, (none_listed_something _ Ht Hlen).
    destruct (array_map_unmappable "data.playerList" pl player_to_insert
                player_to_insert_unreadable Hun) as [e ->].
    now exists e. }
  unfold populate_players.
  destruct Hans as [H1 | (e1 & H1 & H2)].
  - rewrite H1. destruct (Hfrom ["/players"]) as [e ->].
    split; [now exists e | repeat split].
  - rewrite H1, H2.
    destruct (Hfrom ["/players"; "/nba/players"]) as [e ->].
    split; [now exists e | repeat split].
Qed.

Lemma populate_players_clears_then_fails_witness :
  (exists e,
     reply (populate_players NullFixture.env Fixture.small_store)
     = mkResponse 500 false (Some "Error populating players") None None
         (Some (Js.message e)) None)
  /\ players (store (populate_players NullFixture.env Fixture.small_store))
     = []
  /\ teams (store (populate_players NullFixture.env Fixture.small_store))
     = teams Fixture.small_store
  /\ games (store (populate_players NullFixture.env Fixture.small_store))
     = games Fixture.small_store.
Proof.
  apply (populate_players_clears_then_fails NullFixture.env
           Fixture.small_store NullFixture.payload
           (VArr [PlayerFixture.named; VNull])).
  - left. reflexivity.
  - reflexivity.
  - reflexivity.
  - discriminate.
  - simpl. apply Exists_cons_tl. apply Exists_cons_hd.
    intros [_ H]. now apply H.
Defined.

(** X12. Populate games clears before it maps, in the same way: with a
    game list that is truthy, of a length other than 0, and no array or
    holding [undefined] or [null], the reply is a 500 failure envelope and
    the Game collection is left empty; the other collections are as they
    were. *)
Theorem populate_games_clears_then_fails :
  forall (time_value : value -> option Z) (env : Env) (s : Store)
         (data gameList : value),
    games_answered env data ->
    get data "gameList" = Normal gameList ->
    truthy gameList = true ->
    get gameList "length" <> Normal (VNum 0) ->
    unmappable gameList ->
    let o := populate_games time_value env s in
    (exists e, reply o = mkResponse 500 false
                          (Some "Error populating games") None None
                          (Some (Js.message e)) None)
    /\ games (store o) = []
    /\ players (store o) = players s
    /\ teams (store o) = teams s.
Proof.
  intros tv env s data gl Hans Hgl Ht Hlen Hun. cbv zeta.
  assert (Hfrom : forall reqs,
    exists e, games_from tv env s reqs data
    = mkOutcome (failure 500 "Error populating games" e)
        (set_games s [] (next_id s)) reqs).
  { intros reqs. unfold games_from.
    rewrite Hgl, (none_listed_something _ Ht Hlen).
    destruct (array_map_unmappable "data.gameList" gl game_to_insert
                game_to_insert_unreadable Hun) as [e ->].
    now exists e. }
  unfold populate_games.
  destruct Hans as [H1 | [(e1 & H1 & H2) | (e1 & e2 & H1 & H2 & H3)]].
  - rewrite H1. destruct (Hfrom ["/games"]) as [e ->].
    split; [now exists e | repeat split].
  - rewrite H1, H2.
    destruct (Hfrom ["/games"; "/schedule"]) as [e ->].
    split; [now exists e | repeat split].
  - rewrite H1, H2, H3.
    destruct (Hfrom ["/games"; "/schedule"; dated_endpoint env]) as [e ->].
    split; [now exists e | repeat split].
Qed.

(** On the league, whose Game collection holds three games: the game list
    holds [null], and the three games are gone. *)
Lemma populate_games_clears_then_fails_witness :
  ((exists e,
      reply (populate_games Fixture.clock NullFixture.env Fixture.league)
      = mkResponse 500 false (Some "Error populating games") None None
          (Some (Js.message e)) None)
   /\ games (store (populate_games Fixture.clock NullFixture.env
                      Fixture.league)) = []
   /\ players (store (populate_games Fixture.clock NullFixture.env
                        Fixture.league))
      = players Fixture.league
   /\ teams (store (populate_games Fixture.clock NullFixture.env
                      Fixture.league))
      = teams Fixture.league)
  /\ List.length (games Fixture.league) = 3.
Proof.
  split; [|reflexivity].
  apply (populate_games_clears_then_fails Fixture.clock NullFixture.env
           Fixture.league NullFixture.payload (VArr [VNull])).
  - left. reflexivity.
  - reflexivity.
  - reflexivity.
  - discriminate.
  - simpl. apply Exists_cons_hd. intros [_ H]. now apply H.
Defined.

(** ** Populate games: normal form of the records *)

Lemma games_normalized tv (now : Z) (o : ObjectId) (ups : list value)
    (docs : list Game.t) :
  Forall readable ups ->
  mapM (gameSchema tv) (List.map game_of ups) = Normal docs ->
  Forall2 (game_normalized tv) ups (fresh_docs now o docs).
Proof.
  intros Hall H. rewrite mapM_map in H. apply mapM_normal in H.
  revert o. induction H as [|up r ups docs Hr _ IH]; intros o.
  - constructor.
  - inversion Hall; subst. simpl. constructor; [|now apply IH].
    now apply (proj2 (gameSchema_game_of tv up r Hr)).
Qed.

Lemma games_from_normalized tv env s reqs data :
  success (reply (games_from tv env s reqs data)) = true ->
  (reply (games_from tv env s reqs data) = populated "No games found" 0 None
   /\ store (games_from tv env s reqs data) = s)
  \/ exists ups,
       get data "gameList" = Normal (VArr ups)
       /\ count (reply (games_from tv env s reqs data))
          = Some (List.length ups)
       /\ Forall2 (game_normalized tv) ups
            (games (store (games_from tv env s reqs data))).
Proof.
  intros H.
  assert (Hshape :
    (reply (games_from tv env s reqs data) = populated "No games found" 0 None
     /\ store (games_from tv env s reqs data) = s)
    \/ exists ups, get data "gameList" = Normal (VArr ups)
                   /\ ups <> [] /\ Forall readable ups).
  { revert H. unfold games_from.
    destruct (get data "gameList") as [gl|e]; [|discriminate].
    destruct (none_listed gl) as [[|]|e] eqn:En; try discriminate.
    { intros _. left. now split. }
    destruct (array_map "data.gameList" gl game_to_insert)
      as [l|e] eqn:Em; [|discriminate].
    intros _. right.
    destruct (listed_and_mapped _ gl _ l game_to_insert_unreadable En Em)
      as (ups & -> & Hne & Hall & _).
    now exists ups. }
  destruct Hshape as [Hn|(ups & Hl & Hne & Hall)]; [now left|].
  right. exists ups. split; [exact Hl|].
  rewrite (games_from_runs tv env s reqs data ups Hl Hne Hall) in *.
  destruct (mapM (gameSchema tv) (List.map game_of ups)) as [docs|e] eqn:Em;
    [|discriminate].
  split; [reflexivity|].
  cbn [store set_games games]. now apply games_normalized.
Qed.

(** X13. After a successful populate games, either the reply is the 'No
    games found' envelope and the store is as it was, or the Game
    collection holds, in order, one document per upstream game of the
    payload's list, the reply counts them, and each document is the normal
    form of its upstream game: the fields are those of the upstream game
    as a String path stores them (a number or a boolean as its text), the
    date is the [Date] made from the upstream date and is no Invalid Date,
    each team snapshot takes its fields from the upstream team (nothing
    when the team is missing) and its score is the upstream score as a
    Number path stores it (a numeric string as its number), 0 when the
    upstream score is falsy or missing. *)
Theorem populate_games_normalizes :
  forall (time_value : value -> option Z) (env : Env) (s : Store),
    success (reply (populate_games time_value env s)) = true ->
    (reply (populate_games time_value env s)
     = mkResponse 200 true (Some "No games found") (Some 0) None None None
     /\ store (populate_games time_value env s) = s)
    \/ exists data ups,
         games_answered env data
         /\ get data "gameList" = Normal (VArr ups)
         /\ count (reply (populate_games time_value env s))
            = Some (List.length ups)
         /\ Forall2 (game_normalized time_value) ups
              (games (store (populate_games time_value env s))).
Proof.
  intros tv env s. unfold populate_games, games_answered.
  destruct (fetchFromRapidAPI env "/games") as [d1|e1].
  { intros H. destruct (games_from_normalized _ _ _ _ _ H)
      as [Hn|(ups & Hl & Hc & Hall)]; [now left|].
    right. exists d1, ups. auto. }
  destruct (fetchFromRapidAPI env "/schedule") as [d2|e2].
  { intros H. destruct (games_from_normalized _ _ _ _ _ H)
      as [Hn|(ups & Hl & Hc & Hall)]; [now left|].
    right. exists d2, ups. split; [right; left; now exists e1 | auto]. }
  destruct (fetchFromRapidAPI env (dated_endpoint env)) as [d3|e3];
    [|discriminate].
  intros H. destruct (games_from_normalized _ _ _ _ _ H)
    as [Hn|(ups & Hl & Hc & Hall)]; [now left|].
  right. exists d3, ups. split; [right; right; now exists e1, e2 | auto].
Qed.

(** Populate games on the league, the upstream serving a game with a
    numeric score and no away team, and a game whose ids are numbers and
    whose scores are strings. *)
Lemma populate_games_normalizes_witness :
  ((reply GameFixture.two_run
    = mkResponse 200 true (Some "No games found") (Some 0) None None None
    /\ store GameFixture.two_run = Fixture.league)
   \/ exists data ups,
        games_answered GameFixture.two data
        /\ get data "gameList" = Normal (VArr ups)
        /\ count (reply GameFixture.two_run) = Some (List.length ups)
        /\ Forall2 (game_normalized Fixture.clock) ups
             (games (store GameFixture.two_run)))
  /\ List.map fields (games (store GameFixture.two_run))
     = [Game.mk (VStr "g1") (Game.NewDate (VStr "2024-03-09T19:30:00Z"))
          (VStr "2024-03-09") (VStr "Final")
          (Game.mkSide (VStr "13") (VStr "Lakers") VUndefined VUndefined
             (Num (Double false 101 0)))
          (Game.mkSide VUndefined VUndefined VUndefined VUndefined
             (Num (Double false 0 0)))
          VUndefined;
        Game.mk (VStr "7") (Game.NewDate (VStr "2024-03-10T01:00:00Z"))
          (VStr "2024-03-09") VUndefined
          (Game.mkSide (VStr "13") VUndefined VUndefined VUndefined
             (Num (Double false 101 0)))
          (Game.mkSide (VStr "2") VUndefined VUndefined VUndefined
             (Num (Double false 197 (-1))))
          VUndefined].
Proof.
  split; [|reflexivity].
  apply (populate_games_normalizes Fixture.clock GameFixture.two
           Fixture.league).
  reflexivity.
Defined.

(** ** Populate players: the chain *)

Lemma players_from_status env s reqs data :
  status (reply (players_from env s reqs data)) <> 404
  \/ (reply (players_from env s reqs data)
      = not_found "No players found in API response"
      /\ store (players_from env s reqs data) = s).
Proof.
  unfold players_from.
  destruct (get data "playerList") as [pl|e]; [|left; discriminate].
  destruct (none_listed pl) as [[|]|e]; try (left; discriminate).
  - right. now split.
  - destruct (array_map "data.playerList" pl player_to_insert);
      [|left; discriminate].
    destruct (insertMany _ _ _ _ _) as [[coll next]|e]; left; discriminate.
Qed.

Lemma players_from_requests env s reqs data :
  requests (players_from env s reqs data) = reqs.
Proof.
  unfold players_from.
  destruct (get data "playerList") as [pl|e]; [|reflexivity].
  destruct (none_listed pl) as [[|]|e]; try reflexivity.
  destruct (array_map "data.playerList" pl player_to_insert);
    [|reflexivity].
  now destruct (insertMany _ _ _ _ _) as [[coll next]|e].
Qed.

(** X14. Populate players requests '/players' and, only when that fetch
    fails, '/nba/players'; never anything else.  A reply with an [error]
    field and status 404 means the two fetches failed; the other 404 is
    the no-data envelope, which has no [error] field; in both cases the
    store is as it was. *)
Theorem populate_players_chain :
  forall (env : Env) (s : Store),
    let o := populate_players env s in
    requests o
    = match fetchFromRapidAPI env "/players" with
      | Normal _ => ["/players"]
      | Throw _ => ["/players"; "/nba/players"]
      end
    /\ (status (reply o) = 404 -> store o = s)
    /\ (status (reply o) = 404 /\ error (reply o) <> None <->
        exists e1 e2,
          fetchFromRapidAPI env "/players" = Throw e1
          /\ fetchFromRapidAPI env "/nba/players" = Throw e2).
Proof.
  intros env s o. subst o. unfold populate_players.
  destruct (fetchFromRapidAPI env "/players") as [d1|e1].
  { split; [apply players_from_requests|].
    destruct (players_from_status env s ["/players"] d1) as [H|[H Hs]].
    - split; [intros H4; contradiction|]. split.
      + intros [H4 _]. contradiction.
      + intros (? & ? & H1 & _). discriminate.
    - split; [intros _; exact Hs|]. split.
      + rewrite H. intros [_ He]. now elim He.
      + intros (? & ? & H1 & _). discriminate. }
  destruct (fetchFromRapidAPI env "/nba/players") as [d2|e2].
  { split; [apply players_from_requests|].
    destruct (players_from_status env s ["/players"; "/nba/players"] d2)
      as [H|[H Hs]].
    - split; [intros H4; contradiction|]. split.
      + intros [H4 _]. contradiction.
      + intros (? & ? & _ & H2). discriminate.
    - split; [intros _; exact Hs|]. split.
      + rewrite H. intros [_ He]. now elim He.
      + intros (? & ? & _ & H2). discriminate. }
  split; [reflexivity|]. split; [reflexivity|]. split.
  - intros _. now exists e1, e2.
  - intros _. split; [reflexivity | discriminate].
Qed.


(** ** Populate teams: all or nothing, tags and breakdown *)

Lemma team_records_dec env :
  forallb team_accepted (List.map snd (teams_of (listed env) divisions))
  = true
  \/ forallb team_accepted (List.map snd (teams_of (listed env) divisions))
     = false.
Proof. destruct (forallb _ _); auto. Qed.

(** X15. Populate teams ends in one of three ways: the 404 no-data
    envelope, the store being as it was; a 200 success, the Team
    collection being not empty and counted by the reply; or the 500
    failure envelope, the Team collection being left empty.  It never
    leaves a partly filled collection. *)
Theorem populate_teams_all_or_nothing :
  forall (env : Env) (s : Store),
    let o := populate_teams env s in
    (reply o = mkResponse 404 false
                 (Some "No teams found in API response")
                 None None None None
     /\ store o = s)
    \/ (status (reply o) = 200
        /\ success (reply o) = true
        /\ teams (store o) <> []
        /\ count (reply o) = Some (List.length (teams (store o))))
    \/ ((exists e, reply o = mkResponse 500 false
                               (Some "Error populating teams") None None
                               (Some (Js.message e)) None)
        /\ teams (store o) = []).
Proof.
  intros env s o. subst o.
  destruct (team_records env) as [|r recs] eqn:E.
  - left. rewrite populate_teams_runs, E. now split.
  - assert (Hne : team_records env <> []) by (rewrite E; discriminate).
    destruct (populate_teams_stores env s Hne) as [Hok Hko].
    cbv zeta in Hok, Hko. right.
    destruct (team_records_dec env) as [Hacc|Hacc].
    + left. destruct (Hok Hacc) as (docs & _ & Hlen & ->).
      cbn [reply store status success count populated set_teams teams].
      rewrite length_fresh_docs, Hlen. repeat split.
      rewrite E in Hlen. destruct docs; discriminate.
    + right. rewrite (Hko Hacc). split; [eexists|]; reflexivity.
Qed.

Lemma populate_teams_success env s :
  success (reply (populate_teams env s)) = true ->
  exists docs,
    Forall2 (fun dt r => team_stored (fst dt) (snd dt) r)
            (teams_of (listed env) divisions) docs
    /\ populate_teams env s
       = mkOutcome
           (populated ("Successfully populated "
                       ++ string_of_nat (List.length (team_records env))
                       ++ " teams from all 6 divisions")
              (List.length (team_records env))
              (Some (List.map (fun d => (name d, List.length (listed env d)))
                              divisions)))
           (set_teams s (fresh_docs (now env) (next_id s) docs)
              (next_id s + N.of_nat (List.length (team_records env)))%N)
           (List.map endpoint divisions).
Proof.
  intros H.
  destruct (team_records env) as [|r recs] eqn:E.
  - rewrite populate_teams_runs, E in H. discriminate H.
  - assert (Hne : team_records env <> []) by (rewrite E; discriminate).
    destruct (populate_teams_stores env s Hne) as [Hok Hko].
    cbv zeta in Hok, Hko. rewrite E in *.
    destruct (team_records_dec env) as [Hacc|Hacc].
    + destruct (Hok Hacc) as (docs & HF & _ & Ho). now exists docs.
    + rewrite (Hko Hacc) in H. discriminate H.
Qed.

(** X16. Whatever the upstream records carry, also a [divisionName] or a
    [conferenceName] of their own, every team stored by a successful
    populate teams has the name of one of the six divisions as division,
    the conference of that division as conference, and 0 wins and 0
    losses. *)
Theorem populate_teams_tags_every_team :
  forall (env : Env) (s : Store),
    success (reply (populate_teams env s)) = true ->
    Forall (fun t => exists d, In d divisions
                               /\ tagged d (fields t)
                               /\ Team.wins (fields t) = 0%Z
                               /\ Team.losses (fields t) = 0%Z)
           (teams (store (populate_teams env s))).
Proof.
  intros env s H.
  destruct (populate_teams_success env s H) as (docs & HF & ->).
  cbn [store set_teams teams].
  apply (Forall_fresh_docs
           (fun r => exists d, In d divisions /\ tagged d r
                               /\ Team.wins r = 0%Z /\ Team.losses r = 0%Z)).
  eapply Forall2_Forall_r; [|exact HF].
  intros dt r Hdt Hst. exists (fst dt). split.
  - now apply fst_teams_of in Hdt.
  - unfold team_stored in Hst. tauto.
Qed.

Lemma populate_teams_tags_every_team_witness :
  Forall (fun t => exists d, In d divisions
                             /\ tagged d (fields t)
                             /\ Team.wins (fields t) = 0%Z
                             /\ Team.losses (fields t) = 0%Z)
         (teams (store TwelveTeams.run)).
Proof.
  apply (populate_teams_tags_every_team TwelveTeams.env Fixture.small_store).
  reflexivity.
Defined.

Lemma count_stored_fresh nm now o (l : list Team.t) :
  count_stored nm (fresh_docs now o l)
  = List.length (filter (fun r => is_string nm (Team.division r)) l).
Proof.
  unfold count_stored. revert o.
  induction l as [|r l IH]; intros o; [reflexivity|].
  cbn [fresh_docs filter fields].
  destruct (is_string nm (Team.division r)); simpl; now rewrite IH.
Qed.

(** Number of the documents of division [nm] among those stored for the
    upstream teams [dts]. *)
Lemma count_stored_teams nm (dts : list (division * value))
    (docs : list Team.t) :
  Forall2 (fun dt r => team_stored (fst dt) (snd dt) r) dts docs ->
  List.length (filter (fun r => is_string nm (Team.division r)) docs)
  = List.length (filter (fun dt => name (fst dt) =? nm) dts).
Proof.
  induction 1 as [|dt r dts docs Hst _ IH]; [reflexivity|].
  cbn [filter].
  assert (E : is_string nm (Team.division r) = (name (fst dt) =? nm)).
  { destruct Hst as (_ & _ & _ & _ & _ & _ & _ & [Hd _] & _).
    rewrite Hd. reflexivity. }
  rewrite E. destruct (name (fst dt) =? nm); simpl; now rewrite IH.
Qed.

Lemma count_teams_of (L : division -> list value) nm (ds : list division) :
  List.length (filter (fun dt => name (fst dt) =? nm) (teams_of L ds))
  = list_sum (List.map (fun d => if name d =? nm then List.length (L d)
                                 else 0) ds).
Proof.
  unfold teams_of. induction ds as [|d ds IH]; [reflexivity|].
  cbn [flat_map List.map list_sum].
  rewrite filter_app, length_app, IH. f_equal.
  induction (L d) as [|t l IHl]; cbn [List.map filter fst].
  - now destruct (name d =? nm).
  - destruct (name d =? nm); [simpl; now rewrite IHl | exact IHl].
Qed.

(** X17. In every success reply of populate teams the breakdown lists the
    six divisions in their fixed order, gives for each the number of
    stored teams of that division, and sums to the count of the reply,
    which is the size of the Team collection. *)
Theorem populate_teams_breakdown :
  forall (env : Env) (s : Store),
    success (reply (populate_teams env s)) = true ->
    exists b,
      breakdown (reply (populate_teams env s)) = Some b
      /\ List.map fst b
         = ["Atlantic"; "Central"; "Southeast";
            "Northwest"; "Pacific"; "Southwest"]
      /\ Forall (fun e => snd e
                          = count_stored (fst e)
                              (teams (store (populate_teams env s)))) b
      /\ total b = List.length (teams (store (populate_teams env s)))
      /\ count (reply (populate_teams env s)) = Some (total b).
Proof.
  intros env s H.
  destruct (populate_teams_success env s H) as (docs & HF & ->).
  cbn [reply store breakdown count populated set_teams teams].
  eexists. split; [reflexivity|].
  assert (Htot : total (List.map (fun d => (name d, List.length (listed env d)))
                                 divisions)
                 = List.length (team_records env)).
  { unfold total, team_records. rewrite map_map. cbn [snd].
    rewrite length_flat_map. f_equal. apply map_ext.
    intros d. now rewrite length_map. }
  assert (Hlen : List.length docs = List.length (team_records env)).
  { apply Forall2_length in HF. rewrite <- HF.
    unfold team_records. rewrite team_records_teams_of.
    now rewrite length_map. }
  split; [reflexivity|]. split; [|split].
  - apply Forall_forall. intros [nm c] Hin. cbn [fst snd].
    rewrite count_stored_fresh, (count_stored_teams nm _ _ HF),
      count_teams_of.
    cbn in Hin.
    repeat (destruct Hin as [Hin|Hin];
            [injection Hin as <- <-; cbn; lia|]).
    contradiction.
  - now rewrite length_fresh_docs, Hlen.
  - now rewrite Htot.
Qed.

Lemma populate_teams_breakdown_witness :
  exists b,
    breakdown (reply TeamFixture.pacific_down_run) = Some b
    /\ List.map fst b
       = ["Atlantic"; "Central"; "Southeast";
          "Northwest"; "Pacific"; "Southwest"]
    /\ Forall (fun e => snd e
                        = count_stored (fst e)
                            (teams (store TeamFixture.pacific_down_run))) b
    /\ total b = List.length (teams (store TeamFixture.pacific_down_run))
    /\ count (reply TeamFixture.pacific_down_run) = Some (total b).
Proof.
  apply (populate_teams_breakdown
           (TeamFixture.serving TeamFixture.pacific_down) Fixture.small_store).
  reflexivity.
Defined.

(** ** Frame of the populate routes *)

Lemma insertMany_next {L F} (schema : L -> completion F) now next
    (l : list L) coll coll' next' :
  insertMany schema now next l coll = Normal (coll', next') ->
  (next <= next')%N.
Proof.
  unfold insertMany. destruct (mapM schema l); [|discriminate].
  cbn. intros [= _ <-]. lia.
Qed.

Lemma teams_frame env s :
  players (store (populate_teams env s)) = players s
  /\ games (store (populate_teams env s)) = games s
  /\ (next_id s <= next_id (store (populate_teams env s)))%N.
Proof.
  unfold populate_teams.
  destruct (List.length (allTeams env) =? 0)%nat; [cbn; repeat split; lia|].
  cbv zeta. destruct (mapM team_to_insert (allTeams env));
    [|cbn; repeat split; lia].
  destruct (insertMany _ _ _ _ _) as [[coll next]|e] eqn:E;
    [|cbn; repeat split; lia].
  apply insertMany_next in E. cbn in *. repeat split. exact E.
Qed.

Lemma players_from_frame env s reqs data :
  teams (store (players_from env s reqs data)) = teams s
  /\ games (store (players_from env s reqs data)) = games s
  /\ (next_id s <= next_id (store (players_from env s reqs data)))%N.
Proof.
  unfold players_from.
  destruct (get data "playerList") as [pl|e]; [|cbn; repeat split; lia].
  destruct (none_listed pl) as [[|]|e]; try (cbn; repeat split; lia).
  destruct (array_map "data.playerList" pl player_to_insert);
    [|cbn; repeat split; lia].
  destruct (insertMany _ _ _ _ _) as [[coll next]|e] eqn:E;
    [|cbn; repeat split; lia].
  apply insertMany_next in E. cbn in *. repeat split. exact E.
Qed.

Lemma games_from_frame tv env s reqs data :
  players (store (games_from tv env s reqs data)) = players s
  /\ teams (store (games_from tv env s reqs data)) = teams s
  /\ (next_id s <= next_id (store (games_from tv env s reqs data)))%N.
Proof.
  unfold games_from.
  destruct (get data "gameList") as [gl|e]; [|cbn; repeat split; lia].
  destruct (none_listed gl) as [[|]|e]; try (cbn; repeat split; lia).
  destruct (array_map "data.gameList" gl game_to_insert);
    [|cbn; repeat split; lia].
  destruct (insertMany _ _ _ _ _) as [[coll next]|e] eqn:E;
    [|cbn; repeat split; lia].
  apply insertMany_next in E. cbn in *. repeat split. exact E.
Qed.

(** X18. A populate route touches its own collection only: populate teams
    leaves the players and the games as they were, populate players the
    teams and the games, populate games the players and the teams,
    whatever the upstream answers; and none of them takes back an id
    already handed out. *)
Theorem populate_frame :
  forall (time_value : value -> option Z) (env : Env) (s : Store),
    (players (store (populate_teams env s)) = players s
     /\ games (store (populate_teams env s)) = games s
     /\ (next_id s <= next_id (store (populate_teams env s)))%N)
    /\ (teams (store (populate_players env s)) = teams s
        /\ games (store (populate_players env s)) = games s
        /\ (next_id s <= next_id (store (populate_players env s)))%N)
    /\ (players (store (populate_games time_value env s)) = players s
        /\ teams (store (populate_games time_value env s)) = teams s
        /\ (next_id s
            <= next_id (store (populate_games time_value env s)))%N).
Proof.
  intros tv env s. split; [|split].
  - apply teams_frame.
  - unfold populate_players.
    destruct (fetchFromRapidAPI env "/players");
      [apply players_from_frame|].
    destruct (fetchFromRapidAPI env "/nba/players");
      [apply players_from_frame | cbn; repeat split; lia].
  - unfold populate_games.
    destruct (fetchFromRapidAPI env "/games");
      [apply games_from_frame|].
    destruct (fetchFromRapidAPI env "/schedule");
      [apply games_from_frame|].
    destruct (fetchFromRapidAPI env (dated_endpoint env));
      [apply games_from_frame | cbn; repeat split; lia].
Qed.

Lemma players_from_counts env s reqs data :
  success (reply (players_from env s reqs data)) = true ->
  count (reply (players_from env s reqs data))
  = Some (List.length (players (store (players_from env s reqs data))))
  /\ players (store (players_from env s reqs data)) <> [].
Proof.
  intros H.
  destruct (players_from_success env s reqs data H)
    as (ups & docs & _ & Hne & _ & Hm & ->).
  apply mapM_length in Hm. rewrite length_map in Hm.
  cbn [reply store count populated set_players players].
  rewrite length_fresh_docs, Hm. split; [reflexivity|].
  intros E. apply (f_equal (@List.length _)) in E.
  rewrite length_fresh_docs, Hm in E.
  destruct ups; [now apply Hne | discriminate].
Qed.

(** X19. A success reply of populate players counts the Player
    collection: its [count] is the number of stored players, which is not
    zero. *)
Theorem populate_players_counts_collection :
  forall (env : Env) (s : Store),
    success (reply (populate_players env s)) = true ->
    count (reply (populate_players env s))
    = Some (List.length (players (store (populate_players env s))))
    /\ players (store (populate_players env s)) <> [].
Proof.
  intros env s. unfold populate_players.
  destruct (fetchFromRapidAPI env "/players");
    [apply players_from_counts|].
  destruct (fetchFromRapidAPI env "/nba/players");
    [apply players_from_counts | discriminate].
Qed.

Lemma populate_players_counts_collection_witness :
  count (reply (populate_players
                  (PlayerFixture.serving [PlayerFixture.named])
                  Fixture.small_store))
  = Some (List.length
            (players (store (populate_players
                               (PlayerFixture.serving [PlayerFixture.named])
                               Fixture.small_store))))
  /\ players (store (populate_players
                       (PlayerFixture.serving [PlayerFixture.named])
                       Fixture.small_store)) <> [].
Proof.
  apply (populate_players_counts_collection
           (PlayerFixture.serving [PlayerFixture.named]) Fixture.small_store).
  reflexivity.
Defined.

(** ** Player search: what is found *)



(** ** Ids after a populate *)

Lemma small_store_wf : wf_store Fixture.small_store.
Proof.
  repeat split; simpl;
    try (constructor; [intros [] | constructor]);
    try constructor; try constructor; try reflexivity.
Qed.

(** X21. The populate routes keep the store well formed: from a store
    whose ids are pairwise distinct inside each collection and below the
    next id to hand out, each route ends on such a store, whatever the
    upstream answers, failures after the clear included. *)
Theorem populate_keeps_ids_distinct :
  forall (time_value : value -> option Z) (env : Env) (s : Store),
    wf_store s ->
    wf_store (store (populate_teams env s))
    /\ wf_store (store (populate_players env s))
    /\ wf_store (store (populate_games time_value env s)).
Proof. intros tv env s. apply populate_keeps_wf. Qed.

Lemma populate_keeps_ids_distinct_witness :
  wf_store (store (populate_teams TwelveTeams.env Fixture.small_store))
  /\ wf_store (store (populate_players TwelveTeams.env Fixture.small_store))
  /\ wf_store (store (populate_games Fixture.clock TwelveTeams.env
                        Fixture.small_store)).
Proof.
  apply (populate_keeps_ids_distinct Fixture.clock TwelveTeams.env
           Fixture.small_store).
  exact small_store_wf.
Defined.

Lemma wf_coll_fits {F} (next : ObjectId) (coll : list (doc F)) (d : doc F) :
  wf_coll next coll -> (next <= 2 ^ 96)%N -> In d coll ->
  fits_ObjectId (_id d).
Proof.
  intros [_ Hlt] Hn Hd. rewrite Forall_forall in Hlt.
  specialize (Hlt d Hd). unfold fits_ObjectId. lia.
Qed.

(** X22. Insert, then look up: after populate players (resp. teams) on a
    well-formed store, as long as the ids handed out fit in 96 bits, every
    document of the Player (resp. Team) collection is brought back by get
    by id on the hexadecimal form of its [_id]. *)
Theorem populate_then_get_by_id :
  forall (env : Env) (s : Store),
    wf_store s ->
    (let s' := store (populate_players env s) in
     (next_id s' <= 2 ^ 96)%N ->
     forall p, In p (players s') ->
       get_player_by_id (toHexString (_id p)) s' = json_one p)
    /\ (let s' := store (populate_teams env s) in
        (next_id s' <= 2 ^ 96)%N ->
        forall t, In t (teams s') ->
          get_team_by_id (toHexString (_id t)) s' = json_one t).
Proof.
  intros env s Hwf.
  destruct (populate_keeps_wf (fun _ => None) env s Hwf) as (Ht & Hp & _).
  split; cbv zeta; intros Hn d Hd.
  - destruct Hp as (Hpl & _). unfold get_player_by_id.
    rewrite (findById_toHexString "Player" _ d (proj1 Hpl) Hd);
      [reflexivity|].
    exact (wf_coll_fits _ _ d Hpl Hn Hd).
  - destruct Ht as (_ & Htm & _). unfold get_team_by_id.
    rewrite (findById_toHexString "Team" _ d (proj1 Htm) Hd);
      [reflexivity|].
    exact (wf_coll_fits _ _ d Htm Hn Hd).
Qed.

Lemma populate_then_get_by_id_witness :
  get_player_by_id "00000000000000000000002c" WfFixture.after_players
  = json_one (mkDoc 44%N 1710009910123%Z
                (Player.mk (VStr "1966") (VStr "LeBron James")
                   (VStr "LeBron") VUndefined (VStr "Free Agent")
                   VUndefined VUndefined VUndefined VUndefined VUndefined
                   0 0 0)).
Proof.
  assert (Hn : (next_id WfFixture.after_players <= 2 ^ 96)%N)
    by (simpl; discriminate).
  assert (Hin : In (mkDoc 44%N 1710009910123%Z
                      (Player.mk (VStr "1966") (VStr "LeBron James")
                         (VStr "LeBron") VUndefined (VStr "Free Agent")
                         VUndefined VUndefined VUndefined VUndefined
                         VUndefined 0 0 0))
                   (players WfFixture.after_players))
    by (left; reflexivity).
  exact (proj1 (populate_then_get_by_id
                  (PlayerFixture.serving [PlayerFixture.named])
                  Fixture.small_store small_store_wf) Hn _ Hin).
Defined.


(** ** The dated path *)

(** X23. When the clock's ISO timestamp reads [date], then 'T', then the
    time of day, [date] holding no 'T', the third path populate games
    tries is '/games?date=' followed by exactly [date]. *)
Theorem dated_endpoint_carries_date :
  forall (env : Env) (date rest : string),
    toISOString env = (date ++ String "T" rest)%string ->
    no_T date = true ->
    dated_endpoint env = ("/games?date=" ++ date)%string.
Proof.
  intros env date rest Hiso HT. unfold dated_endpoint.
  now rewrite Hiso, before_T_date.
Qed.

Lemma dated_endpoint_carries_date_witness :
  dated_endpoint GameFixture.sunday = "/games?date=2024-03-10".
Proof.
  apply (dated_endpoint_carries_date GameFixture.sunday
           "2024-03-10" "00:00:01.000Z"); reflexivity.
Defined.


(** ** What the schemas let into the store *)

Section Throws.
Context {A B : Type} (f : A -> completion B).

(** A failing [mapM] fails on one of its elements. *)
Lemma mapM_throw (l : list A) (e : exn) :
  mapM f l = Throw e -> exists a, In a l /\ f a = Throw e.
Proof.
  induction l as [|a l IH]; simpl; [discriminate|].
  destruct (f a) as [b|e'] eqn:E; simpl.
  - destruct (mapM f l) as [bs|e'']; simpl; [discriminate|].
    intros [= ->]. destruct (IH eq_refl) as (x & Hx & Hf).
    exists x. split; [now right | exact Hf].
  - intros [= ->]. exists a. split; [now left | exact E].
Qed.

End Throws.

Lemma playerSchema_throws (p : Player.t) (e : exn) :
  playerSchema p = Throw e -> e = ValidationError "Player validation failed".
Proof.
  unfold playerSchema.
  repeat (match goal with
          | |- context [cast_path _ (castString ?v)] =>
              destruct (castString v); cbn; [|now intros [= <-]]
          end).
  discriminate.
Qed.

Lemma sideSchema_throws (sd : Game.side_of value) (e : exn) :
  sideSchema sd = Throw e -> e = ValidationError "Game validation failed".
Proof.
  unfold sideSchema.
  repeat (match goal with
          | |- context [cast_path _ (castString ?v)] =>
              destruct (castString v); cbn; [|now intros [= <-]]
          end).
  destruct (castNumber (Game.score sd)); cbn;
    [discriminate | now intros [= <-]].
Qed.

Lemma gameSchema_throws tv (g : Game.literal) (e : exn) :
  gameSchema tv g = Throw e -> e = ValidationError "Game validation failed".
Proof.
  unfold gameSchema.
  destruct (castString (Game.apiGameId g)); cbn; [|now intros [= <-]].
  destruct (castDate tv (Game.date g)); cbn; [|now intros [= <-]].
  destruct (castString (Game.dateFormatted g)); cbn; [|now intros [= <-]].
  destruct (castString (Game.status g)); cbn; [|now intros [= <-]].
  destruct (sideSchema (Game.homeTeam g)) eqn:Eh; cbn;
    [|intros [= <-]; now apply (sideSchema_throws _ _ Eh)].
  destruct (sideSchema (Game.awayTeam g)) eqn:Ea; cbn;
    [|intros [= <-]; now apply (sideSchema_throws _ _ Ea)].
  destruct (castString (Game.venue g)); cbn;
    [discriminate | now intros [= <-]].
Qed.

Lemma players_refused (ups : list value) :
  Forall readable ups -> ~ Forall player_storable ups ->
  mapM playerSchema (List.map player_of ups)
  = Throw (ValidationError "Player validation failed").
Proof.
  intros Hr Hns.
  destruct (mapM playerSchema (List.map player_of ups)) as [docs|e] eqn:Em.
  - exfalso. apply Hns. rewrite mapM_map in Em.
    pose proof (mapM_normal_all (fun up => playerSchema (player_of up))
                  (fun up => forallb takes_text (player_texts up) = true)
                  playerSchema_player_of_refuses ups docs
                  (fun up => texts_dec (player_texts up)) Em) as Ht.
    unfold player_storable. apply Forall_and; assumption.
  - apply mapM_throw in Em as (p & _ & Hp).
    now rewrite (playerSchema_throws p e Hp).
Qed.

Lemma games_refused tv (ups : list value) :
  Forall readable ups -> ~ Forall (game_storable tv) ups ->
  mapM (gameSchema tv) (List.map game_of ups)
  = Throw (ValidationError "Game validation failed").
Proof.
  intros Hr Hns.
  destruct (mapM (gameSchema tv) (List.map game_of ups)) as [docs|e] eqn:Em.
  - exfalso. apply Hns. rewrite mapM_map in Em. apply mapM_normal in Em.
    unfold game_storable. apply Forall_and; [exact Hr|].
    clear Hr Hns. induction Em as [|up r ups docs Hup _ IH]; constructor.
    + apply (gameSchema_game_of tv up r Hup).
    + exact IH.
  - apply mapM_throw in Em as (g & _ & Hg).
    now rewrite (gameSchema_throws tv g e Hg).
Qed.

(** X24. The schemas refuse what cannot be stored.  When a fetch of the
    chain answers with a player (resp. game) list that is a non-empty
    array of records, none of them [undefined] or [null], and one of them
    cannot be stored (a String or a Number path refuses the value read for
    it, or the date of a game is an Invalid Date), populate players
    (resp. games) replies with the 500 failure envelope carrying the
    validation error (its message begins with the name of the model
    and 'validation failed'), and the Player (resp. Game) collection is
    left empty: no record of the list is inserted, not even those that could
    be stored.  The other collections are as they were. *)
Theorem populate_refuses_unstorable :
  forall (time_value : value -> option Z) (env : Env) (s : Store)
         (data : value) (ups : list value),
    ups <> [] -> Forall readable ups ->
    (players_answered env data ->
     get data "playerList" = Normal (VArr ups) ->
     ~ Forall player_storable ups ->
     let o := populate_players env s in
     (exists detail,
        reply o = mkResponse 500 false (Some "Error populating players")
                    None None
                    (Some ("Player validation failed" ++ detail)%string)
                    None)
     /\ players (store o) = []
     /\ teams (store o) = teams s
     /\ games (store o) = games s)
    /\ (games_answered env data ->
        get data "gameList" = Normal (VArr ups) ->
        ~ Forall (game_storable time_value) ups ->
        let o := populate_games time_value env s in
        (exists detail,
           reply o = mkResponse 500 false (Some "Error populating games")
                       None None
                       (Some ("Game validation failed" ++ detail)%string)
                       None)
        /\ games (store o) = []
        /\ players (store o) = players s
        /\ teams (store o) = teams s).
Proof.
  intros tv env s data ups Hne Hr. split; intros Hans Hl Hns; cbv zeta.
  - assert (Hfrom : forall reqs,
      players_from env s reqs data
      = mkOutcome (failure 500 "Error populating players"
                     (ValidationError "Player validation failed"))
          (set_players s [] (next_id s)) reqs).
    { intros reqs. rewrite (players_from_runs env s reqs data ups Hl Hne Hr).
      now rewrite (players_refused ups Hr Hns). }
    unfold populate_players.
    destruct Hans as [H1 | (e1 & H1 & H2)].
    + rewrite H1, Hfrom. split; [now exists ""|repeat split].
    + rewrite H1, H2, Hfrom. split; [now exists ""|repeat split].
  - assert (Hfrom : forall reqs,
      games_from tv env s reqs data
      = mkOutcome (failure 500 "Error populating games"
                     (ValidationError "Game validation failed"))
          (set_games s [] (next_id s)) reqs).
    { intros reqs. rewrite (games_from_runs tv env s reqs data ups Hl Hne Hr).
      now rewrite (games_refused tv ups Hr Hns). }
    unfold populate_games.
    destruct Hans as [H1 | [(e1 & H1 & H2) | (e1 & e2 & H1 & H2 & H3)]].
    + rewrite H1, Hfrom. split; [now exists ""|repeat split].
    + rewrite H1, H2, Hfrom. split; [now exists ""|repeat split].
    + rewrite H1, H2, H3, Hfrom. split; [now exists ""|repeat split].
Qed.

(** On the league: a game list holding a game that can be stored and a
    game without a date; the three games of the league are gone and
    nothing is inserted. *)
Lemma populate_refuses_unstorable_witness :
  ((exists detail,
      reply (populate_games Fixture.clock
               (GameFixture.serving
                  [GameFixture.game "g1"; GameFixture.undated])
               Fixture.league)
      = mkResponse 500 false (Some "Error populating games") None None
          (Some ("Game validation failed" ++ detail)%string) None)
   /\ games (store (populate_games Fixture.clock
                      (GameFixture.serving
                         [GameFixture.game "g1"; GameFixture.undated])
                      Fixture.league)) = []
   /\ players (store (populate_games Fixture.clock
                        (GameFixture.serving
                           [GameFixture.game "g1"; GameFixture.undated])
                        Fixture.league))
      = players Fixture.league
   /\ teams (store (populate_games Fixture.clock
                      (GameFixture.serving
                         [GameFixture.game "g1"; GameFixture.undated])
                      Fixture.league))
      = teams Fixture.league)
  /\ List.length (games Fixture.league) = 3.
Proof.
  split; [|reflexivity].
  assert (Hne : [GameFixture.game "g1"; GameFixture.undated] <> [])
    by discriminate.
  assert (Hr : Forall readable [GameFixture.game "g1"; GameFixture.undated])
    by (repeat constructor; discriminate).
  apply (proj2 (populate_refuses_unstorable Fixture.clock
                  (GameFixture.serving
                     [GameFixture.game "g1"; GameFixture.undated])
                  Fixture.league
                  (VObj [("gameList",
                          VArr [GameFixture.game "g1"; GameFixture.undated])])
                  [GameFixture.game "g1"; GameFixture.undated] Hne Hr)).
  - left. reflexivity.
  - reflexivity.
  - intros H. inversion H as [|? ? _ H2]; subst.
    inversion H2 as [|? ? (_ & Hd & _) _]; subst.
    now apply Hd.
Defined.

Lemma insertMany_players_text now next (l : list Player.t) coll next' :
  insertMany playerSchema now next l [] = Normal (coll, next') ->
  Forall (fun d => is_text (Player.name (fields d))
                   /\ is_text (Player.displayName (fields d))) coll.
Proof.
  rewrite insertMany_cleared.
  destruct (mapM playerSchema l) as [docs|e] eqn:E; [|discriminate].
  intros [= <- _].
  apply (Forall_fresh_docs
           (fun r => is_text (Player.name r)
                     /\ is_text (Player.displayName r))).
  apply mapM_normal in E. eapply Forall2_Forall_r; [|exact E].
  intros p r _ Hr. apply playerSchema_normal in Hr.
  destruct Hr as (_ & Hn & Hd & _).
  split; eapply castString_text; eassumption.
Qed.

Lemma insertMany_teams_text now next (l : list Team.t) coll next' :
  insertMany teamSchema now next l [] = Normal (coll, next') ->
  Forall (fun d => is_text (Team.name (fields d))) coll.
Proof.
  rewrite insertMany_cleared.
  destruct (mapM teamSchema l) as [docs|e] eqn:E; [|discriminate].
  intros [= <- _].
  apply (Forall_fresh_docs (fun r => is_text (Team.name r))).
  apply mapM_normal in E. eapply Forall2_Forall_r; [|exact E].
  intros p r _ Hr. apply teamSchema_normal in Hr.
  destruct Hr as (_ & Hn & _).
  eapply castString_text; eassumption.
Qed.

Lemma insertMany_games_text tv now next (l : list Game.literal) coll next' :
  insertMany (gameSchema tv) now next l [] = Normal (coll, next') ->
  Forall (fun d => is_text (Game.dateFormatted (fields d))) coll.
Proof.
  rewrite insertMany_cleared.
  destruct (mapM (gameSchema tv) l) as [docs|e] eqn:E; [|discriminate].
  intros [= <- _].
  apply (Forall_fresh_docs (fun r => is_text (Game.dateFormatted r))).
  apply mapM_normal in E. eapply Forall2_Forall_r; [|exact E].
  intros p r _ Hr. apply gameSchema_normal in Hr.
  destruct Hr as (_ & _ & Hn & _).
  eapply castString_text; eassumption.
Qed.

Lemma players_from_text env s reqs data :
  text_named_players s ->
  text_named_players (store (players_from env s reqs data)).
Proof.
  intros Hs. unfold players_from.
  destruct (get data "playerList") as [pl|e]; [|exact Hs].
  destruct (none_listed pl) as [[|]|e]; try exact Hs.
  destruct (array_map "data.playerList" pl player_to_insert) as [l|e];
    [|constructor].
  destruct (insertMany _ _ _ _ _) as [[coll next]|e] eqn:E; [|constructor].
  now apply insertMany_players_text in E.
Qed.

Lemma games_from_text tv env s reqs data :
  text_dated_games s ->
  text_dated_games (store (games_from tv env s reqs data)).
Proof.
  intros Hs. unfold games_from.
  destruct (get data "gameList") as [gl|e]; [|exact Hs].
  destruct (none_listed gl) as [[|]|e]; try exact Hs.
  destruct (array_map "data.gameList" gl game_to_insert) as [l|e];
    [|constructor].
  destruct (insertMany _ _ _ _ _) as [[coll next]|e] eqn:E; [|constructor].
  now apply insertMany_games_text in E.
Qed.

(** X25. The populate routes keep the String paths typed, as the list
    routes, the route of the games of a date and the search suppose them:
    from a store whose player names and display names, team names and
    formatted game dates are strings or absent, each route ends on such a
    store, whatever the upstream sends, numbers and booleans included,
    which are stored as their text. *)
Theorem populate_keeps_text :
  forall (time_value : value -> option Z) (env : Env) (s : Store),
    (text_named_players s ->
     text_named_players (store (populate_players env s)))
    /\ (text_named_teams s ->
        text_named_teams (store (populate_teams env s)))
    /\ (text_dated_games s ->
        text_dated_games (store (populate_games time_value env s))).
Proof.
  intros tv env s. split; [|split]; intros Hs.
  - unfold populate_players.
    destruct (fetchFromRapidAPI env "/players");
      [now apply players_from_text|].
    destruct (fetchFromRapidAPI env "/nba/players");
      [now apply players_from_text | exact Hs].
  - unfold populate_teams.
    destruct (List.length (allTeams env) =? 0)%nat; [exact Hs|].
    cbv zeta. destruct (mapM team_to_insert (allTeams env)); [|constructor].
    destruct (insertMany _ _ _ _ _) as [[coll next]|e] eqn:E; [|constructor].
    now apply insertMany_teams_text in E.
  - unfold populate_games.
    destruct (fetchFromRapidAPI env "/games");
      [now apply games_from_text|].
    destruct (fetchFromRapidAPI env "/schedule");
      [now apply games_from_text|].
    destruct (fetchFromRapidAPI env (dated_endpoint env));
      [now apply games_from_text | exact Hs].
Qed.

(** Populate players on the league, the upstream sending numbers for an
    id and a jersey: the stored names are strings. *)
Lemma populate_keeps_text_witness :
  text_named_players (store PlayerFixture.two_run)
  /\ List.map (fun d => Player.name (fields d))
       (players (store PlayerFixture.two_run))
     = [VStr "LeBron James"; VStr "Stephen Curry"].
Proof.
  split; [|reflexivity].
  apply (proj1 (populate_keeps_text Fixture.clock PlayerFixture.two
                  Fixture.league)).
  repeat constructor.
Defined.
